(** * bittorrent-swarm: the connection pool, the per-peer state and the
      shared listener, embedded as state-passing functions over an explicit
      object store.

    - [JS]: the fragments of the JavaScript runtime the sources rely on
      ([String.prototype.split], [Number] applied to a string,
      [Array.prototype.indexOf] and [splice], plain objects as property
      lists).
    - [Index]: the module exporting [Swarm] (constructor functions [Peer],
      [Pool] and [Swarm], with the closures they register as listeners).
    - [PeerJs]: the peer module ([createIncomingTCPPeer], [Peer.prototype.destroy],
      [setTimeout] and friends).

    Sockets, wires and the listening server are external: they are objects of
    the store whose events are delivered by the environment. *)

From stdpp Require Import base list strings option numbers pretty.
From Stdlib Require Import QArith Ascii.

Local Open Scope Z_scope.

(* ===================================================================== *)
(** ** JavaScript runtime fragments *)
(* ===================================================================== *)

Module JS.

(** Strings are sequences of code units; the model covers code units below
    256 (one [ascii] each). *)

(** [s.split(sep)] for a one-character separator. *)
Fixpoint split (sep : ascii) (s : string) : list string :=
  match s with
  | EmptyString => [EmptyString]
  | String c rest =>
      if Ascii.eqb c sep then EmptyString :: split sep rest
      else match split sep rest with
           | [] => [String c EmptyString]
           | hd :: tl => String c hd :: tl
           end
  end.

(** Number values: a finite double is kept as the exact rational it denotes
    (the two zeros are identified, no operation below tells them apart). *)
Inductive number :=
| NaN
| Infinity (negative : bool)
| Finite (q : Q).

(** Round-half-even of the fraction [a / b], for [0 <= a] and [0 < b]. *)
Definition round_half_even (a b : Z) : Z :=
  let q := a / b in
  let r := a mod b in
  if 2 * r <? b then q
  else if b <? 2 * r then q + 1
  else if Z.even q then q else q + 1.

(** [floor (log2 (n / d))] for positive [n] and [d]. *)
Definition ilog2 (n d : Z) : Z :=
  let e := Z.log2 n - Z.log2 d in
  let above := if 0 <=? e then d * 2 ^ e <=? n else d <=? n * 2 ^ (- e) in
  if above then e else e - 1.

(** The double nearest to a rational (IEEE 754 binary64, round to nearest,
    ties to even, gradual underflow, overflow to infinity). *)
Definition round_double (q : Q) : number :=
  let neg := Qnum q <? 0 in
  let n := Z.abs (Qnum q) in
  let d := Z.pos (Qden q) in
  if n =? 0 then Finite 0
  else
    let e := ilog2 n d in
    let k := Z.max (e - 52) (-1074) in
    let m := if 0 <=? k then round_half_even n (d * 2 ^ k)
             else round_half_even (n * 2 ^ (- k)) d in
    if 2 ^ (1024 - k) <=? m then Infinity neg
    else
      let s := if neg then - m else m in
      Finite (Qred (if 0 <=? k then Qmake (s * 2 ^ k) 1
                    else Qmake s (Z.to_pos (2 ^ (- k))))).

Definition Qlt_bool (x y : Q) : bool :=
  Qnum x * Z.pos (Qden y) <? Qnum y * Z.pos (Qden x).

(** [x < y] on numbers (any comparison with NaN is false). *)
Definition lt (x y : number) : bool :=
  match x, y with
  | NaN, _ | _, NaN => false
  | Infinity true, Infinity true => false
  | Infinity true, _ => true
  | _, Infinity true => false
  | Infinity false, _ => false
  | Finite _, Infinity false => true
  | Finite a, Finite b => Qlt_bool a b
  end.

(** [x > y] is [y < x]. *)
Definition gt (x y : number) : bool := lt y x.

Definition of_Z (z : Z) : number := Finite (inject_Z z).

(** *** [Number(string)]: StringToNumber *)

Definition code (c : ascii) : Z := Z.of_N (N_of_ascii c).

(** StrWhiteSpaceChar, restricted to code units below 256:
    TAB, LF, VT, FF, CR, SP, NBSP. *)
Definition is_white (c : ascii) : bool :=
  let n := code c in
  ((9 <=? n) && (n <=? 13)) || (n =? 32) || (n =? 160).

Fixpoint drop_white (l : list ascii) : list ascii :=
  match l with
  | c :: r => if is_white c then drop_white r else l
  | [] => []
  end.

Definition trim (l : list ascii) : list ascii :=
  rev (drop_white (rev (drop_white l))).

(** Value of a digit character, up to base 16. *)
Definition digit_val (c : ascii) : option Z :=
  let n := code c in
  if (48 <=? n) && (n <=? 57) then Some (n - 48)
  else if (97 <=? n) && (n <=? 102) then Some (n - 87)
  else if (65 <=? n) && (n <=? 70) then Some (n - 55)
  else None.

Definition digit_in (base : Z) (c : ascii) : option Z :=
  match digit_val c with
  | Some v => if v <? base then Some v else None
  | None => None
  end.

(** Longest prefix of digits of [base]: the digit values and what follows. *)
Fixpoint take_digits (base : Z) (l : list ascii) : list Z * list ascii :=
  match l with
  | c :: r =>
      match digit_in base c with
      | Some v => let '(ds, rest) := take_digits base r in (v :: ds, rest)
      | None => ([], l)
      end
  | [] => ([], [])
  end.

Definition digits_value (base : Z) (ds : list Z) : Z :=
  foldl (fun acc d => acc * base + d) 0 ds.

(** The rational [m * 10 ^ e]. *)
Definition decimal (m e : Z) : Q :=
  if 0 <=? e then Qmake (m * 10 ^ e) 1 else Qmake m (Z.to_pos (10 ^ (- e))).

(** ExponentPart (optional), which must reach the end of the literal. *)
Definition exponent_part (l : list ascii) : option Z :=
  match l with
  | [] => Some 0
  | c :: r =>
      if (code c =? 101) || (code c =? 69) then
        let '(neg, r') :=
          match r with
          | s :: r' => if code s =? 43 then (false, r')
                       else if code s =? 45 then (true, r')
                       else (false, r)
          | [] => (false, r)
          end in
        match take_digits 10 r' with
        | (d :: ds, []) =>
            let v := digits_value 10 (d :: ds) in
            Some (if neg then - v else v)
        | _ => None
        end
      else None
  end.

(** StrUnsignedDecimalLiteral. *)
Definition unsigned_decimal (neg : bool) (l : list ascii) : number :=
  if bool_decide (l = String.list_ascii_of_string "Infinity") then Infinity neg
  else
    let '(ip, r1) := take_digits 10 l in
    let '(fp, r2, ok) :=
      match r1 with
      | c :: r =>
          if code c =? 46 then
            let '(fp, r2) := take_digits 10 r in
            (fp, r2, negb (bool_decide (ip = []) && bool_decide (fp = [])))
          else ([], r1, negb (bool_decide (ip = [])))
      | [] => ([], r1, negb (bool_decide (ip = [])))
      end in
    if ok then
      match exponent_part r2 with
      | Some e =>
          let m := digits_value 10 (ip ++ fp) in
          round_double (decimal (if neg then - m else m) (e - Z.of_nat (length fp)))
      | None => NaN
      end
    else NaN.

(** NonDecimalIntegerLiteral: [0x], [0o], [0b] and at least one digit. *)
Definition non_decimal (l : list ascii) : option number :=
  match l with
  | z :: p :: r =>
      if code z =? 48 then
        let base :=
          if (code p =? 120) || (code p =? 88) then Some 16
          else if (code p =? 111) || (code p =? 79) then Some 8
          else if (code p =? 98) || (code p =? 66) then Some 2
          else None in
        match base with
        | Some b =>
            match take_digits b r with
            | (d :: ds, []) => Some (round_double (inject_Z (digits_value b (d :: ds))))
            | _ => Some NaN
            end
        | None => None
        end
      else None
  | _ => None
  end.

Definition StringToNumber (s : string) : number :=
  match trim (String.list_ascii_of_string s) with
  | [] => Finite 0
  | c :: r =>
      match non_decimal (c :: r) with
      | Some v => v
      | None =>
          if code c =? 43 then unsigned_decimal false r
          else if code c =? 45 then unsigned_decimal true r
          else unsigned_decimal false (c :: r)
      end
  end.

(** [Number(v)] for [v] a string or [undefined] ([None]). *)
Definition Number (v : option string) : number :=
  match v with
  | None => NaN
  | Some s => StringToNumber s
  end.

(** *** Arrays *)

(** [a.indexOf(x)]: first position of [x], or -1. *)
Definition indexOf `{EqDecision A} (x : A) (a : list A) : Z :=
  match list_find (fun y => y = x) a with
  | Some (i, _) => Z.of_nat i
  | None => -1
  end.

(** Relative start of [splice]: negative positions count from the end. *)
Definition splice_start {A} (start : Z) (a : list A) : nat :=
  let len := Z.of_nat (length a) in
  Z.to_nat (if start <? 0 then Z.max (len + start) 0 else Z.min start len).

(** [a.splice(start, deleteCount)]: the array after the call. *)
Definition splice {A} (start : Z) (deleteCount : nat) (a : list A) : list A :=
  let i := splice_start start a in
  take i a ++ drop (i + deleteCount) a.

(** [a.splice(start)]: everything from [start] on is removed. *)
Definition splice_from {A} (start : Z) (a : list A) : list A :=
  take (splice_start start a) a.

(** [a.shift()]. *)
Definition shift {A} (a : list A) : option A * list A :=
  match a with
  | [] => (None, [])
  | x :: r => (Some x, r)
  end.

(** *** Plain objects used as dictionaries

    The own enumerable properties in creation order. Keys are strings; an
    object indexed by port numbers keeps the number as the key (the decimal
    rendering of a number is injective). *)
Abbreviation obj K V := (list (K * V)).

(** [o[k]] on own properties. The objects of the sources are created by
    [{}]: an inherited name ([constructor], [toString], ...) carries no
    colon and is not a hexadecimal string, so that it is never an address
    that passes [validAddr] nor an info-hash. *)
Fixpoint get `{EqDecision K} {V} (k : K) (o : obj K V) : option V :=
  match o with
  | [] => None
  | (k', v) :: r => if decide (k' = k) then Some v else get k r
  end.

(** [o[k] = v]: an existing property keeps its place. *)
Fixpoint set `{EqDecision K} {V} (k : K) (v : V) (o : obj K V) : obj K V :=
  match o with
  | [] => [(k, v)]
  | (k', v') :: r => if decide (k' = k) then (k, v) :: r else (k', v') :: set k v r
  end.

(** [delete o[k]]. *)
Definition delete `{EqDecision K} {V} (k : K) (o : obj K V) : obj K V :=
  filter (fun kv => kv.1 <> k) o.

(** [Object.keys(o)], also the order of [for (k in o)]. *)
Definition keys {K V} (o : obj K V) : list K := o.*1.

End JS.


(* ===================================================================== *)
(** ** Computations: state passing with exceptions *)
(* ===================================================================== *)

Module Eff.

Inductive completion (A : Type) :=
| Normal (a : A)
| Throw (e : string).
Arguments Normal {A} a.
Arguments Throw {A} e.

Definition M (W A : Type) : Type := W -> W * completion A.

Global Instance M_ret {W} : MRet (M W) := fun A a w => (w, Normal a).
Global Instance M_bind {W} : MBind (M W) := fun A B k m w =>
  match m w with
  | (w', Normal a) => k a w'
  | (w', Throw e) => (w', Throw e)
  end.

Definition throw {W A} (e : string) : M W A := fun w => (w, Throw e).
Definition gets {W A} (f : W -> A) : M W A := fun w => (w, Normal (f w)).
Definition modify {W} (f : W -> W) : M W unit := fun w => (f w, Normal tt).

(** Objects live in a store and are named by their position in it. *)
Abbreviation ref := nat.

(** Reading an object of the store. *)
Definition deref {W A} (store : W -> list A) (r : ref) : M W A := fun w =>
  match store w !! r with
  | Some x => (w, Normal x)
  | None => (w, Throw "dangling reference")
  end.

Definition TypeError {W A} : M W A := throw "TypeError".

(** Reading a property of [null] or [undefined], or calling it. *)
Definition nonnull {W A} (o : option A) : M W A :=
  match o with
  | Some x => mret x
  | None => TypeError
  end.

Fixpoint for_each {W A} (l : list A) (body : A -> M W unit) : M W unit :=
  match l with
  | [] => mret tt
  | x :: r => body x;; for_each r body
  end.

Definition when {W} (b : bool) (m : M W unit) : M W unit := if b then m else mret tt.

(** Running a computation for its final store. *)
Definition exec {W A} (m : M W A) (w : W) : W := (m w).1.

(** [m] keeps the property [P] of the store, whether it returns or throws. *)
Definition preserves {W A} (P : W -> Prop) (m : M W A) : Prop :=
  forall w, P w -> P (m w).1.

(** [String(v)] of a string or [undefined], as [+] and property keys use it. *)
Definition to_str (v : option string) : string := default "undefined" v.

(** A registered listener: [emitter.on(event, fn)] or [emitter.once(event, fn)]. *)
Record Listener (F : Type) := mkListener { l_event : string; l_once : bool; l_fn : F }.
Arguments mkListener {F} _ _ _.
Arguments l_event {F} _.
Arguments l_once {F} _.
Arguments l_fn {F} _.

Global Instance Listener_eq_dec `{EqDecision F} : EqDecision (Listener F).
Proof. solve_decision. Defined.

Definition listening_to {F} (ev : string) (ls : list (Listener F)) : list (Listener F) :=
  filter (fun l => l_event l = ev) ls.

Fixpoint remove_first `{EqDecision A} (x : A) (l : list A) : list A :=
  match l with
  | [] => []
  | y :: r => if decide (y = x) then r else y :: remove_first x r
  end.

End Eff.

(* ===================================================================== *)
(** ** The swarm module: [Peer], [Pool], [Swarm] *)
(* ===================================================================== *)

Module Index.
Import Eff.

Definition MAX_SIZE : nat := 100.
Definition HANDSHAKE_TIMEOUT : Z := 5000.
Definition RECONNECT_WAIT : list Z :=
  [1000; 5000; 15000; 30000; 60000; 120000; 300000; 600000].

(** Values passed along with an event. *)
Inductive Value :=
| VUndefined
| VString (s : string)
| VNumber (n : Z)
| VRef (r : ref).

(** The function values of the sources, one constructor per function
    expression, carrying the variables it closes over. *)
Inductive Closure :=
(* Peer.prototype.onconnect *)
| Peer_conn_end (cell peer : ref)      (* function () { destroy() } on conn 'end' and 'error' *)
| Peer_conn_close (wire : ref)         (* function () { wire.end() } *)
| Peer_wire_end (peer : ref)           (* function () { this.wire = null } *)
(* Pool.prototype._onconn *)
| Pool_conn_close (pool conn : ref)    (* this.conns.splice(this.conns.indexOf(conn)) *)
| Pool_timeout (conn : ref)            (* function () { conn.destroy() } *)
| Pool_onhandshake (pool peer conn timeout : ref)
(* Pool.prototype._onerror *)
| Pool_retry (pool : ref)
(* Pool.prototype.addSwarm *)
| AddSwarm_listening (swarm : ref)
| AddSwarm_error (swarm : ref)
(* Swarm.prototype.destroy *)
| Destroy_close (swarm : ref)
(* Swarm.prototype._drain *)
| Drain_timeout (conn : ref)           (* function () { conn.destroy() } *)
| Drain_onhandshake (swarm peer timeout : ref)
| Drain_onconnect (swarm peer conn timeout : ref)
| Drain_wire_end (swarm peer wire : ref)
| Drain_readd (swarm peer : ref)
| Drain_conn_error (peer : ref)
(* Swarm.prototype._onconn *)
| Onconn_close (swarm : ref)
(* Swarm.prototype._onwire *)
| Onwire_download (swarm : ref)
| Onwire_upload (swarm : ref)
| Onwire_cleanup (cell swarm wire : ref) (conn : option ref).

Global Instance Closure_eq_dec : EqDecision Closure.
Proof. solve_decision. Defined.

Abbreviation Listener := (Eff.Listener Closure).

(** [net.Socket]: what the sources set and read. *)
Module Socket.
Record t := mk {
  remoteAddress : option string;   (* [undefined] on a socket that we dial *)
  remotePort : option string;      (* the number, by its decimal rendering *)
  destroyed : bool;             (* conn.destroy() was called *)
  listeners : list Listener }.
End Socket.

(** [Wire] of bittorrent-protocol. *)
Module Wire.
Record t := mk {
  remoteAddress : option string;
  destroyed : bool;             (* set by wire.destroy() *)
  ended : bool;                 (* wire.end() was called *)
  listeners : list Listener }.
End Wire.

Module Peer.
Record t := mk {
  addr : string;
  conn : option ref;
  wire : option ref;
  timeout : option ref;
  retries : nat }.
(** [peer.node]: no such property is ever defined on a [Peer], the read
    yields [undefined]. *)
Definition node (p : t) : option ref := None.
End Peer.

(** A swarm. [extensions] is only handed on to [wire.handshake]; the two
    speedometers and [ratio] (a quotient of doubles) take no part in the
    management of peers. These are left out. *)
Module Swarm.
Record t := mk {
  infoHash : string;            (* the buffer, by its lowercase hex rendering *)
  peerId : string;
  port : N;
  downloaded : Z;
  uploaded : Z;
  wires : list ref;
  _queue : list ref;
  _peers : JS.obj string ref;
  _paused : bool;
  _destroyed : bool }.
End Swarm.

Module Pool.
Record t := mk {
  port : N;
  swarms : JS.obj string ref;
  listening : bool;
  conns : list ref;
  _retries : nat }.
End Pool.

Record Timer := mkTimer { delay : Z; callback : Closure; pending : bool }.

(** What leaves the module: events emitted on a swarm, console output and
    calls into [net] and the wire. *)
Inductive Effect :=
| Emit (swarm : ref) (event : string) (arg : Value)
| Console (msg : string)
| NetConnect (conn : ref) (port host : option string)
| WireHandshake (wire : ref) (infoHash peerId : string)
| ServerListen (pool : ref) (port : N)
| ServerClose (pool : ref)
| PortfinderGetPort (swarm : ref).

Record World := mkWorld {
  peers : list Peer.t;
  sockets : list Socket.t;
  wireobjs : list Wire.t;
  timers : list Timer;
  onces : list bool;                 (* the [called] flag of each once(fn) *)
  swarms : list Swarm.t;
  pools : list Pool.t;
  Pool_pools : JS.obj N ref;         (* Pool.pools *)
  ticks : list Closure;              (* process.nextTick queue *)
  log : list Effect;                 (* oldest first *)
  crashed : option string }.         (* an exception reached the event loop *)

Definition init : World := mkWorld [] [] [] [] [] [] [] [] [] [] None.

Definition with_peers x w := mkWorld x (sockets w) (wireobjs w) (timers w) (onces w) (swarms w) (pools w) (Pool_pools w) (ticks w) (log w) (crashed w).
Definition with_sockets x w := mkWorld (peers w) x (wireobjs w) (timers w) (onces w) (swarms w) (pools w) (Pool_pools w) (ticks w) (log w) (crashed w).
Definition with_wireobjs x w := mkWorld (peers w) (sockets w) x (timers w) (onces w) (swarms w) (pools w) (Pool_pools w) (ticks w) (log w) (crashed w).
Definition with_timers x w := mkWorld (peers w) (sockets w) (wireobjs w) x (onces w) (swarms w) (pools w) (Pool_pools w) (ticks w) (log w) (crashed w).
Definition with_onces x w := mkWorld (peers w) (sockets w) (wireobjs w) (timers w) x (swarms w) (pools w) (Pool_pools w) (ticks w) (log w) (crashed w).
Definition with_swarms x w := mkWorld (peers w) (sockets w) (wireobjs w) (timers w) (onces w) x (pools w) (Pool_pools w) (ticks w) (log w) (crashed w).
Definition with_pools x w := mkWorld (peers w) (sockets w) (wireobjs w) (timers w) (onces w) (swarms w) x (Pool_pools w) (ticks w) (log w) (crashed w).
Definition with_Pool_pools x w := mkWorld (peers w) (sockets w) (wireobjs w) (timers w) (onces w) (swarms w) (pools w) x (ticks w) (log w) (crashed w).
Definition with_ticks x w := mkWorld (peers w) (sockets w) (wireobjs w) (timers w) (onces w) (swarms w) (pools w) (Pool_pools w) x (log w) (crashed w).
Definition with_log x w := mkWorld (peers w) (sockets w) (wireobjs w) (timers w) (onces w) (swarms w) (pools w) (Pool_pools w) (ticks w) x (crashed w).
Definition with_crashed x w := mkWorld (peers w) (sockets w) (wireobjs w) (timers w) (onces w) (swarms w) (pools w) (Pool_pools w) (ticks w) (log w) x.

Abbreviation M := (Eff.M World).

Definition effect (e : Effect) : M unit := modify (fun w => with_log (log w ++ [e]) w).

Definition get_peer := deref peers.
Definition get_socket := deref sockets.
Definition get_wire := deref wireobjs.
Definition get_swarm := deref swarms.
Definition get_pool := deref pools.

Definition upd_peer (r : ref) (f : Peer.t -> Peer.t) : M unit :=
  modify (fun w => with_peers (alter f r (peers w)) w).
Definition upd_socket (r : ref) (f : Socket.t -> Socket.t) : M unit :=
  modify (fun w => with_sockets (alter f r (sockets w)) w).
Definition upd_wire (r : ref) (f : Wire.t -> Wire.t) : M unit :=
  modify (fun w => with_wireobjs (alter f r (wireobjs w)) w).
Definition upd_swarm (r : ref) (f : Swarm.t -> Swarm.t) : M unit :=
  modify (fun w => with_swarms (alter f r (swarms w)) w).
Definition upd_pool (r : ref) (f : Pool.t -> Pool.t) : M unit :=
  modify (fun w => with_pools (alter f r (pools w)) w).

Definition new_peer (x : Peer.t) : M ref := fun w =>
  (with_peers (peers w ++ [x]) w, Normal (length (peers w))).
Definition new_socket (x : Socket.t) : M ref := fun w =>
  (with_sockets (sockets w ++ [x]) w, Normal (length (sockets w))).
Definition new_wire (x : Wire.t) : M ref := fun w =>
  (with_wireobjs (wireobjs w ++ [x]) w, Normal (length (wireobjs w))).
Definition new_swarm (x : Swarm.t) : M ref := fun w =>
  (with_swarms (swarms w ++ [x]) w, Normal (length (swarms w))).
Definition new_pool (x : Pool.t) : M ref := fun w =>
  (with_pools (pools w ++ [x]) w, Normal (length (pools w))).

(** [once(fn)]: a fresh [called] flag. *)
Definition once : M ref := fun w =>
  (with_onces (onces w ++ [false]) w, Normal (length (onces w))).

(** Entering a function wrapped by [once]: [true] on the first call only. *)
Definition once_enter (cell : ref) : M bool := fun w =>
  match onces w !! cell with
  | Some false => (with_onces (<[cell := true]> (onces w)) w, Normal true)
  | _ => (w, Normal false)
  end.

(** Timers. A timer that fired or was cleared stays in the store, not
    pending. *)
Definition setTimeout (f : Closure) (ms : Z) : M ref := fun w =>
  (with_timers (timers w ++ [mkTimer ms f true]) w, Normal (length (timers w))).

Definition clearTimeout (t : ref) : M unit :=
  modify (fun w => with_timers (alter (fun x => mkTimer (delay x) (callback x) false) t (timers w)) w).

(** The timer [t] fires: it is no longer pending. *)
Definition fired (t : ref) : M unit :=
  modify (fun w => with_timers (alter (fun x => mkTimer (delay x) (callback x) false) t (timers w)) w).

Definition nextTick (f : Closure) : M unit :=
  modify (fun w => with_ticks (ticks w ++ [f]) w).

(** Field updates. *)
Definition Peer_set_conn v (p : Peer.t) := Peer.mk (Peer.addr p) v (Peer.wire p) (Peer.timeout p) (Peer.retries p).
Definition Peer_set_wire v (p : Peer.t) := Peer.mk (Peer.addr p) (Peer.conn p) v (Peer.timeout p) (Peer.retries p).
Definition Peer_set_timeout v (p : Peer.t) := Peer.mk (Peer.addr p) (Peer.conn p) (Peer.wire p) v (Peer.retries p).
Definition Peer_set_retries v (p : Peer.t) := Peer.mk (Peer.addr p) (Peer.conn p) (Peer.wire p) (Peer.timeout p) v.

Definition Socket_set_destroyed v (c : Socket.t) := Socket.mk (Socket.remoteAddress c) (Socket.remotePort c) v (Socket.listeners c).
Definition Socket_set_listeners v (c : Socket.t) := Socket.mk (Socket.remoteAddress c) (Socket.remotePort c) (Socket.destroyed c) v.

Definition Wire_set_remoteAddress v (x : Wire.t) := Wire.mk v (Wire.destroyed x) (Wire.ended x) (Wire.listeners x).
Definition Wire_set_destroyed v (x : Wire.t) := Wire.mk (Wire.remoteAddress x) v (Wire.ended x) (Wire.listeners x).
Definition Wire_set_ended v (x : Wire.t) := Wire.mk (Wire.remoteAddress x) (Wire.destroyed x) v (Wire.listeners x).
Definition Wire_set_listeners v (x : Wire.t) := Wire.mk (Wire.remoteAddress x) (Wire.destroyed x) (Wire.ended x) v.

Definition Swarm_set_port v (s : Swarm.t) := Swarm.mk (Swarm.infoHash s) (Swarm.peerId s) v (Swarm.downloaded s) (Swarm.uploaded s) (Swarm.wires s) (Swarm._queue s) (Swarm._peers s) (Swarm._paused s) (Swarm._destroyed s).
Definition Swarm_set_downloaded v (s : Swarm.t) := Swarm.mk (Swarm.infoHash s) (Swarm.peerId s) (Swarm.port s) v (Swarm.uploaded s) (Swarm.wires s) (Swarm._queue s) (Swarm._peers s) (Swarm._paused s) (Swarm._destroyed s).
Definition Swarm_set_uploaded v (s : Swarm.t) := Swarm.mk (Swarm.infoHash s) (Swarm.peerId s) (Swarm.port s) (Swarm.downloaded s) v (Swarm.wires s) (Swarm._queue s) (Swarm._peers s) (Swarm._paused s) (Swarm._destroyed s).
Definition Swarm_set_wires v (s : Swarm.t) := Swarm.mk (Swarm.infoHash s) (Swarm.peerId s) (Swarm.port s) (Swarm.downloaded s) (Swarm.uploaded s) v (Swarm._queue s) (Swarm._peers s) (Swarm._paused s) (Swarm._destroyed s).
Definition Swarm_set_queue v (s : Swarm.t) := Swarm.mk (Swarm.infoHash s) (Swarm.peerId s) (Swarm.port s) (Swarm.downloaded s) (Swarm.uploaded s) (Swarm.wires s) v (Swarm._peers s) (Swarm._paused s) (Swarm._destroyed s).
Definition Swarm_set_peers v (s : Swarm.t) := Swarm.mk (Swarm.infoHash s) (Swarm.peerId s) (Swarm.port s) (Swarm.downloaded s) (Swarm.uploaded s) (Swarm.wires s) (Swarm._queue s) v (Swarm._paused s) (Swarm._destroyed s).
Definition Swarm_set_paused v (s : Swarm.t) := Swarm.mk (Swarm.infoHash s) (Swarm.peerId s) (Swarm.port s) (Swarm.downloaded s) (Swarm.uploaded s) (Swarm.wires s) (Swarm._queue s) (Swarm._peers s) v (Swarm._destroyed s).
Definition Swarm_set_destroyed v (s : Swarm.t) := Swarm.mk (Swarm.infoHash s) (Swarm.peerId s) (Swarm.port s) (Swarm.downloaded s) (Swarm.uploaded s) (Swarm.wires s) (Swarm._queue s) (Swarm._peers s) (Swarm._paused s) v.

Definition Pool_set_swarms v (p : Pool.t) := Pool.mk (Pool.port p) v (Pool.listening p) (Pool.conns p) (Pool._retries p).
Definition Pool_set_listening v (p : Pool.t) := Pool.mk (Pool.port p) (Pool.swarms p) v (Pool.conns p) (Pool._retries p).
Definition Pool_set_conns v (p : Pool.t) := Pool.mk (Pool.port p) (Pool.swarms p) (Pool.listening p) v (Pool._retries p).
Definition Pool_set_retries v (p : Pool.t) := Pool.mk (Pool.port p) (Pool.swarms p) (Pool.listening p) (Pool.conns p) v.

(** Methods of the external objects. *)
Definition Socket_on (c : ref) (ev : string) (f : Closure) : M unit :=
  upd_socket c (fun x => Socket_set_listeners (Socket.listeners x ++ [mkListener ev false f]) x).
Definition Socket_once (c : ref) (ev : string) (f : Closure) : M unit :=
  upd_socket c (fun x => Socket_set_listeners (Socket.listeners x ++ [mkListener ev true f]) x).
Definition Socket_destroy (c : ref) : M unit :=
  upd_socket c (Socket_set_destroyed true).

Definition Wire_on (r : ref) (ev : string) (f : Closure) : M unit :=
  upd_wire r (fun x => Wire_set_listeners (Wire.listeners x ++ [mkListener ev false f]) x).
Definition Wire_once (r : ref) (ev : string) (f : Closure) : M unit :=
  upd_wire r (fun x => Wire_set_listeners (Wire.listeners x ++ [mkListener ev true f]) x).
Definition Wire_destroy (r : ref) : M unit :=
  upd_wire r (Wire_set_destroyed true).
Definition Wire_end (r : ref) : M unit :=
  upd_wire r (Wire_set_ended true).
Definition Wire_handshake (r : ref) (infoHash peerId : string) : M unit :=
  effect (WireHandshake r infoHash peerId).

(** [swarm.emit(event, arg)]: the listeners are the user's. *)
Definition Swarm_emit (s : ref) (ev : string) (arg : Value) : M unit :=
  effect (Emit s ev arg).


(** *** Address validation *)

(**
<<
function validAddr (addr) {
  var port = Number(addr.split(':')[1])
  return port > 0 && port < 65535
}
>> *)
Definition validAddr (addr : string) : bool :=
  let port := JS.Number (JS.split ":" addr !! 1%nat) in
  JS.gt port (JS.of_Z 0) && JS.lt port (JS.of_Z 65535).

(** *** Peer *)

(** [new Peer(addr)] *)
Definition Peer_new (addr : string) : M ref :=
  new_peer (Peer.mk addr None None None 0).

(** [Peer.prototype.onconnect] *)
Definition Peer_onconnect (this conn : ref) : M unit :=
  upd_peer this (Peer_set_conn (Some conn));;
  wire ← new_wire (Wire.mk None false false []);
  upd_peer this (Peer_set_wire (Some wire));;
  p ← get_peer this;
  upd_wire wire (Wire_set_remoteAddress (Some (Peer.addr p)));;
  destroy ← once;
  Socket_once conn "end" (Peer_conn_end destroy this);;
  Socket_once conn "error" (Peer_conn_end destroy this);;
  Socket_once conn "close" (Peer_conn_close wire);;
  Wire_once wire "end" (Peer_wire_end this).

(** *** Pool *)

(** [new Pool(port)] *)
Definition Pool_new (port : N) : M ref :=
  this ← new_pool (Pool.mk port [] false [] 0);
  effect (ServerListen this port);;
  mret this.

(** [Pool.prototype.destroy] *)
Definition Pool_destroy (this : ref) : M unit :=
  p ← get_pool this;
  for_each (Pool.conns p) Socket_destroy;;
  upd_pool this (Pool_set_listening false);;
  effect (ServerClose this).

(** [Pool.prototype.addSwarm] *)
Definition Pool_addSwarm (this swarm : ref) : M unit :=
  s ← get_swarm swarm;
  let infoHash := Swarm.infoHash s in
  p ← get_pool this;
  when (Pool.listening p) (nextTick (AddSwarm_listening swarm));;
  match JS.get infoHash (Pool.swarms p) with
  | Some _ => nextTick (AddSwarm_error swarm)
  | None => upd_pool this (fun p => Pool_set_swarms (JS.set infoHash swarm (Pool.swarms p)) p)
  end.

(** [Pool.prototype.removeSwarm] *)
Definition Pool_removeSwarm (this swarm : ref) : M unit :=
  s ← get_swarm swarm;
  let infoHash := Swarm.infoHash s in
  upd_pool this (fun p => Pool_set_swarms (JS.delete infoHash (Pool.swarms p)) p);;
  p ← get_pool this;
  when (bool_decide (length (JS.keys (Pool.swarms p)) = 0%nat)) (Pool_destroy this).

(** [Pool.add] *)
Definition Pool_add (swarm : ref) : M unit :=
  s ← get_swarm swarm;
  let port := Swarm.port s in
  reg ← gets Pool_pools;
  pool ← match JS.get port reg with
         | Some pool => mret pool
         | None =>
             pool ← Pool_new port;
             modify (fun w => with_Pool_pools (JS.set port pool (Pool_pools w)) w);;
             mret pool
         end;
  Pool_addSwarm pool swarm.

(** [Pool.remove] *)
Definition Pool_remove (swarm : ref) : M unit :=
  s ← get_swarm swarm;
  let port := Swarm.port s in
  reg ← gets Pool_pools;
  match JS.get port reg with
  | None => mret tt
  | Some pool =>
      Pool_removeSwarm pool swarm;;
      p ← get_pool pool;
      when (bool_decide (length (JS.keys (Pool.swarms p)) = 0%nat))
        (modify (fun w => with_Pool_pools (JS.delete port (Pool_pools w)) w))
  end.

(** [Pool.prototype._onlistening] *)
Definition Pool__onlistening (this : ref) : M unit :=
  upd_pool this (Pool_set_listening true);;
  p ← get_pool this;
  for_each (JS.keys (Pool.swarms p)) (fun infoHash =>
    match JS.get infoHash (Pool.swarms p) with
    | Some swarm => Swarm_emit swarm "listening" (VNumber (Z.of_N (Pool.port p)))
    | None => TypeError
    end).

(** [Pool.prototype._onconn] *)
Definition Pool__onconn (this conn : ref) : M unit :=
  upd_pool this (fun p => Pool_set_conns (Pool.conns p ++ [conn]) p);;
  Socket_on conn "close" (Pool_conn_close this conn);;
  c ← get_socket conn;
  let addr := to_str (Socket.remoteAddress c) +:+ ":" +:+ to_str (Socket.remotePort c) in
  peer ← Peer_new addr;
  Peer_onconnect peer conn;;
  timeout ← setTimeout (Pool_timeout conn) HANDSHAKE_TIMEOUT;
  p ← get_peer peer;
  wire ← nonnull (Peer.wire p);
  Wire_on wire "handshake" (Pool_onhandshake this peer conn timeout).

(** [Pool.prototype._onerror], for [err.code]. *)
Definition Pool__onerror (this : ref) (code : string) : M unit :=
  p ← get_pool this;
  if bool_decide (code = "EADDRINUSE") && bool_decide (Pool._retries p < 5)%nat then
    effect (Console "Address in use, retrying...");;
    _ ← setTimeout (Pool_retry this) 1000;
    mret tt
  else
    upd_pool this (Pool_set_listening false);;
    (* [this.swarms.forEach(...)]: [this.swarms] was created by [{}], and a
       plain object has no [forEach]; calling [undefined] throws before the
       function that emits 'error' on a swarm is ever used. *)
    TypeError.

(** *** Swarm *)

(** [new Swarm(infoHash, peerId, extensions)] *)
Definition Swarm_new (infoHash peerId : string) : M ref :=
  new_swarm (Swarm.mk infoHash peerId 0 0 0 [] [] [] false false).

(** [numQueued], [numPeers], [numConns] *)
Definition Swarm_numQueued (this : ref) : M nat :=
  s ← get_swarm this; mret (length (Swarm._queue s)).

Definition Swarm_numPeers (this : ref) : M nat :=
  s ← get_swarm this; mret (length (Swarm.wires s)).

Definition Swarm_numConns (this : ref) : M nat :=
  s ← get_swarm this;
  ps ← gets peers;
  mret (foldl Nat.add 0%nat
          (map (fun addr : string =>
                  match JS.get addr (Swarm._peers s) with
                  | Some peer =>
                      match ps !! peer with
                      | Some (Peer.mk _ (Some _) _ _ _) => 1%nat
                      | _ => 0%nat
                      end
                  | None => 0%nat
                  end)
               (JS.keys (Swarm._peers s)))).

(** [Swarm.prototype._onconn] *)
Definition Swarm__onconn (this peer : ref) : M unit :=
  p ← get_peer peer;
  conn ← nonnull (Peer.conn p);
  Socket_once conn "close" (Onconn_close this).

(** [Swarm.prototype._onwire] *)
Definition Swarm__onwire (this peer : ref) : M unit :=
  p ← get_peer peer;
  let conn := Peer.conn p in
  let wire := Peer.wire p in
  upd_peer peer (Peer_set_retries 0%nat);;
  wire ← nonnull wire;
  Wire_on wire "download" (Onwire_download this);;
  Wire_on wire "upload" (Onwire_upload this);;
  cleanup ← once;
  Wire_on wire "end" (Onwire_cleanup cleanup this wire conn);;
  Wire_on wire "close" (Onwire_cleanup cleanup this wire conn);;
  Wire_on wire "error" (Onwire_cleanup cleanup this wire conn);;
  Wire_on wire "finish" (Onwire_cleanup cleanup this wire conn);;
  upd_swarm this (fun s => Swarm_set_wires (Swarm.wires s ++ [wire]) s);;
  Swarm_emit this "wire" (VRef wire).

(** [Swarm.prototype._onincoming] *)
Definition Swarm__onincoming (this peer : ref) : M unit :=
  p ← get_peer peer;
  wire ← nonnull (Peer.wire p);
  x ← get_wire wire;
  upd_swarm this (fun s =>
    Swarm_set_peers (JS.set (to_str (Wire.remoteAddress x)) peer (Swarm._peers s)) s);;
  s ← get_swarm this;
  Wire_handshake wire (Swarm.infoHash s) (Swarm.peerId s);;
  Swarm__onconn this peer;;
  Swarm__onwire this peer.

(** [Swarm.prototype._remove] *)
Definition Swarm__remove (this : ref) (addr : string) : M unit :=
  s ← get_swarm this;
  match JS.get addr (Swarm._peers s) with
  | None => mret tt
  | Some peer =>
      upd_swarm this (fun s => Swarm_set_peers (JS.delete addr (Swarm._peers s)) s);;
      p ← get_peer peer;
      when (bool_decide (is_Some (Peer.node p)))
        (upd_swarm this (fun s =>
           Swarm_set_queue (JS.splice (JS.indexOf peer (Swarm._queue s)) 1 (Swarm._queue s)) s));;
      match Peer.timeout p with
      | Some t => clearTimeout t
      | None => mret tt
      end;;
      match Peer.wire p with
      | Some wire => Wire_destroy wire
      | None => mret tt
      end
  end.

(** [Swarm.prototype._drain] *)
Definition Swarm__drain (this : ref) : M unit :=
  numConns ← Swarm_numConns this;
  s ← get_swarm this;
  if bool_decide (MAX_SIZE <= numConns)%nat || Swarm._paused s then mret tt
  else
    match JS.shift (Swarm._queue s) with
    | (None, _) => mret tt
    | (Some peer, rest) =>
        upd_swarm this (Swarm_set_queue rest);;
        p ← get_peer peer;
        match Peer.timeout p with
        | Some t => clearTimeout t;; upd_peer peer (Peer_set_timeout None)
        | None => mret tt
        end;;
        let parts := JS.split ":" (Peer.addr p) in
        conn ← new_socket (Socket.mk None None false []);
        effect (NetConnect conn (parts !! 1%nat) (parts !! 0%nat));;
        effect (Console ("Connecting to " +:+ Peer.addr p));;
        timeout ← setTimeout (Drain_timeout conn) HANDSHAKE_TIMEOUT;
        Socket_on conn "connect" (Drain_onconnect this peer conn timeout);;
        Socket_on conn "error" (Drain_conn_error peer)
    end.

(** [Swarm.prototype.add] *)
Definition Swarm_add (this : ref) (addr : string) : M unit :=
  s ← get_swarm this;
  if Swarm._destroyed s || bool_decide (is_Some (JS.get addr (Swarm._peers s))) then mret tt
  else if negb (validAddr addr) then mret tt
  else
    peer ← Peer_new addr;
    upd_swarm this (fun s => Swarm_set_peers (JS.set addr peer (Swarm._peers s)) s);;
    upd_swarm this (fun s => Swarm_set_queue (Swarm._queue s ++ [peer]) s);;
    Swarm__drain this.

(** [Swarm.prototype.pause], [resume], [remove] *)
Definition Swarm_pause (this : ref) : M unit :=
  upd_swarm this (Swarm_set_paused true).

Definition Swarm_resume (this : ref) : M unit :=
  upd_swarm this (Swarm_set_paused false);;
  Swarm__drain this.

Definition Swarm_remove (this : ref) (addr : string) : M unit :=
  Swarm__remove this addr;;
  Swarm__drain this.

(** [onPort] of [Swarm.prototype.listen] *)
Definition Swarm_listen_onPort (this : ref) (err : option string) (port : N) : M unit :=
  match err with
  | Some e => Swarm_emit this "error" (VString e)
  | None => upd_swarm this (Swarm_set_port port);; Pool_add this
  end.

(** [Swarm.prototype.listen]; a missing port is [0]. *)
Definition Swarm_listen (this : ref) (port : N) : M unit :=
  if bool_decide (port = 0%N) then effect (PortfinderGetPort this)
  else Swarm_listen_onPort this None port.

(** [Swarm.prototype.destroy] *)
Definition Swarm_destroy (this : ref) : M unit :=
  upd_swarm this (Swarm_set_destroyed true);;
  s ← get_swarm this;
  for_each (JS.keys (Swarm._peers s)) (Swarm__remove this);;
  Pool_remove this;;
  nextTick (Destroy_close this).


(** *** The function expressions

    [call f arg] runs the body of [f]; [arg] is the first argument the event
    passes (the info-hash of a 'handshake' by its hex rendering, the byte
    count of 'download' and 'upload'). *)
Definition call (f : Closure) (arg : Value) : M unit :=
  match f with
  (* var destroy = once(function () { this.conn.destroy(); this.conn = null }.bind(this)) *)
  | Peer_conn_end destroy this =>
      first ← once_enter destroy;
      when first (
        p ← get_peer this;
        conn ← nonnull (Peer.conn p);
        Socket_destroy conn;;
        upd_peer this (Peer_set_conn None))
  | Peer_conn_close wire => Wire_end wire
  | Peer_wire_end this => upd_peer this (Peer_set_wire None)
  | Pool_conn_close this conn =>
      upd_pool this (fun p =>
        Pool_set_conns (JS.splice_from (JS.indexOf conn (Pool.conns p)) (Pool.conns p)) p)
  | Pool_timeout conn => Socket_destroy conn
  | Pool_onhandshake this peer conn timeout =>
      clearTimeout timeout;;
      p ← get_pool this;
      match arg with
      | VString infoHash =>
          match JS.get infoHash (Pool.swarms p) with
          | None => Socket_destroy conn
          | Some swarm => Swarm__onincoming swarm peer
          end
      | _ => TypeError
      end
  | Pool_retry this =>
      upd_pool this (fun p => Pool_set_retries (Pool._retries p + 1)%nat p);;
      effect (ServerClose this);;
      p ← get_pool this;
      effect (ServerListen this (Pool.port p))
  | AddSwarm_listening swarm => Swarm_emit swarm "listening" VUndefined
  | AddSwarm_error swarm =>
      s ← get_swarm swarm;
      Swarm_emit swarm "error"
        (VString ("Swarm listen error: There is already a swarm with infoHash "
                  +:+ Swarm.infoHash s +:+ " listening on port " +:+ pretty (Swarm.port s)))
  | Destroy_close swarm => Swarm_emit swarm "close" VUndefined
  | Drain_timeout conn => Socket_destroy conn
  | Drain_onhandshake this peer timeout =>
      clearTimeout timeout;;
      s ← get_swarm this;
      match arg with
      | VString infoHash =>
          if bool_decide (infoHash ≠ Swarm.infoHash s) then
            p ← get_peer peer;
            conn ← nonnull (Peer.conn p);
            Socket_destroy conn
          else Swarm__onwire this peer
      | _ => TypeError
      end
  | Drain_onconnect this peer conn timeout =>
      Peer_onconnect peer conn;;
      Swarm__onconn this peer;;
      p ← get_peer peer;
      wire ← nonnull (Peer.wire p);
      Wire_on wire "handshake" (Drain_onhandshake this peer timeout);;
      Wire_on wire "end" (Drain_wire_end this peer wire);;
      s ← get_swarm this;
      Wire_handshake wire (Swarm.infoHash s) (Swarm.peerId s)
  | Drain_wire_end this peer wire =>
      s ← get_swarm this;
      x ← get_wire wire;
      p ← get_peer peer;
      if Swarm._destroyed s || Wire.destroyed x
         || bool_decide (length RECONNECT_WAIT <= Peer.retries p)%nat
      then Swarm__remove this (Peer.addr p)
      else
        (* peer.timeout = setTimeout(readd, RECONNECT_WAIT[peer.retries++]) *)
        let wait := RECONNECT_WAIT !! Peer.retries p in
        upd_peer peer (Peer_set_retries (S (Peer.retries p)));;
        t ← setTimeout (Drain_readd this peer) (default 1 wait);
        upd_peer peer (Peer_set_timeout (Some t))
  | Drain_readd this peer =>
      upd_swarm this (fun s => Swarm_set_queue (Swarm._queue s ++ [peer]) s);;
      Swarm__drain this
  | Drain_conn_error peer =>
      p ← get_peer peer;
      effect (Console ("Failed to connect to " +:+ Peer.addr p))
  | Onconn_close this => Swarm__drain this
  | Onwire_download this =>
      match arg with
      | VNumber n =>
          upd_swarm this (fun s => Swarm_set_downloaded (Swarm.downloaded s + n) s);;
          Swarm_emit this "download" arg
      | _ => mret tt
      end
  | Onwire_upload this =>
      match arg with
      | VNumber n =>
          upd_swarm this (fun s => Swarm_set_uploaded (Swarm.uploaded s + n) s);;
          Swarm_emit this "upload" arg
      | _ => mret tt
      end
  (* var cleanup = once(function () { this.wires.splice(this.wires.indexOf(wire), 1); conn.destroy() }.bind(this)) *)
  | Onwire_cleanup cleanup this wire conn =>
      first ← once_enter cleanup;
      when first (
        upd_swarm this (fun s =>
          Swarm_set_wires (JS.splice (JS.indexOf wire (Swarm.wires s)) 1 (Swarm.wires s)) s);;
        conn ← nonnull conn;
        Socket_destroy conn)
  end.

(** *** The event loop *)

(** [emitter.emit(event, arg)]: the listeners registered for [event] when
    the emission starts are called in registration order; a [once] listener
    is unregistered just before it is called. *)
Fixpoint run_listeners (unregister : Listener -> M unit) (ls : list Listener)
    (arg : Value) : M unit :=
  match ls with
  | [] => mret tt
  | l :: r =>
      when (l_once l) (unregister l);;
      call (l_fn l) arg;;
      run_listeners unregister r arg
  end.

Definition Socket_emit (conn : ref) (ev : string) (arg : Value) : M unit :=
  c ← get_socket conn;
  run_listeners
    (fun l => upd_socket conn (fun c => Socket_set_listeners (remove_first l (Socket.listeners c)) c))
    (listening_to ev (Socket.listeners c)) arg.

Definition Wire_emit (wire : ref) (ev : string) (arg : Value) : M unit :=
  x ← get_wire wire;
  run_listeners
    (fun l => upd_wire wire (fun x => Wire_set_listeners (remove_first l (Wire.listeners x)) x))
    (listening_to ev (Wire.listeners x)) arg.

(** What can happen next: a call of the public interface, or something the
    runtime delivers. *)
Inductive Event :=
| New_Swarm (infoHash peerId : string)
| Call_add (swarm : ref) (addr : string)
| Call_remove (swarm : ref) (addr : string)
| Call_pause (swarm : ref)
| Call_resume (swarm : ref)
| Call_listen (swarm : ref) (port : N)
| Call_destroy (swarm : ref)
| Portfinder_answer (swarm : ref) (err : option string) (port : N)
| Server_listening (pool : ref)
| Server_connection (pool : ref) (remoteAddress remotePort : string)
| Server_error (pool : ref) (code : string)
| Socket_event (conn : ref) (ev : string)
| Wire_event (wire : ref) (ev : string) (arg : Value)
| Timer_fires (timer : ref)
| Next_tick.

(** An event on an object that does not exist does not happen. *)
Definition on_existing {A} (store : World -> list A) (r : ref) (m : M unit) : M unit :=
  fun w => if bool_decide (r < length (store w))%nat then m w else (w, Normal tt).

Definition handle (e : Event) : M unit :=
  match e with
  | New_Swarm infoHash peerId => _ ← Swarm_new infoHash peerId; mret tt
  | Call_add swarm addr => on_existing swarms swarm (Swarm_add swarm addr)
  | Call_remove swarm addr => on_existing swarms swarm (Swarm_remove swarm addr)
  | Call_pause swarm => on_existing swarms swarm (Swarm_pause swarm)
  | Call_resume swarm => on_existing swarms swarm (Swarm_resume swarm)
  | Call_listen swarm port => on_existing swarms swarm (Swarm_listen swarm port)
  | Call_destroy swarm => on_existing swarms swarm (Swarm_destroy swarm)
  | Portfinder_answer swarm err port =>
      on_existing swarms swarm (Swarm_listen_onPort swarm err port)
  | Server_listening pool => on_existing pools pool (Pool__onlistening pool)
  | Server_connection pool remoteAddress remotePort =>
      on_existing pools pool (
        conn ← new_socket (Socket.mk (Some remoteAddress) (Some remotePort) false []);
        Pool__onconn pool conn)
  | Server_error pool code => on_existing pools pool (Pool__onerror pool code)
  | Socket_event conn ev => on_existing sockets conn (Socket_emit conn ev VUndefined)
  | Wire_event wire ev arg => on_existing wireobjs wire (Wire_emit wire ev arg)
  | Timer_fires timer =>
      ts ← gets timers;
      match ts !! timer with
      | Some (mkTimer _ f true) => fired timer;; call f VUndefined
      | _ => mret tt
      end
  | Next_tick =>
      q ← gets ticks;
      match q with
      | f :: rest => modify (with_ticks rest);; call f VUndefined
      | [] => mret tt
      end
  end.

(** One turn of the event loop. An exception that nobody catches ends the
    process. *)
Definition step (e : Event) (w : World) : World :=
  match crashed w with
  | Some _ => w
  | None =>
      match handle e w with
      | (w', Normal _) => w'
      | (w', Throw msg) => with_crashed (Some msg) w'
      end
  end.

Definition run (es : list Event) (w : World) : World :=
  foldl (fun w e => step e w) w es.

Inductive reachable : World -> Prop :=
| reachable_init : reachable init
| reachable_step w e : reachable w -> reachable (step e w).

(** Every peer of the store has [retries <= RECONNECT_WAIT.length]. *)
Definition retries_bounded (w : World) : Prop :=
  Forall (fun p => (Peer.retries p <= length RECONNECT_WAIT)%nat) (peers w).

(** The dials: calls of [net.connect] so far. *)
Definition is_dial (e : Effect) : bool :=
  match e with NetConnect _ _ _ => true | _ => false end.
Definition dials (w : World) : nat := length (List.filter is_dial (log w)).


(** The peers that a closure will hand to a swarm exist. *)
Definition closure_wf (np : nat) (f : Closure) : Prop :=
  match f with
  | Pool_onhandshake _ peer _ _ => (peer < np)%nat
  | _ => True
  end.

Definition listeners_wf (np : nat) (ls : list Listener) : Prop :=
  Forall (fun l => closure_wf np (l_fn l)) ls.

(** Every peer recorded by a swarm or carried by a closure is below [np],
    every pool of the registry below [mp]. *)
Record bounded (np mp : nat) (w : World) : Prop := {
  b_peers : Forall (fun s => Forall (fun kv => (kv.2 < np)%nat) (Swarm._peers s)) (swarms w);
  b_reg : Forall (fun kv => (kv.2 < mp)%nat) (Pool_pools w);
  b_wires : Forall (fun x => listeners_wf np (Wire.listeners x)) (wireobjs w);
  b_sockets : Forall (fun c => listeners_wf np (Socket.listeners c)) (sockets w);
  b_timers : Forall (fun t => closure_wf np (callback t)) (timers w);
  b_ticks : Forall (closure_wf np) (ticks w) }.

(** The store is well formed, and has at least [n] peers and [m] pools. *)
Definition wfge (n m : nat) (w : World) : Prop :=
  bounded (length (peers w)) (length (pools w)) w
  /\ (n <= length (peers w))%nat /\ (m <= length (pools w))%nat.


End Index.

(* ===================================================================== *)
(** ** The peer module *)
(* ===================================================================== *)

Module PeerJs.
Import Eff.

Definition HANDSHAKE_TIMEOUT : Z := 25000.

(** The function expressions of the module. *)
Inductive Closure :=
| WebRTC_connect (peer : ref)      (* function () { peer.onConnect() } *)
| WebRTC_error (peer : ref)        (* function (err) { peer.destroy(err) } *)
| OnConnect_destroy (self : ref)   (* function destroy (err) { self.destroy(err) } *)
| OnConnect_handshake (self : ref) (* function (infoHash) { self.onHandshake(infoHash) } *)
| Timeout_destroy (self : ref)     (* function () { self.destroy() } *)
| OnHandshake_download (self : ref)
| OnHandshake_upload (self : ref).

Global Instance Closure_eq_dec : EqDecision Closure.
Proof. solve_decision. Defined.

(** The transport: a [net.Socket] or a WebRTC connection. *)
Module Conn.
Record t := mk {
  id : string;
  connected : bool;
  remoteAddress : option string;
  remotePort : option string;
  destroyed : bool;
  listeners : list (Listener Closure) }.
End Conn.

Module Wire.
Record t := mk {
  destroyed : bool;
  listeners : list (Listener Closure) }.
End Wire.

Module Peer.
Record t := mk {
  id : string;
  addr : option string;
  conn : option ref;
  swarm : option ref;
  wire : option ref;
  destroyed : bool;
  timeout : option ref;
  retries : nat;
  sentHandshake : bool }.
End Peer.

Record Timer := mkTimer { delay : Z; callback : Closure; pending : bool; unrefd : bool }.

Inductive Effect :=
| Emit_wire (swarm wire : ref) (addr : option string)   (* swarm.emit('wire', wire, addr) *)
| Emit_download (swarm : ref) (n : Z)
| Emit_upload (swarm : ref) (n : Z)
| WireHandshake (wire : ref) (infoHash peerId : string).

(** Truthiness of a string, [null] or [undefined]. *)
Definition truthy (v : option string) : bool :=
  match v with
  | Some s => negb (bool_decide (s = ""))
  | None => false
  end.

Section WithSwarm.

(** The swarm that owns the peers is defined by the module that requires
    this one. What the peer module reads and writes of it are the fields of
    [Swarm.t]; whatever else a swarm holds is [rest]. *)
Variable R : Type.

Record Swarm := mkSwarm {
  destroyed : bool;
  infoHash : string;
  infoHashHex : string;
  peerId : string;
  downloaded : Z;
  uploaded : Z;
  wires : list ref;
  rest : R }.

(** [swarm.removePeer(id)] and [swarm._drain()], methods of that module,
    as functions on the swarm. *)
Variable removePeer : string -> Swarm -> Swarm.
Variable _drain : Swarm -> Swarm.

Record World := mkWorld {
  peers : list Peer.t;
  conns : list Conn.t;
  wireobjs : list Wire.t;
  timers : list Timer;
  swarms : list Swarm;
  log : list Effect }.

Definition with_peers x w := mkWorld x (conns w) (wireobjs w) (timers w) (swarms w) (log w).
Definition with_conns x w := mkWorld (peers w) x (wireobjs w) (timers w) (swarms w) (log w).
Definition with_wireobjs x w := mkWorld (peers w) (conns w) x (timers w) (swarms w) (log w).
Definition with_timers x w := mkWorld (peers w) (conns w) (wireobjs w) x (swarms w) (log w).
Definition with_swarms x w := mkWorld (peers w) (conns w) (wireobjs w) (timers w) x (log w).
Definition with_log x w := mkWorld (peers w) (conns w) (wireobjs w) (timers w) (swarms w) x.

#[local] Abbreviation M := (Eff.M World).

Definition get_peer : ref -> M Peer.t := deref peers.
Definition get_conn : ref -> M Conn.t := deref conns.
Definition get_swarm : ref -> M Swarm := deref swarms.

Definition upd_peer (r : ref) (f : Peer.t -> Peer.t) : M unit :=
  modify (fun w => with_peers (alter f r (peers w)) w).
Definition upd_conn (r : ref) (f : Conn.t -> Conn.t) : M unit :=
  modify (fun w => with_conns (alter f r (conns w)) w).
Definition upd_wire (r : ref) (f : Wire.t -> Wire.t) : M unit :=
  modify (fun w => with_wireobjs (alter f r (wireobjs w)) w).
Definition upd_swarm (r : ref) (f : Swarm -> Swarm) : M unit :=
  modify (fun w => with_swarms (alter f r (swarms w)) w).

Definition effect (e : Effect) : M unit := modify (fun w => with_log (log w ++ [e]) w).

Definition Peer_set_addr v (p : Peer.t) := Peer.mk (Peer.id p) v (Peer.conn p) (Peer.swarm p) (Peer.wire p) (Peer.destroyed p) (Peer.timeout p) (Peer.retries p) (Peer.sentHandshake p).
Definition Peer_set_conn v (p : Peer.t) := Peer.mk (Peer.id p) (Peer.addr p) v (Peer.swarm p) (Peer.wire p) (Peer.destroyed p) (Peer.timeout p) (Peer.retries p) (Peer.sentHandshake p).
Definition Peer_set_swarm v (p : Peer.t) := Peer.mk (Peer.id p) (Peer.addr p) (Peer.conn p) v (Peer.wire p) (Peer.destroyed p) (Peer.timeout p) (Peer.retries p) (Peer.sentHandshake p).
Definition Peer_set_wire v (p : Peer.t) := Peer.mk (Peer.id p) (Peer.addr p) (Peer.conn p) (Peer.swarm p) v (Peer.destroyed p) (Peer.timeout p) (Peer.retries p) (Peer.sentHandshake p).
Definition Peer_set_destroyed v (p : Peer.t) := Peer.mk (Peer.id p) (Peer.addr p) (Peer.conn p) (Peer.swarm p) (Peer.wire p) v (Peer.timeout p) (Peer.retries p) (Peer.sentHandshake p).
Definition Peer_set_timeout v (p : Peer.t) := Peer.mk (Peer.id p) (Peer.addr p) (Peer.conn p) (Peer.swarm p) (Peer.wire p) (Peer.destroyed p) v (Peer.retries p) (Peer.sentHandshake p).
Definition Peer_set_retries v (p : Peer.t) := Peer.mk (Peer.id p) (Peer.addr p) (Peer.conn p) (Peer.swarm p) (Peer.wire p) (Peer.destroyed p) (Peer.timeout p) v (Peer.sentHandshake p).
Definition Peer_set_sentHandshake v (p : Peer.t) := Peer.mk (Peer.id p) (Peer.addr p) (Peer.conn p) (Peer.swarm p) (Peer.wire p) (Peer.destroyed p) (Peer.timeout p) (Peer.retries p) v.

Definition Swarm_set_downloaded v (s : Swarm) := mkSwarm (destroyed s) (infoHash s) (infoHashHex s) (peerId s) v (uploaded s) (wires s) (rest s).
Definition Swarm_set_uploaded v (s : Swarm) := mkSwarm (destroyed s) (infoHash s) (infoHashHex s) (peerId s) (downloaded s) v (wires s) (rest s).
Definition Swarm_set_wires v (s : Swarm) := mkSwarm (destroyed s) (infoHash s) (infoHashHex s) (peerId s) (downloaded s) (uploaded s) v (rest s).

(** Methods of the external objects. *)
Definition Conn_once (c : ref) (ev : string) (f : Closure) : M unit :=
  upd_conn c (fun x => Conn.mk (Conn.id x) (Conn.connected x) (Conn.remoteAddress x)
                         (Conn.remotePort x) (Conn.destroyed x)
                         (Conn.listeners x ++ [mkListener ev true f])).
Definition Conn_destroy (c : ref) : M unit :=
  upd_conn c (fun x => Conn.mk (Conn.id x) (Conn.connected x) (Conn.remoteAddress x)
                         (Conn.remotePort x) true (Conn.listeners x)).
Definition Wire_on (r : ref) (ev : string) (f : Closure) : M unit :=
  upd_wire r (fun x => Wire.mk (Wire.destroyed x) (Wire.listeners x ++ [mkListener ev false f])).
Definition Wire_once (r : ref) (ev : string) (f : Closure) : M unit :=
  upd_wire r (fun x => Wire.mk (Wire.destroyed x) (Wire.listeners x ++ [mkListener ev true f])).
Definition Wire_destroy (r : ref) : M unit :=
  upd_wire r (fun x => Wire.mk true (Wire.listeners x)).
Definition new_wire : M ref := fun w =>
  (with_wireobjs (wireobjs w ++ [Wire.mk false []]) w, Normal (length (wireobjs w))).

Definition global_setTimeout (f : Closure) (ms : Z) : M ref := fun w =>
  (with_timers (timers w ++ [mkTimer ms f true false]) w, Normal (length (timers w))).
Definition global_clearTimeout (t : ref) : M unit :=
  modify (fun w => with_timers
    (alter (fun x => mkTimer (delay x) (callback x) false (unrefd x)) t (timers w)) w).
Definition unref (t : ref) : M unit :=
  modify (fun w => with_timers
    (alter (fun x => mkTimer (delay x) (callback x) (pending x) true) t (timers w)) w).

(** [new Peer(id)] (the calls of [debug] only print). *)
Definition Peer_new (id : string) : M ref := fun w =>
  (with_peers (peers w ++ [Peer.mk id None None None None false None 0 false]) w,
   Normal (length (peers w))).

(** [Peer.prototype.handshake] *)
Definition handshake (self : ref) : M unit :=
  p ← get_peer self;
  wire ← nonnull (Peer.wire p);
  sw ← nonnull (Peer.swarm p);
  s ← get_swarm sw;
  effect (WireHandshake wire (infoHash s) (peerId s));;
  upd_peer self (Peer_set_sentHandshake true).

(** [Peer.prototype.setTimeout] *)
Definition setTimeout (self : ref) : M unit :=
  p ← get_peer self;
  match Peer.timeout p with
  | Some t => global_clearTimeout t
  | None => mret tt
  end;;
  t ← global_setTimeout (Timeout_destroy self) HANDSHAKE_TIMEOUT;
  upd_peer self (Peer_set_timeout (Some t));;
  unref t.

(** [Peer.prototype.clearTimeout] *)
Definition clearTimeout (self : ref) : M unit :=
  p ← get_peer self;
  match Peer.timeout p with
  | Some t => global_clearTimeout t
  | None => mret tt
  end;;
  upd_peer self (Peer_set_timeout None).

(** [Peer.prototype.destroy] *)
Definition destroy (self : ref) : M unit :=
  p ← get_peer self;
  if Peer.destroyed p then mret tt
  else
    upd_peer self (Peer_set_destroyed true);;
    match Peer.conn p with
    | Some conn => Conn_destroy conn
    | None => mret tt
    end;;
    (* self.swarm.wires.splice(self.swarm.wires.indexOf(self.wire), 1) *)
    sw ← nonnull (Peer.swarm p);
    upd_swarm sw (fun s =>
      let i := match Peer.wire p with
               | Some wire => JS.indexOf wire (wires s)
               | None => -1
               end in
      Swarm_set_wires (JS.splice i 1 (wires s)) s);;
    match Peer.wire p with
    | Some wire => Wire_destroy wire
    | None => mret tt
    end;;
    match Peer.swarm p with
    | Some sw =>
        upd_swarm sw (removePeer (Peer.id p));;
        upd_swarm sw _drain
    | None => mret tt
    end;;
    match Peer.timeout p with
    | Some t => global_clearTimeout t
    | None => mret tt
    end;;
    upd_peer self (Peer_set_timeout None);;
    upd_peer self (Peer_set_conn None);;
    upd_peer self (Peer_set_swarm None);;
    upd_peer self (Peer_set_wire None).

(** [Peer.prototype.onConnect] *)
Definition onConnect (self : ref) : M unit :=
  p ← get_peer self;
  conn ← nonnull (Peer.conn p);
  Conn_once conn "end" (OnConnect_destroy self);;
  Conn_once conn "close" (OnConnect_destroy self);;
  Conn_once conn "finish" (OnConnect_destroy self);;
  Conn_once conn "error" (OnConnect_destroy self);;
  wire ← new_wire;
  upd_peer self (Peer_set_wire (Some wire));;
  Wire_once wire "end" (OnConnect_destroy self);;
  Wire_once wire "finish" (OnConnect_destroy self);;
  Wire_once wire "error" (OnConnect_destroy self);;
  Wire_once wire "handshake" (OnConnect_handshake self);;
  setTimeout self;;
  when (bool_decide (is_Some (Peer.swarm p))) (handshake self).

(** [Peer.prototype.onHandshake], for the hex rendering of [infoHash]. *)
Definition onHandshake (self : ref) (infoHashHex' : string) : M unit :=
  p ← get_peer self;
  match Peer.swarm p with
  | None => mret tt
  | Some sw =>
      s ← get_swarm sw;
      if destroyed s then destroy self
      else if bool_decide (infoHashHex' ≠ infoHashHex s) then destroy self
      else
        clearTimeout self;;
        upd_peer self (Peer_set_retries 0%nat);;
        wire ← nonnull (Peer.wire p);
        Wire_on wire "download" (OnHandshake_download self);;
        Wire_on wire "upload" (OnHandshake_upload self);;
        when (negb (Peer.sentHandshake p)) (handshake self);;
        upd_swarm sw (fun s => Swarm_set_wires (wires s ++ [wire]) s);;
        addr ← (if truthy (Peer.addr p) then mret (Peer.addr p)
                else
                  conn ← nonnull (Peer.conn p);
                  x ← get_conn conn;
                  if truthy (Conn.remoteAddress x)
                  then mret (Some (to_str (Conn.remoteAddress x) +:+ ":"
                                   +:+ to_str (Conn.remotePort x)))
                  else mret (Peer.addr p));
        effect (Emit_wire sw wire addr)
  end.

(** [exports.createWebRTCPeer] *)
Definition createWebRTCPeer (conn swarm : ref) : M ref :=
  c ← get_conn conn;
  peer ← Peer_new (Conn.id c);
  upd_peer peer (Peer_set_conn (Some conn));;
  upd_peer peer (Peer_set_swarm (Some swarm));;
  (if Conn.connected c then onConnect peer
   else
     Conn_once conn "connect" (WebRTC_connect peer);;
     setTimeout peer;;
     Conn_once conn "error" (WebRTC_error peer));;
  mret peer.

(** [exports.createIncomingTCPPeer] *)
Definition createIncomingTCPPeer (conn : ref) : M ref :=
  c ← get_conn conn;
  let addr := to_str (Conn.remoteAddress c) +:+ ":" +:+ to_str (Conn.remotePort c) in
  peer ← Peer_new addr;
  upd_peer peer (Peer_set_conn (Some conn));;
  upd_peer peer (Peer_set_addr (Some addr));;
  onConnect peer;;
  mret peer.

(** [exports.createOutgoingTCPPeer] *)
Definition createOutgoingTCPPeer (addr : string) (swarm : ref) : M ref :=
  peer ← Peer_new addr;
  upd_peer peer (Peer_set_swarm (Some swarm));;
  upd_peer peer (Peer_set_addr (Some addr));;
  mret peer.

(** The bodies of the function expressions; [arg] is the info-hash (hex) of a
    'handshake' and [n] the byte count of 'download' and 'upload'. *)
Definition call (f : Closure) (arg : string) (n : Z) : M unit :=
  match f with
  | WebRTC_connect peer => onConnect peer
  | WebRTC_error peer => destroy peer
  | OnConnect_destroy self => destroy self
  | OnConnect_handshake self => onHandshake self arg
  | Timeout_destroy self => destroy self
  | OnHandshake_download self =>
      p ← get_peer self;
      sw ← nonnull (Peer.swarm p);
      upd_swarm sw (fun s => Swarm_set_downloaded (downloaded s + n) s);;
      effect (Emit_download sw n)
  | OnHandshake_upload self =>
      p ← get_peer self;
      sw ← nonnull (Peer.swarm p);
      upd_swarm sw (fun s => Swarm_set_uploaded (uploaded s + n) s);;
      effect (Emit_upload sw n)
  end.

(** [n] successive calls of [peer.destroy()], each one a call of its own
    (what one of them throws does not prevent the next). *)
Fixpoint destroy_times (n : nat) (self : ref) (w : World) : World :=
  match n with
  | O => w
  | S k => destroy_times k self (exec (destroy self) w)
  end.

End WithSwarm.

End PeerJs.

(* ===================================================================== *)
(** ** Scenarios and statement-level definitions *)
(* ===================================================================== *)

Section Scenarios.
Import Eff Index.
Local Open Scope nat_scope.

(** An info-hash (by its hex rendering) and two peer ids. *)
Definition torrent : string := "d2474e86c95b19b8bcfdb92bc12c9d44667cfa36".
Definition us : string := "-WW0001-000000000001".
Definition them : string := "-WW0001-000000000002".

(** A swarm and nothing else. *)
Definition one_swarm : list Event := [New_Swarm torrent us].

(** The first outbound dial. *)
Definition first_dial : list Event :=
  [New_Swarm torrent us; Call_add 0 "10.0.0.7:6881"].

(** The dialled peer has connected: its wire exists. *)
Definition connected : list Event :=
  [New_Swarm torrent us; Call_add 0 "10.0.0.7:6881"; Socket_event 0 "connect"].

(** Two peers are added while the swarm is paused; [resume] dials the
    first, the second stays on the queue. There is a socket (of the first
    dial) and the swarm listens on a port. *)
Definition one_queued : list Event :=
  [New_Swarm torrent us; Call_listen 0 6881%N; Call_pause 0;
   Call_add 0 "10.0.0.7:6881"; Call_add 0 "10.0.0.8:6881"; Call_resume 0].

(** A peer is added while the swarm is paused: it waits on the queue. *)
Definition queued_peer : list Event :=
  [New_Swarm torrent us; Call_pause 0; Call_add 0 "10.0.0.7:6881"].



(** The [k]-th incoming connection on the pool of the swarm, whose remote
    end sends the handshake of the swarm. *)
Definition incoming (infoHash : string) (k : nat) : list Event :=
  [ Server_connection 0 "10.0.0.1" (pretty (N.of_nat (2000 + k)));
    Wire_event k "handshake" (VString infoHash) ].

Definition listening_pool : list Event :=
  [New_Swarm torrent us; Call_listen 0 6881%N; Server_listening 0].

Definition crowd : list Event :=
  listening_pool ++ concat (map (incoming torrent) (seq 0 101)).

Definition destroy_twice : list Event :=
  [New_Swarm torrent us; Call_destroy 0; Next_tick; Call_destroy 0; Next_tick].

(** Two swarms of the same info-hash; the first one listens on 6881. *)
Definition two_swarms : list Event :=
  [New_Swarm torrent us; New_Swarm torrent them; Call_listen 0 6881%N;
   Server_listening 0].

(** The listener fails with EADDRINUSE and the retry timer fires. *)
Definition bind_retry (k : nat) : list Event :=
  [Server_error 0 "EADDRINUSE"; Timer_fires k].

Definition retries_exhausted : list Event :=
  [New_Swarm torrent us; Call_listen 0 6881%N] ++ concat (map bind_retry (seq 0 5)).

Definition is_emit (e : Effect) : bool :=
  match e with Emit _ _ _ => true | _ => false end.

(** The validation of addresses as the specification words it: the text
    after the colon is parsed as a decimal integer [p], and the address is
    accepted iff [0 < p < 65535]. *)
Definition decimal_integer (s : string) : option Z :=
  match JS.take_digits 10 (String.list_ascii_of_string s) with
  | (d :: ds, []) => Some (JS.digits_value 10 (d :: ds))
  | _ => None
  end.

Definition is_decimal_digit (c : ascii) : Prop := (48 <= JS.code c <= 57)%Z.

Definition validAddr_spec (addr : string) : bool :=
  match JS.split ":" addr !! 1 with
  | Some p =>
      match decimal_integer p with
      | Some v => (0 <? v)%Z && (v <? 65535)%Z
      | None => false
      end
  | None => false
  end.


(** A world of the peer module with one outgoing peer owned by a swarm, and
    one with a connection that the server just accepted. The swarm has no
    state beyond what the peer module uses, and its methods do nothing. *)
Definition lone_peer : PeerJs.World unit :=
  PeerJs.mkWorld unit
    [PeerJs.Peer.mk "10.0.0.9:51413" (Some "10.0.0.9:51413") None (Some 0) None false None 0 false]
    [] [] [] [PeerJs.mkSwarm unit false torrent torrent us 0 0 [] tt] [].

Definition accepted : PeerJs.World unit :=
  PeerJs.mkWorld unit []
    [PeerJs.Conn.mk "" true (Some "10.0.0.9") (Some "51413") false []] [] [] [] [].

Definition no_removePeer (id : string) (s : PeerJs.Swarm unit) : PeerJs.Swarm unit := s.
Definition no_drain (s : PeerJs.Swarm unit) : PeerJs.Swarm unit := s.

(** The peer [self] of the store has its [destroyed] flag set. *)
Definition is_destroyed {R} (self : ref) (w : PeerJs.World R) : Prop :=
  exists p, PeerJs.peers R w !! self = Some p /\ PeerJs.Peer.destroyed p = true.

End Scenarios.

(* ===================================================================== *)
(** ** Further statement-level definitions *)
(* ===================================================================== *)

Section Statements.
Import Eff Index.
Local Open Scope nat_scope.

(** The text [s] holds no colon. *)
Definition colon_free (s : string) : Prop := ":"%char ∉ String.list_ascii_of_string s.

(** The swarm [this] exists and satisfies [Q]. *)
Definition swarm_has (this : ref) (Q : Swarm.t -> Prop) (w : World) : Prop :=
  exists s, swarms w !! this = Some s /\ Q s.

(** The number that the getter [numConns] computes from [_peers] and the
    peers of the store. *)
Definition numConns_of (s : Swarm.t) (ps : list Peer.t) : nat :=
  foldl Nat.add 0
    (map (fun addr : string =>
            match JS.get addr (Swarm._peers s) with
            | Some peer =>
                match ps !! peer with
                | Some (Peer.mk _ (Some _) _ _ _) => 1
                | _ => 0
                end
            | None => 0
            end)
         (JS.keys (Swarm._peers s))).

(** The peer [peer] of the store holds a connection ([peer.conn] is set). *)
Definition has_conn (ps : list Peer.t) (peer : ref) : bool :=
  match ps !! peer with
  | Some p => bool_decide (is_Some (Peer.conn p))
  | None => false
  end.


(** The dictionaries of the store hold each key once, as objects do. *)
Record keys_unique (w : World) : Prop := {
  ku_peers : Forall (fun s => NoDup (JS.keys (Swarm._peers s))) (swarms w);
  ku_swarms : Forall (fun p => NoDup (JS.keys (Pool.swarms p))) (pools w);
  ku_reg : NoDup (JS.keys (Pool_pools w)) }.

(** A computation that leaves the [called] flags of [once] alone. *)
Definition keeps_onces {A} (m : M A) : Prop := forall w, onces (m w).1 = onces w.

(** A second info-hash. *)
Definition other_torrent : string := "9e4ff1a5b0c6de3a7c1a2b6d1f0e8c7b6a5d4c3b".


(** A destroyed swarm is asked to resume, to listen and to add a peer. *)
Definition destroyed_then_busy : list Event :=
  [Call_resume 0; Call_listen 0 6881%N; Server_listening 0; Call_add 0 "10.0.0.9:6881"].




(** The second swarm of [two_swarms] asked for the port of the first and was
    rejected. *)
Definition duplicate_rejected : list Event := two_swarms ++ [Call_listen 1 6881%N].

(** A listening pool that has accepted three connections. *)
Definition three_conns : list Event :=
  listening_pool ++ [Server_connection 0 "10.0.0.1" "2000";
                     Server_connection 0 "10.0.0.2" "2000";
                     Server_connection 0 "10.0.0.3" "2000"].

(** A swarm has asked for port 6881; the server has not answered yet. *)
Definition bound_pool : list Event := [New_Swarm torrent us; Call_listen 0 6881%N].

(** The dialled peer has completed its handshake and lost its connection;
    the timer of its next dial is armed. *)
Definition awaiting_redial : list Event :=
  first_dial ++ [Socket_event 0 "connect"; Wire_event 0 "handshake" (VString torrent);
                 Socket_event 0 "end"; Socket_event 0 "close"; Wire_event 0 "end" VUndefined].

(** The first peer of [one_queued] has connected; the second one still waits
    on the queue. *)
Definition queued_behind_conn : list Event := one_queued ++ [Socket_event 0 "connect"].

(** Some later activity of a swarm. *)
Definition busy : list Event :=
  [Call_listen 0 6881%N; Call_add 0 "10.0.0.7:6881"; Socket_event 0 "connect";
   Wire_event 0 "handshake" (VString torrent); Wire_event 0 "download" (VNumber 16384);
   Call_pause 0; Call_destroy 0; Next_tick].

End Statements.

Section PeerStatements.
Import Eff PeerJs.
Context {R : Type}.

(** The position that [destroy] hands to [splice]:
    [self.swarm.wires.indexOf(self.wire)]. *)
Definition wire_index (wire : option ref) (ws : list ref) : Z :=
  match wire with
  | Some x => JS.indexOf x ws
  | None => -1
  end.

(** The connection object of a peer, if it has one. *)
Definition conn_of (p : Peer.t) (w : World R) : option Conn.t :=
  match Peer.conn p with
  | Some conn => conns R w !! conn
  | None => None
  end.

(** The address that [onHandshake] reports with the wire: [self.addr], or
    else the remote address and port of the connection. *)
Definition wire_addr (p : Peer.t) (c : option Conn.t) : option string :=
  if truthy (Peer.addr p) then Peer.addr p
  else match c with
       | Some x => if truthy (Conn.remoteAddress x)
                   then Some (to_str (Conn.remoteAddress x) +:+ ":" +:+ to_str (Conn.remotePort x))
                   else Peer.addr p
       | None => Peer.addr p
       end.

(** The timers after [clearTimeout(t)] for the timer a peer holds, if any. *)
Definition timers_without (t : option ref) (ts : list Timer) : list Timer :=
  match t with
  | Some t => alter (fun x => mkTimer (delay x) (callback x) false (unrefd x)) t ts
  | None => ts
  end.

(** The timer [t] of the store was cancelled. *)
Definition cancelled (t : ref) (w : World R) : Prop :=
  pending <$> timers R w !! t = Some false.

End PeerStatements.

Section PeerScenarios.

(** An outgoing peer of a swarm whose connection has just been opened. *)
Definition connecting_peer : PeerJs.World unit :=
  PeerJs.mkWorld unit
    [PeerJs.Peer.mk "10.0.0.9:51413" (Some "10.0.0.9:51413") (Some 0%nat) (Some 0%nat) None
       false None 0 false]
    [PeerJs.Conn.mk "" true (Some "10.0.0.9") (Some "51413") false []] [] []
    [PeerJs.mkSwarm unit false torrent torrent us 0 0 [] tt] [].

(** A swarm with the wire of one peer, and a second peer of the swarm that
    has not completed its handshake: it has no wire of its own. *)
Definition unshaken_peer : PeerJs.World unit :=
  PeerJs.mkWorld unit
    [PeerJs.Peer.mk "10.0.0.9:51413" (Some "10.0.0.9:51413") None (Some 0%nat) None
       false None 0 false]
    [] [PeerJs.Wire.mk false []] []
    [PeerJs.mkSwarm unit false torrent torrent us 0 0 [0%nat] tt] [].

End PeerScenarios.

(* ===================================================================== *)
(** ** Symbolic execution *)
(* ===================================================================== *)

Section Basics.
Import Eff.

Lemma bind_normal {W A B} (m : Eff.M W A) (k : A -> Eff.M W B) w w' a :
  m w = (w', Normal a) -> (m ≫= k) w = k a w'.
Proof. intros H. unfold mbind, M_bind. rewrite H. reflexivity. Qed.

Lemma deref_Some {W A} (store : W -> list A) r w x :
  store w !! r = Some x -> deref store r w = (w, Normal x).
Proof. intros H. unfold deref. rewrite H. reflexivity. Qed.

Lemma lookup_snoc_new {A} (l : list A) (x : A) : (l ++ [x]) !! length l = Some x.
Proof. rewrite lookup_app_r by lia. rewrite Nat.sub_diag. reflexivity. Qed.

Lemma lookup_snoc_old {A} (l : list A) (x y : A) i :
  l !! i = Some y -> (l ++ [x]) !! i = Some y.
Proof. intros H. rewrite lookup_app_l by (eapply lookup_lt_Some, H). exact H. Qed.

Lemma alter_lookup_insert {A} (f : A -> A) (l : list A) i x :
  l !! i = Some x -> alter f i l = <[i := f x]> l.
Proof.
  revert i. induction l as [|y l IH]; intros [|i] H; simpl in *; try discriminate.
  - injection H as ->. reflexivity.
  - f_equal. apply IH, H.
Qed.


(** Property lists. *)
Lemma get_delete `{EqDecision K} {V} (k : K) (o : JS.obj K V) :
  JS.get k (JS.delete k o) = None.
Proof.
  induction o as [|[k' v] o IH]; [reflexivity|].
  unfold JS.delete in *. rewrite filter_cons. simpl.
  destruct (decide (k' <> k)) as [Hne|Heq]; simpl.
  - destruct (decide (k' = k)); [contradiction | exact IH].
  - exact IH.
Qed.


Lemma set_absent `{EqDecision K} {V} (k : K) (v : V) (o : JS.obj K V) :
  JS.get k o = None -> JS.set k v o = o ++ [(k, v)].
Proof.
  induction o as [|[k' v'] o IH]; simpl; [reflexivity|].
  destruct (decide (k' = k)); [discriminate|]. intros H. f_equal. apply IH, H.
Qed.


End Basics.

Ltac run_prims :=
  unfold Eff.exec, Index.get_swarm, Index.get_peer, Index.get_socket, Index.get_wire,
    Index.get_pool, Eff.when, Eff.nonnull, Eff.TypeError, Eff.throw,
    Index.effect, Index.setTimeout, Index.clearTimeout, Index.nextTick, Index.once,
    Index.once_enter, Eff.gets,
    Index.Socket_on, Index.Socket_once, Index.Socket_destroy, Index.Wire_on,
    Index.Wire_once, Index.Wire_destroy, Index.Wire_end,
    Index.Wire_handshake, Index.Swarm_emit, Index.new_peer, Index.new_socket,
    Index.new_wire, Index.new_swarm, Index.new_pool,
    Index.upd_peer, Index.upd_socket, Index.upd_wire, Index.upd_swarm, Index.upd_pool,
    Eff.modify, Eff.deref, mbind, Eff.M_bind, mret, Eff.M_ret in *.

Ltac fields :=
  cbn [Index.peers Index.sockets Index.wireobjs Index.timers Index.onces Index.swarms
       Index.pools Index.Pool_pools Index.ticks Index.log Index.crashed
       Index.with_peers Index.with_sockets Index.with_wireobjs Index.with_timers
       Index.with_onces Index.with_swarms Index.with_pools
       Index.with_Pool_pools Index.with_ticks Index.with_log Index.with_crashed fst snd] in *.

Ltac unfold_prims :=
  unfold Index.Socket_on, Index.Socket_once, Index.Socket_destroy, Index.Wire_on,
    Index.Wire_once, Index.Wire_destroy, Index.Wire_end, Index.Wire_handshake,
    Index.Swarm_emit, Index.get_peer, Index.get_socket, Index.get_wire, Index.get_swarm,
    Index.get_pool, Index.Peer_new.

Ltac sym_step :=
  first
    [ progress fields
    | rewrite list_lookup_alter_eq
    | rewrite lookup_snoc_new
    | erewrite lookup_snoc_old by eassumption
    | progress rewrite ?length_alter, ?length_app
    | progress cbn [fmap option_fmap option_map length Eff.nonnull mret Eff.M_ret
                    Index.Peer.wire Index.Peer.conn Index.Peer.timeout Index.Peer.addr
                    Index.Peer.retries Index.Peer_set_wire Index.Peer_set_conn
                    Index.Peer_set_timeout Index.Peer_set_retries]
    | match goal with
      | H : ?l !! ?i = Some _ |- context [?l !! ?i] => rewrite H
      end ].

Ltac sym_exec := run_prims; repeat sym_step.

(* ===================================================================== *)
(** ** Reasoning about computations *)
(* ===================================================================== *)

Section Preservation.
Import Eff.
Context {W : Type}.

Lemma preserves_ret {A} (P : W -> Prop) (a : A) : preserves P (mret a).
Proof. intros w H. exact H. Qed.

Lemma preserves_bind {A B} (P : W -> Prop) (m : M W A) (k : A -> M W B) :
  preserves P m -> (forall a, preserves P (k a)) -> preserves P (m ≫= k).
Proof.
  intros Hm Hk w H. unfold mbind, M_bind.
  specialize (Hm w H). destruct (m w) as [w' [a|e]]; simpl in *.
  - apply Hk, Hm.
  - exact Hm.
Qed.

Lemma preserves_throw {A} (P : W -> Prop) e : preserves P (throw (A:=A) e).
Proof. intros w H. exact H. Qed.

Lemma preserves_TypeError {A} (P : W -> Prop) : preserves P (TypeError (A:=A)).
Proof. intros w H. exact H. Qed.

Lemma preserves_gets {A} (P : W -> Prop) (f : W -> A) : preserves P (gets f).
Proof. intros w H. exact H. Qed.

Lemma preserves_modify (P : W -> Prop) (f : W -> W) :
  (forall w, P w -> P (f w)) -> preserves P (modify f).
Proof. intros Hf w H. apply Hf, H. Qed.

Lemma preserves_deref {A} (P : W -> Prop) (store : W -> list A) r : preserves P (deref store r).
Proof. intros w H. unfold deref. destruct (store w !! r); exact H. Qed.

Lemma preserves_nonnull {A} (P : W -> Prop) (o : option A) : preserves P (nonnull o).
Proof. destruct o; intros w H; exact H. Qed.

Lemma preserves_when (P : W -> Prop) b (m : M W unit) : preserves P m -> preserves P (when b m).
Proof. intros Hm. destruct b; [exact Hm | apply preserves_ret]. Qed.

Lemma preserves_for_each {A} (P : W -> Prop) (l : list A) (body : A -> M W unit) :
  (forall x, preserves P (body x)) -> preserves P (for_each l body).
Proof.
  intros Hb. induction l as [|x l IH]; simpl.
  - apply preserves_ret.
  - apply preserves_bind; [apply Hb | intros _; exact IH].
Qed.

End Preservation.

Create HintDb pres discriminated.

#[export] Hint Resolve preserves_ret preserves_throw preserves_TypeError preserves_gets
  preserves_deref preserves_nonnull : pres.

(** Walks through a computation: sequencing, branching, and the leaves that
    the hint database knows. *)
Ltac pres :=
  repeat first
    [ progress intros
    | solve [eauto 2 with pres]
    | apply preserves_bind
    | apply preserves_when
    | apply preserves_for_each
    | match goal with
      | |- Eff.preserves _ (match ?x with _ => _ end) => destruct x eqn:?
      | |- Eff.preserves _ (if ?x then _ else _) => destruct x eqn:?
      | |- Eff.preserves _ (let '(_, _) := ?x in _) => destruct x eqn:?
      end ].

(* ===================================================================== *)
(** ** The retry counter stays within the backoff schedule *)
(* ===================================================================== *)

Section Retries.
Import Eff Index.

(** A computation that leaves the peers alone. *)
Lemma retries_frame {A} (m : M A) :
  (forall w, peers (m w).1 = peers w) -> preserves retries_bounded m.
Proof. intros Hm w H. unfold retries_bounded. rewrite Hm. exact H. Qed.

Lemma retries_upd_peer r f :
  (forall p, (Peer.retries p <= length RECONNECT_WAIT)%nat ->
             (Peer.retries (f p) <= length RECONNECT_WAIT)%nat) ->
  preserves retries_bounded (upd_peer r f).
Proof.
  intros Hf w H. unfold retries_bounded in *. simpl.
  apply Forall_alter; [exact H | intros p _; apply Hf].
Qed.

Lemma retries_new_peer x :
  (Peer.retries x <= length RECONNECT_WAIT)%nat -> preserves retries_bounded (new_peer x).
Proof.
  intros Hx w H. unfold retries_bounded in *. simpl.
  apply Forall_app. split; [exact H | constructor; [exact Hx | constructor]].
Qed.

Lemma retries_upd_socket r f : preserves retries_bounded (upd_socket r f).
Proof. apply retries_frame. reflexivity. Qed.
Lemma retries_upd_wire r f : preserves retries_bounded (upd_wire r f).
Proof. apply retries_frame. reflexivity. Qed.
Lemma retries_upd_swarm r f : preserves retries_bounded (upd_swarm r f).
Proof. apply retries_frame. reflexivity. Qed.
Lemma retries_upd_pool r f : preserves retries_bounded (upd_pool r f).
Proof. apply retries_frame. reflexivity. Qed.
Lemma retries_new_socket x : preserves retries_bounded (new_socket x).
Proof. apply retries_frame. reflexivity. Qed.
Lemma retries_new_wire x : preserves retries_bounded (new_wire x).
Proof. apply retries_frame. reflexivity. Qed.
Lemma retries_new_swarm x : preserves retries_bounded (new_swarm x).
Proof. apply retries_frame. reflexivity. Qed.
Lemma retries_new_pool x : preserves retries_bounded (new_pool x).
Proof. apply retries_frame. reflexivity. Qed.
Lemma retries_effect e : preserves retries_bounded (effect e).
Proof. apply retries_frame. reflexivity. Qed.
Lemma retries_once : preserves retries_bounded once.
Proof. apply retries_frame. reflexivity. Qed.
Lemma retries_once_enter c : preserves retries_bounded (once_enter c).
Proof.
  apply retries_frame. intros w. unfold once_enter.
  destruct (onces w !! c) as [[]|]; reflexivity.
Qed.
Lemma retries_setTimeout f ms : preserves retries_bounded (setTimeout f ms).
Proof. apply retries_frame. reflexivity. Qed.
Lemma retries_clearTimeout t : preserves retries_bounded (clearTimeout t).
Proof. apply retries_frame. reflexivity. Qed.
Lemma retries_fired t : preserves retries_bounded (fired t).
Proof. apply retries_frame. reflexivity. Qed.
Lemma retries_nextTick f : preserves retries_bounded (nextTick f).
Proof. apply retries_frame. reflexivity. Qed.
Lemma retries_modify_ticks x : preserves retries_bounded (modify (with_ticks x)).
Proof. apply retries_frame. reflexivity. Qed.
Lemma retries_modify_Pool_pools f :
  preserves retries_bounded (modify (fun w => with_Pool_pools (f w) w)).
Proof. apply retries_frame. reflexivity. Qed.

Lemma retries_set_conn r v : preserves retries_bounded (upd_peer r (Peer_set_conn v)).
Proof. apply retries_upd_peer. intros p H. exact H. Qed.
Lemma retries_set_wire r v : preserves retries_bounded (upd_peer r (Peer_set_wire v)).
Proof. apply retries_upd_peer. intros p H. exact H. Qed.
Lemma retries_set_timeout r v : preserves retries_bounded (upd_peer r (Peer_set_timeout v)).
Proof. apply retries_upd_peer. intros p H. exact H. Qed.
Lemma retries_set_retries r v :
  (v <= length RECONNECT_WAIT)%nat ->
  preserves retries_bounded (upd_peer r (Peer_set_retries v)).
Proof. intros Hv. apply retries_upd_peer. intros p _. exact Hv. Qed.

End Retries.

#[export] Hint Resolve retries_upd_socket retries_upd_wire retries_upd_swarm retries_upd_pool
  retries_new_socket retries_new_wire retries_new_swarm retries_new_pool retries_effect
  retries_once retries_once_enter retries_setTimeout retries_clearTimeout retries_fired
  retries_nextTick
  retries_modify_ticks retries_modify_Pool_pools
  retries_set_conn retries_set_wire retries_set_timeout : pres.

Section RetriesMethods.
Import Eff Index.

Lemma retries_Peer_onconnect this conn : preserves retries_bounded (Peer_onconnect this conn).
Proof. unfold Peer_onconnect. unfold_prims. pres. Qed.

Lemma retries_Pool_destroy this : preserves retries_bounded (Pool_destroy this).
Proof. unfold Pool_destroy. unfold_prims. pres. Qed.

Hint Resolve retries_Peer_onconnect retries_Pool_destroy : pres.

Lemma retries_Pool_addSwarm this swarm : preserves retries_bounded (Pool_addSwarm this swarm).
Proof. unfold Pool_addSwarm. unfold_prims. pres. Qed.

Lemma retries_Pool_removeSwarm this swarm :
  preserves retries_bounded (Pool_removeSwarm this swarm).
Proof. unfold Pool_removeSwarm. unfold_prims. pres. Qed.

Hint Resolve retries_Pool_addSwarm retries_Pool_removeSwarm : pres.

Lemma retries_Pool_add swarm : preserves retries_bounded (Pool_add swarm).
Proof. unfold Pool_add, Pool_new. unfold_prims. pres. Qed.

Lemma retries_Pool_remove swarm : preserves retries_bounded (Pool_remove swarm).
Proof. unfold Pool_remove. unfold_prims. pres. Qed.

Lemma retries_Pool__onlistening this : preserves retries_bounded (Pool__onlistening this).
Proof. unfold Pool__onlistening. unfold_prims. pres. Qed.

Lemma retries_Pool__onconn this conn : preserves retries_bounded (Pool__onconn this conn).
Proof.
  unfold Pool__onconn. unfold_prims. pres.
  apply retries_new_peer. simpl. lia.
Qed.

Lemma retries_Pool__onerror this code : preserves retries_bounded (Pool__onerror this code).
Proof. unfold Pool__onerror. unfold_prims. pres. Qed.

Lemma retries_Swarm_numConns this : preserves retries_bounded (Swarm_numConns this).
Proof. unfold Swarm_numConns. unfold_prims. pres. Qed.

Lemma retries_Swarm__onconn this peer : preserves retries_bounded (Swarm__onconn this peer).
Proof. unfold Swarm__onconn. unfold_prims. pres. Qed.

Lemma retries_Swarm__onwire this peer : preserves retries_bounded (Swarm__onwire this peer).
Proof.
  unfold Swarm__onwire. unfold_prims. pres.
  apply retries_set_retries. lia.
Qed.

Hint Resolve retries_Pool_add retries_Pool_remove retries_Swarm_numConns
  retries_Swarm__onconn retries_Swarm__onwire : pres.

Lemma retries_Swarm__onincoming this peer :
  preserves retries_bounded (Swarm__onincoming this peer).
Proof. unfold Swarm__onincoming. unfold_prims. pres. Qed.

Lemma retries_Swarm__remove this addr : preserves retries_bounded (Swarm__remove this addr).
Proof. unfold Swarm__remove. unfold_prims. pres. Qed.

Lemma retries_Swarm__drain this : preserves retries_bounded (Swarm__drain this).
Proof. unfold Swarm__drain. unfold_prims. pres. Qed.

Hint Resolve retries_Swarm__onincoming retries_Swarm__remove retries_Swarm__drain : pres.

Lemma retries_Swarm_add this addr : preserves retries_bounded (Swarm_add this addr).
Proof.
  unfold Swarm_add. unfold_prims. pres.
  apply retries_new_peer. simpl. lia.
Qed.

Lemma retries_Swarm_listen_onPort this err port :
  preserves retries_bounded (Swarm_listen_onPort this err port).
Proof. unfold Swarm_listen_onPort. unfold_prims. pres. Qed.

Hint Resolve retries_Swarm_listen_onPort : pres.

Lemma retries_Swarm_destroy this : preserves retries_bounded (Swarm_destroy this).
Proof. unfold Swarm_destroy. unfold_prims. pres. Qed.

(** The one place that increments the counter does so under the guard
    [peer.retries < RECONNECT_WAIT.length]. *)
Lemma retries_call f arg : preserves retries_bounded (call f arg).
Proof.
  destruct f; unfold call; unfold_prims; pres.
  apply retries_set_retries.
  repeat match goal with
         | H : _ || _ = false |- _ => apply orb_false_elim in H; destruct H
         end.
  match goal with H : bool_decide _ = false |- _ => apply bool_decide_eq_false in H end.
  lia.
Qed.

Hint Resolve retries_call : pres.

Lemma retries_run_listeners unregister ls arg :
  (forall l, preserves retries_bounded (unregister l)) ->
  preserves retries_bounded (run_listeners unregister ls arg).
Proof.
  intros Hu. induction ls as [|l ls IH]; simpl; pres.
Qed.

Hint Resolve retries_Swarm_add retries_Swarm_destroy retries_Pool__onlistening
  retries_Pool__onconn retries_Pool__onerror retries_run_listeners : pres.




End RetriesMethods.

(* ===================================================================== *)
(** ** Well-formed stores *)
(* ===================================================================== *)

Section WfLeaves.
Import Eff Index.
Local Open Scope nat_scope.

Lemma closure_wf_mono np np' f : np <= np' -> closure_wf np f -> closure_wf np' f.
Proof. destruct f; simpl; auto. lia. Qed.

Lemma listeners_wf_mono np np' ls : np <= np' -> listeners_wf np ls -> listeners_wf np' ls.
Proof.
  intros H Hl. eapply Forall_impl; [exact Hl|]. intros l. apply closure_wf_mono, H.
Qed.

Lemma bounded_mono np mp np' mp' w :
  np <= np' -> mp <= mp' -> bounded np mp w -> bounded np' mp' w.
Proof.
  intros Hn Hm []. constructor.
  - eapply Forall_impl; [eassumption|]. intros s Hs.
    eapply Forall_impl; [exact Hs|]. intros; simpl in *; lia.
  - eapply Forall_impl; [eassumption|]. intros; simpl in *; lia.
  - eapply Forall_impl; [eassumption|]. intros x. apply listeners_wf_mono, Hn.
  - eapply Forall_impl; [eassumption|]. intros x. apply listeners_wf_mono, Hn.
  - eapply Forall_impl; [eassumption|]. intros x. apply closure_wf_mono, Hn.
  - eapply Forall_impl; [eassumption|]. intros x. apply closure_wf_mono, Hn.
Qed.

Lemma wfge_weaken n m n' m' w : n' <= n -> m' <= m -> wfge n m w -> wfge n' m' w.
Proof. intros Hn Hm (H & H1 & H2). split; [exact H|lia]. Qed.

(** Leaves. *)
Lemma wfge_frame {A} n m (mm : M A) :
  (forall w, peers (mm w).1 = peers w /\ pools (mm w).1 = pools w
             /\ swarms (mm w).1 = swarms w /\ Pool_pools (mm w).1 = Pool_pools w
             /\ wireobjs (mm w).1 = wireobjs w /\ sockets (mm w).1 = sockets w
             /\ timers (mm w).1 = timers w /\ ticks (mm w).1 = ticks w) ->
  preserves (wfge n m) mm.
Proof.
  intros Hm w ([] & Hn & Hmm). destruct (Hm w) as (E1 & E2 & E3 & E4 & E5 & E6 & E7 & E8).
  unfold wfge. rewrite E1, E2. split; [|lia]. constructor; congruence.
Qed.

Lemma wfge_effect n m e : preserves (wfge n m) (effect e).
Proof. apply wfge_frame. intros w. repeat split. Qed.
Lemma wfge_once n m : preserves (wfge n m) once.
Proof. apply wfge_frame. intros w. repeat split. Qed.
Lemma wfge_once_enter n m c : preserves (wfge n m) (once_enter c).
Proof.
  apply wfge_frame. intros w. unfold once_enter.
  destruct (onces w !! c) as [[]|]; repeat split.
Qed.

Lemma wfge_upd_peer n m r f : preserves (wfge n m) (upd_peer r f).
Proof.
  intros w ([] & Hn & Hm). unfold wfge. simpl. rewrite length_alter.
  split; [|lia]. constructor; assumption.
Qed.

Lemma wfge_upd_pool n m r f : preserves (wfge n m) (upd_pool r f).
Proof.
  intros w ([] & Hn & Hm). unfold wfge. simpl. rewrite length_alter.
  split; [|lia]. constructor; assumption.
Qed.

Lemma wfge_upd_swarm n m r f :
  (forall s np, n <= np -> Forall (fun kv => kv.2 < np) (Swarm._peers s) ->
                Forall (fun kv => kv.2 < np) (Swarm._peers (f s))) ->
  preserves (wfge n m) (upd_swarm r f).
Proof.
  intros Hf w ([] & Hn & Hm). unfold wfge. simpl.
  split; [|lia]. constructor; try assumption. simpl.
  apply Forall_alter; [assumption|]. intros s _. apply Hf, Hn.
Qed.

Lemma wfge_upd_socket n m r f :
  (forall c np, n <= np -> listeners_wf np (Socket.listeners c) ->
                listeners_wf np (Socket.listeners (f c))) ->
  preserves (wfge n m) (upd_socket r f).
Proof.
  intros Hf w ([] & Hn & Hm). unfold wfge. simpl.
  split; [|lia]. constructor; try assumption. simpl.
  apply Forall_alter; [assumption|]. intros s _. apply Hf, Hn.
Qed.

Lemma wfge_upd_wire n m r f :
  (forall c np, n <= np -> listeners_wf np (Wire.listeners c) ->
                listeners_wf np (Wire.listeners (f c))) ->
  preserves (wfge n m) (upd_wire r f).
Proof.
  intros Hf w ([] & Hn & Hm). unfold wfge. simpl.
  split; [|lia]. constructor; try assumption. simpl.
  apply Forall_alter; [assumption|]. intros s _. apply Hf, Hn.
Qed.

Lemma wfge_new_socket n m x :
  Socket.listeners x = [] -> preserves (wfge n m) (new_socket x).
Proof.
  intros Hx w ([] & Hn & Hm). unfold wfge. simpl.
  split; [|lia]. constructor; try assumption. simpl.
  apply Forall_app. split; [assumption|]. constructor; [|constructor]. rewrite Hx. constructor.
Qed.

Lemma wfge_new_wire n m x :
  Wire.listeners x = [] -> preserves (wfge n m) (new_wire x).
Proof.
  intros Hx w ([] & Hn & Hm). unfold wfge. simpl.
  split; [|lia]. constructor; try assumption. simpl.
  apply Forall_app. split; [assumption|]. constructor; [|constructor]. rewrite Hx. constructor.
Qed.

Lemma wfge_new_swarm n m x :
  Swarm._peers x = [] -> preserves (wfge n m) (new_swarm x).
Proof.
  intros Hx w ([] & Hn & Hm). unfold wfge. simpl.
  split; [|lia]. constructor; try assumption. simpl.
  apply Forall_app. split; [assumption|]. constructor; [|constructor]. rewrite Hx. constructor.
Qed.

Lemma wfge_setTimeout n m f ms : closure_wf n f -> preserves (wfge n m) (setTimeout f ms).
Proof.
  intros Hf w ([] & Hn & Hm). unfold wfge. simpl.
  split; [|lia]. constructor; try assumption. simpl.
  apply Forall_app. split; [assumption|]. constructor; [|constructor].
  simpl. eapply closure_wf_mono; eassumption.
Qed.

Lemma wfge_clearTimeout n m t : preserves (wfge n m) (clearTimeout t).
Proof.
  intros w ([] & Hn & Hm). unfold wfge. simpl.
  split; [|lia]. constructor; try assumption. simpl.
  apply Forall_alter; [assumption|]. intros x _ Hx. exact Hx.
Qed.

Lemma wfge_fired n m t : preserves (wfge n m) (fired t).
Proof. apply wfge_clearTimeout. Qed.

Lemma wfge_nextTick n m f : closure_wf n f -> preserves (wfge n m) (nextTick f).
Proof.
  intros Hf w ([] & Hn & Hm). unfold wfge. simpl.
  split; [|lia]. constructor; try assumption. simpl.
  apply Forall_app. split; [assumption|]. constructor; [|constructor].
  eapply closure_wf_mono; eassumption.
Qed.

Lemma wfge_registry n m (f : World -> JS.obj N ref) :
  (forall w mp, m <= mp -> Forall (fun kv => kv.2 < mp) (Pool_pools w) ->
                Forall (fun kv => kv.2 < mp) (f w)) ->
  preserves (wfge n m) (modify (fun w => with_Pool_pools (f w) w)).
Proof.
  intros Hf w ([] & Hn & Hm). unfold wfge. simpl.
  split; [|lia]. constructor; try assumption. simpl. apply Hf; assumption.
Qed.

(** Allocation of a peer and of a pool: what follows may rely on it. *)
Lemma wfge_new_peer {B} n m x (k : ref -> M B) :
  (forall a, preserves (wfge (n `max` S a) m) (k a)) ->
  preserves (wfge n m) (new_peer x ≫= k).
Proof.
  intros Hk w (Hb & Hn & Hm). unfold mbind, M_bind, new_peer.
  apply (wfge_weaken (n `max` S (length (peers w))) m); [lia|lia|].
  apply Hk. unfold wfge. simpl. rewrite length_app. simpl.
  split; [|lia].
  apply (bounded_mono (length (peers w)) (length (pools w))); [lia|lia|].
  destruct Hb. constructor; simpl; assumption.
Qed.

Lemma wfge_new_pool {B} n m x (k : ref -> M B) :
  (forall a, preserves (wfge n (m `max` S a)) (k a)) ->
  preserves (wfge n m) (new_pool x ≫= k).
Proof.
  intros Hk w (Hb & Hn & Hm). unfold mbind, M_bind, new_pool.
  apply (wfge_weaken n (m `max` S (length (pools w)))); [lia|lia|].
  apply Hk. unfold wfge. simpl. rewrite length_app. simpl.
  split; [|lia].
  apply (bounded_mono (length (peers w)) (length (pools w))); [lia|lia|].
  destruct Hb. constructor; simpl; assumption.
Qed.

(** Property lists. *)
Lemma Forall_set `{EqDecision K} {V} (P : K * V -> Prop) k v (o : JS.obj K V) :
  P (k, v) -> Forall P o -> Forall P (JS.set k v o).
Proof.
  intros Hkv. induction 1 as [|[k' v'] o H Ho IH]; simpl.
  - repeat constructor. exact Hkv.
  - destruct (decide (k' = k)); constructor; assumption.
Qed.

Lemma Forall_delete `{EqDecision K} {V} (P : K * V -> Prop) k (o : JS.obj K V) :
  Forall P o -> Forall P (JS.delete k o).
Proof.
  rewrite !Forall_forall. intros H x Hx. apply H.
  unfold JS.delete in Hx. apply list_elem_of_filter in Hx as [_ Hx]. exact Hx.
Qed.

Lemma Forall_remove_first `{EqDecision A} (P : A -> Prop) x (l : list A) :
  Forall P l -> Forall P (remove_first x l).
Proof.
  induction 1 as [|y l H Hl IH]; simpl; [constructor|].
  destruct (decide (y = x)); [assumption | constructor; assumption].
Qed.

Lemma wfge_Pool_new {B} n m port (k : ref -> M B) :
  (forall a, preserves (wfge n (m `max` S a)) (k a)) ->
  preserves (wfge n m) (Pool_new port ≫= k).
Proof.
  intros Hk w (Hb & Hn & Hm). unfold Pool_new, effect, modify, mbind, M_bind, new_pool, mret, M_ret.
  apply (wfge_weaken n (m `max` S (length (pools w)))); [lia|lia|].
  apply Hk. unfold wfge. simpl. rewrite length_app. simpl.
  split; [|lia].
  apply (bounded_mono (length (peers w)) (length (pools w))); [lia|lia|].
  destruct Hb. constructor; simpl; assumption.
Qed.

End WfLeaves.

Ltac wside :=
  intros; simpl in *;
  first
    [ exact I
    | lia
    | assumption
    | (apply Forall_set; [simpl; lia | assumption])
    | (apply Forall_delete; assumption)
    | (apply Forall_remove_first; assumption)
    | (apply Forall_app; split; [assumption | repeat constructor; simpl; first [exact I | lia]]) ].

Ltac wleaf :=
  lazymatch goal with
  | |- Eff.preserves _ (mret _) => apply preserves_ret
  | |- Eff.preserves _ (Eff.throw _) => apply preserves_throw
  | |- Eff.preserves _ Eff.TypeError => apply preserves_TypeError
  | |- Eff.preserves _ (Eff.gets _) => apply preserves_gets
  | |- Eff.preserves _ (Eff.deref _ _) => apply preserves_deref
  | |- Eff.preserves _ (Eff.nonnull _) => apply preserves_nonnull
  | |- Eff.preserves _ (Index.effect _) => apply wfge_effect
  | |- Eff.preserves _ Index.once => apply wfge_once
  | |- Eff.preserves _ (Index.once_enter _) => apply wfge_once_enter
  | |- Eff.preserves _ (Index.upd_peer _ _) => apply wfge_upd_peer
  | |- Eff.preserves _ (Index.upd_pool _ _) => apply wfge_upd_pool
  | |- Eff.preserves _ (Index.clearTimeout _) => apply wfge_clearTimeout
  | |- Eff.preserves _ (Index.fired _) => apply wfge_fired
  | |- Eff.preserves _ (Index.setTimeout _ _) => apply wfge_setTimeout; wside
  | |- Eff.preserves _ (Index.nextTick _) => apply wfge_nextTick; wside
  | |- Eff.preserves _ (Index.new_socket _) => apply wfge_new_socket; reflexivity
  | |- Eff.preserves _ (Index.new_wire _) => apply wfge_new_wire; reflexivity
  | |- Eff.preserves _ (Index.new_swarm _) => apply wfge_new_swarm; reflexivity
  | |- Eff.preserves _ (Index.upd_swarm _ _) => apply wfge_upd_swarm; wside
  | |- Eff.preserves _ (Index.upd_socket _ _) => apply wfge_upd_socket; unfold Index.listeners_wf; wside
  | |- Eff.preserves _ (Index.upd_wire _ _) => apply wfge_upd_wire; unfold Index.listeners_wf; wside
  | |- Eff.preserves _ (Eff.modify (fun w => Index.with_Pool_pools _ w)) =>
      apply wfge_registry; wside
  end.

Create HintDb wfdb discriminated.

Ltac wpres :=
  repeat first
    [ progress intros
    | wleaf
    | lazymatch goal with
      | |- Eff.preserves _ (Index.new_peer _ ≫= _) => apply wfge_new_peer
      | |- Eff.preserves _ (Index.Pool_new _ ≫= _) => apply wfge_Pool_new
      | |- Eff.preserves _ (_ ≫= _) => apply preserves_bind
      | |- Eff.preserves _ (Eff.when _ _) => apply preserves_when
      | |- Eff.preserves _ (Eff.for_each _ _) => apply preserves_for_each
      | |- Eff.preserves _ (match ?x with _ => _ end) => destruct x eqn:?
      | |- Eff.preserves _ (if ?x then _ else _) => destruct x eqn:?
      end
    | solve [eauto 3 with wfdb] ].

Section WfMethods.
Import Eff Index.
Local Open Scope nat_scope.


Lemma wfge_Peer_onconnect n m this conn : preserves (wfge n m) (Peer_onconnect this conn).
Proof. unfold Peer_onconnect. unfold_prims. wpres. Qed.
Hint Resolve wfge_Peer_onconnect : wfdb.

Lemma wfge_Pool_destroy n m this : preserves (wfge n m) (Pool_destroy this).
Proof. unfold Pool_destroy. unfold_prims. wpres. Qed.
Hint Resolve wfge_Pool_destroy : wfdb.

Lemma wfge_Pool_addSwarm n m this swarm : preserves (wfge n m) (Pool_addSwarm this swarm).
Proof. unfold Pool_addSwarm. unfold_prims. wpres. Qed.

Lemma wfge_Pool_removeSwarm n m this swarm : preserves (wfge n m) (Pool_removeSwarm this swarm).
Proof. unfold Pool_removeSwarm. unfold_prims. wpres. Qed.
Hint Resolve wfge_Pool_addSwarm wfge_Pool_removeSwarm : wfdb.

Lemma wfge_Pool_add n m swarm : preserves (wfge n m) (Pool_add swarm).
Proof. unfold Pool_add. unfold_prims. wpres. Qed.

Lemma wfge_Pool_remove n m swarm : preserves (wfge n m) (Pool_remove swarm).
Proof. unfold Pool_remove. unfold_prims. wpres. Qed.

Lemma wfge_Pool__onlistening n m this : preserves (wfge n m) (Pool__onlistening this).
Proof. unfold Pool__onlistening. unfold_prims. wpres. Qed.

Lemma wfge_Pool__onconn n m this conn : preserves (wfge n m) (Pool__onconn this conn).
Proof. unfold Pool__onconn. unfold_prims. wpres. Qed.

Lemma wfge_Pool__onerror n m this code : preserves (wfge n m) (Pool__onerror this code).
Proof. unfold Pool__onerror. unfold_prims. wpres. Qed.

Lemma wfge_Swarm_numConns n m this : preserves (wfge n m) (Swarm_numConns this).
Proof. unfold Swarm_numConns. unfold_prims. wpres. Qed.

Lemma wfge_Swarm__onconn n m this peer : preserves (wfge n m) (Swarm__onconn this peer).
Proof. unfold Swarm__onconn. unfold_prims. wpres. Qed.

Lemma wfge_Swarm__onwire n m this peer : preserves (wfge n m) (Swarm__onwire this peer).
Proof. unfold Swarm__onwire. unfold_prims. wpres. Qed.

Hint Resolve wfge_Pool_add wfge_Pool_remove wfge_Pool__onlistening wfge_Pool__onconn
  wfge_Pool__onerror wfge_Swarm_numConns wfge_Swarm__onconn wfge_Swarm__onwire : wfdb.


Lemma wfge_Swarm__remove n m this addr : preserves (wfge n m) (Swarm__remove this addr).
Proof. unfold Swarm__remove. unfold_prims. wpres. Qed.

Lemma wfge_Swarm__drain n m this : preserves (wfge n m) (Swarm__drain this).
Proof. unfold Swarm__drain. unfold_prims. wpres. Qed.

Hint Resolve wfge_Swarm__remove wfge_Swarm__drain : wfdb.

Lemma wfge_Swarm_add n m this addr : preserves (wfge n m) (Swarm_add this addr).
Proof. unfold Swarm_add. unfold_prims. wpres. Qed.

Lemma wfge_Swarm_listen_onPort n m this err port :
  preserves (wfge n m) (Swarm_listen_onPort this err port).
Proof. unfold Swarm_listen_onPort. unfold_prims. wpres. Qed.

Lemma wfge_Swarm_destroy n m this : preserves (wfge n m) (Swarm_destroy this).
Proof. unfold Swarm_destroy. unfold_prims. wpres. Qed.

Hint Resolve wfge_Swarm_add wfge_Swarm_listen_onPort wfge_Swarm_destroy : wfdb.

Hint Resolve wfge_Swarm_add wfge_Swarm_destroy : wfdb.











End WfMethods.


(* ===================================================================== *)
(** ** The connection cap *)
(* ===================================================================== *)

Section ConnectionCap.
Import Eff Index.
Local Open Scope nat_scope.

Lemma reachable_run es w : reachable w -> reachable (run es w).
Proof.
  revert w. induction es as [|e es IH]; intros w H; simpl; [exact H|].
  apply IH. constructor. exact H.
Qed.

(** C1, as stated, fails: a swarm that listens adopts every incoming peer
    whose handshake carries its info-hash. After 101 such connections,
    without a single outbound dial, [numConns] is 101, above [MAX_SIZE]. *)
Lemma incoming_peers_exceed_MAX_SIZE :
  reachable (run crowd init)
  /\ Swarm_numConns 0 (run crowd init) = (run crowd init, Normal 101)
  /\ MAX_SIZE < 101
  /\ dials (run crowd init) = 0
  /\ crashed (run crowd init) = None.
Proof.
  split; [apply reachable_run; constructor|].
  split; [vm_compute; reflexivity|].
  split; [unfold MAX_SIZE; lia|].
  split; vm_compute; reflexivity.
Qed.

(** C1, amended: the cap gates outbound dials. When [numConns] has reached
    [MAX_SIZE], a call of [_drain] returns without changing anything: the
    queue is left as it is, no socket is opened, nothing is dialled. *)
Theorem drain_respects_MAX_SIZE (w : World) (this : ref) (n : nat) :
  Swarm_numConns this w = (w, Normal n) ->
  MAX_SIZE <= n ->
  Swarm__drain this w = (w, Normal tt).
Proof.
  intros Hn Hle. unfold Swarm__drain.
  rewrite (bind_normal _ _ _ _ _ Hn).
  unfold Swarm_numConns in Hn.
  unfold get_swarm, deref in *.
  unfold mbind, M_bind in *.
  destruct (swarms w !! this) as [s|] eqn:Hs; [|discriminate].
  rewrite bool_decide_eq_true_2 by exact Hle. reflexivity.
Qed.

Lemma drain_respects_MAX_SIZE_witness :
  Swarm__drain 0 (run crowd init) = (run crowd init, Normal tt).
Proof.
  apply (drain_respects_MAX_SIZE (run crowd init) 0 101).
  - vm_compute. reflexivity.
  - unfold MAX_SIZE. lia.
Defined.

End ConnectionCap.

(* ===================================================================== *)
(** ** Reconnecting with backoff *)
(* ===================================================================== *)

Section Backoff.
Import Eff Index.
Local Open Scope nat_scope.





End Backoff.

(* ===================================================================== *)
(** ** Destroying a swarm *)
(* ===================================================================== *)

Section Destroy.
Import Eff Index.
Local Open Scope nat_scope.











End Destroy.

(* ===================================================================== *)
(** ** Handshake deadlines *)
(* ===================================================================== *)

Section Deadlines.
Import Eff Index.
Local Open Scope nat_scope.





End Deadlines.

(* ===================================================================== *)
(** ** The pool: duplicate swarms and bind errors *)
(* ===================================================================== *)

Section PoolErrors.
Import Eff Index.
Local Open Scope nat_scope.

(** What [addSwarm] does with a swarm whose info-hash is already registered:
    the pool is left as it is, an 'error' is queued for the swarm, and
    before it, when the pool listens, a 'listening'. *)
Lemma addSwarm_duplicate this swarm w p s first :
  pools w !! this = Some p -> swarms w !! swarm = Some s ->
  JS.get (Swarm.infoHash s) (Pool.swarms p) = Some first ->
  Pool_addSwarm this swarm w
  = (with_ticks (ticks w ++ (if Pool.listening p then [AddSwarm_listening swarm] else [])
                         ++ [AddSwarm_error swarm]) w,
     Normal tt).
Proof.
  intros Hp Hs Hfirst. unfold Pool_addSwarm. run_prims. rewrite Hs, Hp.
  destruct (Pool.listening p); fields; rewrite Hfirst; fields.
  - rewrite <- app_assoc. reflexivity.
  - reflexivity.
Qed.

(** C6: the code departs from the claim. Swarm 0 listens on port 6881 and
    the pool is listening; swarm 1 has the same info-hash and asks for the
    same port. The pool keeps its one entry, swarm 1 gets its 'error', but
    before it swarm 1 is also told 'listening'. *)
Theorem duplicate_swarm_is_told_listening :
  Pool.swarms <$> pools (run two_swarms init) = [[(torrent, 0)]]
  /\ Pool.swarms <$> pools (run (two_swarms ++ [Call_listen 1 6881%N]) init) = [[(torrent, 0)]]
  /\ ticks (run (two_swarms ++ [Call_listen 1 6881%N]) init)
     = [AddSwarm_listening 1; AddSwarm_error 1]
  /\ log (run (two_swarms ++ [Call_listen 1 6881%N; Next_tick; Next_tick]) init)
     = log (run two_swarms init)
       ++ [Emit 1 "listening" VUndefined;
           Emit 1 "error"
             (VString ("Swarm listen error: There is already a swarm with infoHash "
                       +:+ torrent +:+ " listening on port 6881"))].
Proof. vm_compute. repeat split. Qed.

(** C7: the code departs from the claim. On a bind error other than
    EADDRINUSE, and on EADDRINUSE after five retries, [_onerror] clears
    [listening] and then throws: the pool has a member swarm, and no 'error'
    (no event at all) is emitted on it. *)
Theorem bind_error_reaches_no_swarm :
  (Pool__onerror 0 "EACCES" (run listening_pool init)).2 = Throw "TypeError"
  /\ log (exec (Pool__onerror 0 "EACCES") (run listening_pool init))
     = log (run listening_pool init)
  /\ Pool.swarms <$> pools (run listening_pool init) = [[(torrent, 0)]]
  /\ Pool.listening <$> pools (exec (Pool__onerror 0 "EACCES") (run listening_pool init))
     = [false]
  /\ crashed (step (Server_error 0 "EACCES") (run listening_pool init)) = Some "TypeError"
  /\ Pool._retries <$> pools (run retries_exhausted init) = [5]
  /\ (Pool__onerror 0 "EADDRINUSE" (run retries_exhausted init)).2 = Throw "TypeError"
  /\ List.filter is_emit
       (log (exec (Pool__onerror 0 "EADDRINUSE") (run retries_exhausted init))) = [].
Proof. vm_compute. repeat split. Qed.

(** The retry itself: below five retries, EADDRINUSE arms a timer of
    1000 ms that counts the retry and listens again on the same port. *)
Lemma bind_retry_armed this w p :
  pools w !! this = Some p -> Pool._retries p < 5 ->
  Pool__onerror this "EADDRINUSE" w
  = (with_timers (timers w ++ [mkTimer 1000 (Pool_retry this) true])
       (with_log (log w ++ [Console "Address in use, retrying..."]) w), Normal tt)
  /\ exec (call (Pool_retry this) VUndefined) w
     = with_log (log w ++ [ServerClose this] ++ [ServerListen this (Pool.port p)])
         (with_pools (<[this := Pool_set_retries (Pool._retries p + 1) p]> (pools w)) w).
Proof.
  intros Hp Hlt. split.
  - unfold Pool__onerror. run_prims. rewrite Hp.
    rewrite bool_decide_eq_true_2 by reflexivity.
    rewrite bool_decide_eq_true_2 by exact Hlt. reflexivity.
  - unfold call. run_prims. fields. rewrite list_lookup_alter_eq, Hp. cbn.
    rewrite (alter_lookup_insert _ _ _ _ Hp), <- app_assoc. reflexivity.
Qed.

End PoolErrors.

(* ===================================================================== *)
(** ** [Number] on decimal integers *)
(* ===================================================================== *)

Section NumberOfDecimal.
Local Open Scope Z_scope.

Lemma Qlt_bool_spec x y : JS.Qlt_bool x y = true <-> (x < y)%Q.
Proof. unfold JS.Qlt_bool, Qlt. apply Z.ltb_lt. Qed.

Lemma Qlt_bool_Qred_l x y : JS.Qlt_bool (Qred x) y = JS.Qlt_bool x y.
Proof.
  apply eq_true_iff_eq. rewrite !Qlt_bool_spec. rewrite (Qred_correct x). reflexivity.
Qed.

Lemma Qlt_bool_Qred_r x y : JS.Qlt_bool x (Qred y) = JS.Qlt_bool x y.
Proof.
  apply eq_true_iff_eq. rewrite !Qlt_bool_spec. rewrite (Qred_correct y). reflexivity.
Qed.

Lemma round_half_even_exact a : JS.round_half_even a 1 = a.
Proof.
  unfold JS.round_half_even. rewrite Z.div_1_r, Z.mod_1_r. simpl. reflexivity.
Qed.

Lemma round_half_even_lower a b : 0 <= a -> 0 < b -> a / b <= JS.round_half_even a b.
Proof.
  intros Ha Hb. unfold JS.round_half_even.
  repeat (case_match; try lia).
Qed.

Lemma ilog2_int v : 0 < v -> JS.ilog2 v 1 = Z.log2 v.
Proof.
  intros Hv. unfold JS.ilog2. change (Z.log2 1) with 0. rewrite Z.sub_0_r.
  pose proof (Z.log2_nonneg v) as Hnn.
  rewrite (proj2 (Z.leb_le 0 (Z.log2 v)) Hnn).
  destruct (Z.log2_spec v Hv) as [Hlo _].
  rewrite Z.mul_1_l, (proj2 (Z.leb_le _ _) Hlo). reflexivity.
Qed.

(** Comparisons of [Number] of a non-negative integer below 2^53: it is exact. *)
Lemma round_double_small v :
  0 < v -> v < 2 ^ 53 ->
  exists q, JS.round_double (inject_Z v) = JS.Finite q /\ (q == inject_Z v)%Q.
Proof.
  intros Hpos Hlt. unfold JS.round_double, inject_Z. cbn [Qnum Qden].
  rewrite (proj2 (Z.ltb_ge v 0)) by lia.
  rewrite Z.abs_eq by lia.
  rewrite (proj2 (Z.eqb_neq v 0)) by lia.
  rewrite (ilog2_int v Hpos).
  assert (He : Z.log2 v < 53) by (apply Z.log2_lt_pow2; lia).
  pose proof (Z.log2_nonneg v) as Hnn.
  rewrite Z.max_l by lia.
  destruct (0 <=? Z.log2 v - 52) eqn:Hk.
  - apply Z.leb_le in Hk. assert (Z.log2 v - 52 = 0) as -> by lia.
    change (2 ^ 0) with 1. rewrite Z.mul_1_r, round_half_even_exact.
    rewrite (proj2 (Z.leb_gt _ _)).
    2:{ change (1024 - 0) with 1024. eapply Z.lt_trans; [exact Hlt|]. reflexivity. }
    eexists. split; [reflexivity|]. rewrite Z.mul_1_r. apply Qred_correct.
  - apply Z.leb_gt in Hk. change (Z.pos 1) with 1. rewrite round_half_even_exact.
    set (j := - (Z.log2 v - 52)). assert (Hj : 0 < j <= 52) by (subst j; lia).
    rewrite (proj2 (Z.leb_gt _ _)).
    2:{ replace (1024 - (Z.log2 v - 52)) with (1024 + j) by (subst j; lia).
        apply Z.lt_le_trans with (2 ^ 53 * 2 ^ j).
        - apply Z.mul_lt_mono_pos_r; [apply Z.pow_pos_nonneg; lia | exact Hlt].
        - rewrite <- Z.pow_add_r by lia. apply Z.pow_le_mono_r; lia. }
    eexists. split; [reflexivity|]. rewrite Qred_correct.
    unfold Qeq. cbn [Qnum Qden]. rewrite Z2Pos.id by (apply Z.pow_pos_nonneg; lia). lia.
Qed.

(** At and above 2^53 the rounded value, finite or not, is at least 2^53. *)
Lemma round_double_large v :
  2 ^ 53 <= v ->
  JS.lt (JS.round_double (inject_Z v)) (JS.of_Z 65535) = false
  /\ JS.gt (JS.round_double (inject_Z v)) (JS.of_Z 0) = true.
Proof.
  intros Hge. assert (Hpos : 0 < v) by (pose proof (Z.pow_pos_nonneg 2 53); lia).
  unfold JS.round_double, inject_Z. cbn [Qnum Qden].
  rewrite (proj2 (Z.ltb_ge v 0)) by lia.
  rewrite Z.abs_eq by lia.
  rewrite (proj2 (Z.eqb_neq v 0)) by lia.
  rewrite (ilog2_int v Hpos).
  assert (He : 53 <= Z.log2 v) by (apply Z.log2_le_pow2; lia).
  rewrite Z.max_l by lia.
  rewrite (proj2 (Z.leb_le 0 (Z.log2 v - 52))) by lia.
  change (Z.pos 1) with 1. rewrite Z.mul_1_l.
  set (k := Z.log2 v - 52) in *. assert (Hk : 1 <= k) by (subst k; lia).
  set (m := JS.round_half_even v (2 ^ k)).
  assert (Hm : 2 ^ 52 <= m).
  { subst m. etransitivity; [|apply round_half_even_lower; [lia|apply Z.pow_pos_nonneg; lia]].
    apply Z.div_le_lower_bound; [apply Z.pow_pos_nonneg; lia|].
    rewrite <- Z.pow_add_r by lia. replace (k + 52) with (Z.log2 v) by (subst k; lia).
    apply Z.log2_spec, Hpos. }
  destruct (2 ^ (1024 - k) <=? m); [split; reflexivity|].
  unfold JS.lt, JS.gt, JS.lt, JS.of_Z.
  rewrite Qlt_bool_Qred_l, Qlt_bool_Qred_r.
  unfold JS.Qlt_bool, inject_Z. cbn [Qnum Qden].
  assert (Hval : 2 ^ 53 <= m * 2 ^ k).
  { change (2 ^ 53) with (2 ^ 52 * 2 ^ 1). apply Z.mul_le_mono_nonneg; try lia.
    apply Z.pow_le_mono_r; lia. }
  assert (H53 : 65535 < 2 ^ 53) by reflexivity.
  split; [apply Z.ltb_ge; lia | apply Z.ltb_lt; lia].
Qed.

Lemma Number_range_of_integer v :
  0 <= v ->
  JS.gt (JS.round_double (inject_Z v)) (JS.of_Z 0)
  && JS.lt (JS.round_double (inject_Z v)) (JS.of_Z 65535)
  = (0 <? v) && (v <? 65535).
Proof.
  intros Hnn. destruct (Z.eq_dec v 0) as [->|Hne]; [reflexivity|].
  destruct (Z_lt_le_dec v (2 ^ 53)) as [Hlt|Hge].
  - destruct (round_double_small v) as (q & -> & Hq); [lia|exact Hlt|].
    unfold JS.gt, JS.lt, JS.of_Z.
    rewrite (proj2 (Z.ltb_lt 0 v)) by lia.
    assert (Hgt : JS.Qlt_bool (inject_Z 0) q = true).
    { apply Qlt_bool_spec. rewrite Hq. rewrite <- Zlt_Qlt. lia. }
    rewrite Hgt. cbn [andb]. apply eq_true_iff_eq.
    rewrite Qlt_bool_spec, Hq, <- Zlt_Qlt, Z.ltb_lt. reflexivity.
  - destruct (round_double_large v Hge) as [-> ->].
    assert (H53 : 65535 < 2 ^ 53) by reflexivity.
    rewrite (proj2 (Z.ltb_ge v 65535)) by lia. destruct (0 <? v); reflexivity.
Qed.

End NumberOfDecimal.

Section DecimalPort.
Import Index.
Local Open Scope Z_scope.

Lemma digit_in_10 c v : JS.digit_in 10 c = Some v -> is_decimal_digit c /\ 0 <= v <= 9.
Proof.
  unfold JS.digit_in, JS.digit_val, is_decimal_digit.
  repeat case_match; intros; simplify_eq; lia.
Qed.

Lemma take_digits_all l ds :
  JS.take_digits 10 l = (ds, []) -> Forall is_decimal_digit l /\ Forall (fun d => 0 <= d <= 9) ds.
Proof.
  revert ds. induction l as [|c l IH]; intros ds; simpl.
  - intros [= <-]. split; constructor.
  - destruct (JS.digit_in 10 c) as [v|] eqn:Hc; [|discriminate].
    destruct (JS.take_digits 10 l) as [ds' rest] eqn:Hl. intros [= <- ->].
    destruct (IH ds' eq_refl) as [H1 H2]. apply digit_in_10 in Hc as [Hc Hv].
    split; constructor; assumption.
Qed.

Lemma digits_value_nonneg ds :
  Forall (fun d => 0 <= d <= 9) ds -> 0 <= JS.digits_value 10 ds.
Proof.
  unfold JS.digits_value. intros H.
  assert (forall acc, 0 <= acc -> 0 <= foldl (fun acc d => acc * 10 + d) acc ds) as Hgen.
  { induction H as [|d ds Hd _ IH]; intros acc Hacc; simpl; [exact Hacc|]. apply IH. lia. }
  apply Hgen. lia.
Qed.

Lemma digit_not_white c : is_decimal_digit c -> JS.is_white c = false.
Proof. unfold is_decimal_digit, JS.is_white. intros H. lia. Qed.

Lemma drop_white_digits l : Forall is_decimal_digit l -> JS.drop_white l = l.
Proof.
  destruct 1 as [|c l Hc _]; simpl; [reflexivity|]. rewrite (digit_not_white c Hc). reflexivity.
Qed.

Lemma trim_digits l : Forall is_decimal_digit l -> JS.trim l = l.
Proof.
  intros H. unfold JS.trim. rewrite (drop_white_digits l H).
  rewrite drop_white_digits by (apply Forall_rev, H). apply rev_involutive.
Qed.

Lemma non_decimal_digits l : Forall is_decimal_digit l -> JS.non_decimal l = None.
Proof.
  unfold is_decimal_digit. intros H. destruct H as [|z l Hz H]; [reflexivity|].
  destruct H as [|p l Hp H]; [reflexivity|]. unfold JS.non_decimal.
  destruct (JS.code z =? 48); [|reflexivity].
  repeat match goal with
         | |- context [JS.code p =? ?n] => rewrite (proj2 (Z.eqb_neq (JS.code p) n)) by lia
         end.
  reflexivity.
Qed.

(** [Number] of a text of decimal digits is the double nearest to the
    integer it spells. *)
Lemma Number_of_decimal p v :
  decimal_integer p = Some v ->
  0 <= v /\ JS.Number (Some p) = JS.round_double (inject_Z v).
Proof.
  unfold decimal_integer. destruct (JS.take_digits 10 _) as [[|d ds] [|c rest]] eqn:Ht;
    try discriminate. intros [= <-].
  destruct (take_digits_all _ _ Ht) as [Hall Hds].
  split; [apply digits_value_nonneg, Hds|].
  unfold JS.Number, JS.StringToNumber. rewrite (trim_digits _ Hall).
  destruct (String.list_ascii_of_string p) as [|c l] eqn:Hp; [discriminate|].
  rewrite (non_decimal_digits _ Hall).
  assert (Hc : is_decimal_digit c) by (inversion Hall; assumption).
  unfold is_decimal_digit in Hc.
  rewrite (proj2 (Z.eqb_neq (JS.code c) 43)) by lia.
  rewrite (proj2 (Z.eqb_neq (JS.code c) 45)) by lia.
  unfold JS.unsigned_decimal. rewrite bool_decide_eq_false_2.
  2:{ intros [= -> _]. change (JS.code "I") with 73 in Hc. lia. }
  rewrite Ht. cbn [bool_decide decide_rel negb andb JS.exponent_part length app].
  rewrite app_nil_r. unfold JS.decimal. cbn. rewrite Z.mul_1_r. reflexivity.
Qed.

(** On addresses whose port text is a decimal integer, the validation of the
    code is the one the specification describes. *)
Lemma validAddr_decimal addr p v :
  JS.split ":" addr !! 1%nat = Some p -> decimal_integer p = Some v ->
  validAddr addr = validAddr_spec addr /\ validAddr addr = (0 <? v) && (v <? 65535).
Proof.
  intros Hsplit Hdec. unfold validAddr, validAddr_spec. rewrite Hsplit, Hdec.
  destruct (Number_of_decimal p v Hdec) as [Hnn ->].
  rewrite (Number_range_of_integer v Hnn). split; reflexivity.
Qed.

End DecimalPort.

(* ===================================================================== *)
(** ** Adding and removing peers *)
(* ===================================================================== *)

Section AddRemove.
Import Eff Index.
Local Open Scope nat_scope.

(** [_remove] of an address that names no peer changes nothing. *)
Lemma remove_unknown this addr w s :
  swarms w !! this = Some s -> JS.get addr (Swarm._peers s) = None ->
  Swarm__remove this addr w = (w, Normal tt).
Proof.
  intros Hs Hg. unfold Swarm__remove. run_prims. rewrite Hs, Hg. reflexivity.
Qed.

(** C8: the code departs from the claim. The peer of 10.0.0.7:6881 waits on
    the queue of a paused swarm; [_remove] deletes it from [_peers] and
    leaves it on [_queue], and [resume] then dials the removed peer. *)
Theorem removed_peer_stays_queued :
  Swarm._peers <$> swarms (run queued_peer init) = [[("10.0.0.7:6881", 0)]]
  /\ Swarm._queue <$> swarms (run queued_peer init) = [[0]]
  /\ Swarm__remove 0 "10.0.0.7:6881" (run queued_peer init)
     = (exec (Swarm__remove 0 "10.0.0.7:6881") (run queued_peer init), Normal tt)
  /\ Swarm._peers <$> swarms (exec (Swarm__remove 0 "10.0.0.7:6881") (run queued_peer init))
     = [[]]
  /\ Swarm._queue <$> swarms (exec (Swarm__remove 0 "10.0.0.7:6881") (run queued_peer init))
     = [[0]]
  /\ dials (run [Call_resume 0] (exec (Swarm__remove 0 "10.0.0.7:6881") (run queued_peer init)))
     = 1.
Proof. vm_compute. repeat split. Qed.

(** C9, as stated, fails: the port text "0x1F90" is not a decimal integer,
    yet [Number] reads it as 8080 and [add] records the peer. *)
Lemma add_accepts_hexadecimal_port :
  validAddr_spec "10.0.0.1:0x1F90" = false
  /\ validAddr "10.0.0.1:0x1F90" = true
  /\ peers (run one_swarm init) = []
  /\ peers (exec (Swarm_add 0 "10.0.0.1:0x1F90") (run one_swarm init))
     = [Peer.mk "10.0.0.1:0x1F90" None None None 0]
  /\ Swarm._peers <$> swarms (exec (Swarm_add 0 "10.0.0.1:0x1F90") (run one_swarm init))
     = [[("10.0.0.1:0x1F90", 0)]].
Proof. vm_compute. repeat split. Qed.

(** C9, amended: validation is [0 < Number(port text) < 65535], where
    [Number] is the conversion of JavaScript; on a port text that is a decimal
    integer this is the validation of the specification. [add] changes
    nothing when the
    swarm is destroyed, when [_peers] has the address, or when validation
    fails; otherwise it creates one [Peer] (no connection, no wire, no timer,
    zero retries), records it in [_peers] under the address, appends it to
    [_queue], and calls [_drain]. *)
Theorem add_contract (w : World) (this : ref) (s : Swarm.t) (addr : string) :
  swarms w !! this = Some s ->
  (validAddr addr
   = JS.gt (JS.Number (JS.split ":" addr !! 1)) (JS.of_Z 0)
     && JS.lt (JS.Number (JS.split ":" addr !! 1)) (JS.of_Z 65535))
  /\ (Swarm._destroyed s = true \/ is_Some (JS.get addr (Swarm._peers s))
      \/ validAddr addr = false ->
      Swarm_add this addr w = (w, Normal tt))
  /\ (Swarm._destroyed s = false -> JS.get addr (Swarm._peers s) = None ->
      validAddr addr = true ->
      Swarm_add this addr w
      = Swarm__drain this
          (with_swarms
             (<[this := Swarm_set_queue (Swarm._queue s ++ [length (peers w)])
                          (Swarm_set_peers (Swarm._peers s ++ [(addr, length (peers w))]) s)]>
                (swarms w))
             (with_peers (peers w ++ [Peer.mk addr None None None 0]) w)))
  /\ (forall p v, JS.split ":" addr !! 1 = Some p -> decimal_integer p = Some v ->
        validAddr addr = validAddr_spec addr
        /\ validAddr addr = (0 <? v)%Z && (v <? 65535)%Z).
Proof.
  intros Hs. split; [reflexivity|].
  split; [|split; [|intros p v; apply validAddr_decimal]].
  - intros Hnoop. unfold Swarm_add.
    rewrite (bind_normal _ _ _ _ _ (deref_Some swarms _ _ _ Hs)).
    destruct (Swarm._destroyed s); [reflexivity|]. cbn [orb].
    case_bool_decide as Hex; [reflexivity|].
    destruct Hnoop as [Hd|[He|Hv]]; [discriminate|contradiction|].
    rewrite Hv. reflexivity.
  - intros Hd Hnew Hv. unfold Swarm_add.
    rewrite (bind_normal _ _ _ _ _ (deref_Some swarms _ _ _ Hs)).
    rewrite Hd, Hv. cbn [orb negb].
    rewrite bool_decide_eq_false_2 by (rewrite Hnew; apply is_Some_None).
    unfold Peer_new. sym_exec.
    f_equal. unfold with_swarms at 1 2. fields. f_equal.
    rewrite list_alter_alter_eq.
    rewrite (alter_lookup_insert _ _ _ _ Hs). cbn.
    rewrite (set_absent _ _ _ Hnew). reflexivity.
Qed.

Lemma add_contract_witness :
  Swarm_add 0 "10.0.0.7:70000" (run one_swarm init) = (run one_swarm init, Normal tt)
  /\ peers (exec (Swarm_add 0 "10.0.0.7:6881") (run one_swarm init))
     = [Peer.mk "10.0.0.7:6881" None None None 0].
Proof.
  edestruct (add_contract (run one_swarm init) 0) with (addr := "10.0.0.7:70000")
    as (_ & Hnoop & _); [vm_compute; reflexivity|].
  edestruct (add_contract (run one_swarm init) 0) with (addr := "10.0.0.7:6881")
    as (_ & _ & Hadd & _); [vm_compute; reflexivity|].
  split.
  - apply Hnoop. right. right. vm_compute. reflexivity.
  - unfold exec. rewrite Hadd; [vm_compute; reflexivity|reflexivity|reflexivity|].
    vm_compute. reflexivity.
Defined.

End AddRemove.

(* ===================================================================== *)
(** ** Destroying a peer *)
(* ===================================================================== *)

Section PeerDestroy.
Import Eff PeerJs.
Local Open Scope nat_scope.
Context {R : Type} (removePeer : string -> Swarm R -> Swarm R) (_drain : Swarm R -> Swarm R).

#[local] Abbreviation destroy := (PeerJs.destroy R removePeer _drain).
#[local] Abbreviation destroy_times := (PeerJs.destroy_times R removePeer _drain).

Ltac peer_prims :=
  unfold PeerJs.get_peer, PeerJs.get_conn, PeerJs.get_swarm, PeerJs.upd_peer, PeerJs.upd_conn,
    PeerJs.upd_wire, PeerJs.upd_swarm, PeerJs.effect, PeerJs.Conn_once, PeerJs.Conn_destroy,
    PeerJs.Wire_on, PeerJs.Wire_once, PeerJs.Wire_destroy, PeerJs.global_clearTimeout,
    PeerJs.global_setTimeout, PeerJs.unref.

Lemma destroyed_upd_peer self r f :
  (forall p, Peer.destroyed p = true -> Peer.destroyed (f p) = true) ->
  preserves (is_destroyed self) (upd_peer R r f).
Proof.
  intros Hf w (p & Hp & Hd). unfold is_destroyed. simpl.
  destruct (decide (r = self)) as [->|Hne].
  - exists (f p). rewrite list_lookup_alter_eq, Hp. auto.
  - exists p. rewrite list_lookup_alter_ne by exact Hne. auto.
Qed.

Lemma destroyed_frame {A} self (m : Eff.M (World R) A) :
  (forall w, peers R (m w).1 = peers R w) -> preserves (is_destroyed self) m.
Proof. intros Hm w (p & Hp & Hd). exists p. rewrite Hm. auto. Qed.

(** Once the flag is set, [destroy] returns at once and changes nothing. *)
Lemma destroy_again self w p :
  peers R w !! self = Some p -> Peer.destroyed p = true -> destroy self w = (w, Normal tt).
Proof.
  intros Hp Hd. unfold PeerJs.destroy, PeerJs.get_peer, deref, mbind, M_bind.
  rewrite Hp, Hd. reflexivity.
Qed.

(** A call of [destroy] leaves the flag set, whether it returns or throws. *)
Lemma destroy_sets_flag self w :
  is_Some (peers R w !! self) -> is_destroyed self (exec (destroy self) w).
Proof.
  intros [p Hp]. unfold exec, PeerJs.destroy.
  unfold PeerJs.get_peer at 1. unfold mbind at 1, M_bind at 1, deref. rewrite Hp.
  destruct (Peer.destroyed p) eqn:Hd; [exists p; auto|].
  unfold mbind at 1, M_bind at 1. cbn [PeerJs.upd_peer modify]. cbv beta iota.
  match goal with |- is_destroyed _ (?m ?w1).1 =>
    cut (preserves (is_destroyed self) m);
      [intros H; apply H; unfold is_destroyed; cbn [peers with_peers];
       rewrite list_lookup_alter_eq, Hp; eexists; split; reflexivity|]
  end.
  peer_prims.
  repeat first
    [ progress intros
    | apply preserves_bind
    | apply preserves_nonnull
    | apply preserves_ret
    | (apply destroyed_upd_peer; intros q Hq; exact Hq)
    | (apply destroyed_frame; reflexivity)
    | match goal with
      | |- preserves _ (match ?x with _ => _ end) => destruct x eqn:?
      end ].
Qed.

(** C4: for a peer of the store and [n >= 1], the state after [n] calls of
    [destroy] is the state after one call; the first call leaves the
    [destroyed] flag set, and a call on a peer whose flag is set returns
    at once with the state unchanged. *)
Theorem Peer_destroy_idempotent (w : World R) (self : ref) (n : nat) :
  is_Some (peers R w !! self) -> 1 <= n ->
  destroy_times n self w = exec (destroy self) w
  /\ (exists p, peers R (exec (destroy self) w) !! self = Some p /\ Peer.destroyed p = true)
  /\ (forall w' p, peers R w' !! self = Some p -> Peer.destroyed p = true ->
                   destroy self w' = (w', Normal tt)).
Proof.
  intros Hself Hn.
  pose proof (destroy_sets_flag self w Hself) as Hflag.
  split; [|split; [exact Hflag | intros w' p; apply destroy_again]].
  destruct n as [|n]; [lia|]. clear Hn. simpl.
  generalize dependent (exec (destroy self) w). intros w1 (p & Hp & Hd).
  induction n as [|n IH]; simpl; [reflexivity|].
  unfold exec at 1. rewrite (destroy_again self w1 p Hp Hd). exact IH.
Qed.

End PeerDestroy.

Section PeerDestroyRuns.
Local Open Scope nat_scope.

Lemma Peer_destroy_idempotent_witness :
  PeerJs.destroy_times unit no_removePeer no_drain 3 0 lone_peer
  = Eff.exec (PeerJs.destroy unit no_removePeer no_drain 0) lone_peer.
Proof.
  apply (Peer_destroy_idempotent no_removePeer no_drain lone_peer 0 3).
  - eexists. reflexivity.
  - lia.
Defined.

(** C10: the code departs from the claim. A peer made by
    [createIncomingTCPPeer] has no swarm; its handshake timer is armed. A
    call of [destroy], from the timer or from an event of the connection
    alike, throws a TypeError at [self.swarm.wires], after the flag is set and
    the connection destroyed: the wire is not destroyed, the timer stays
    armed, and [conn] and [wire] are not cleared. *)
Theorem incoming_peer_destroy_throws :
  let created := PeerJs.createIncomingTCPPeer unit 0 accepted in
  created.2 = Eff.Normal 0
  /\ PeerJs.Peer.swarm <$> PeerJs.peers unit created.1 = [None]
  /\ PeerJs.callback <$> PeerJs.timers unit created.1 = [PeerJs.Timeout_destroy 0]
  /\ (PeerJs.destroy unit no_removePeer no_drain 0 created.1).2 = Eff.Throw "TypeError"
  /\ (PeerJs.call unit no_removePeer no_drain (PeerJs.Timeout_destroy 0) "" 0 created.1).2
     = Eff.Throw "TypeError"
  /\ (PeerJs.call unit no_removePeer no_drain (PeerJs.OnConnect_destroy 0) "" 0 created.1).2
     = Eff.Throw "TypeError"
  /\ let after := Eff.exec (PeerJs.destroy unit no_removePeer no_drain 0) created.1 in
     PeerJs.Peer.destroyed <$> PeerJs.peers unit after = [true]
     /\ PeerJs.Conn.destroyed <$> PeerJs.conns unit after = [true]
     /\ PeerJs.Peer.conn <$> PeerJs.peers unit after = [Some 0]
     /\ PeerJs.Peer.wire <$> PeerJs.peers unit after = [Some 0]
     /\ PeerJs.Wire.destroyed <$> PeerJs.wireobjs unit after = [false]
     /\ PeerJs.pending <$> PeerJs.timers unit after = [true].
Proof. vm_compute. repeat split. Qed.

End PeerDestroyRuns.

(* ===================================================================== *)
(** * Further properties of the code *)
(* ===================================================================== *)

(* ===================================================================== *)
(** ** [validAddr]: what of an address is read *)
(* ===================================================================== *)

Section AddressText.
Import Index.
Local Open Scope nat_scope.

Lemma split_colon_free s : colon_free s -> JS.split ":" s = [s].
Proof.
  unfold colon_free. induction s as [|c s IH]; simpl; [reflexivity|].
  intros Hnot. apply not_elem_of_cons in Hnot as [Hc Hs].
  destruct (Ascii.eqb_spec c ":") as [->|_]; [congruence|].
  rewrite (IH Hs). reflexivity.
Qed.

Lemma split_cons sep c s :
  c <> sep -> JS.split sep (String c s)
  = match JS.split sep s with [] => [String c ""] | hd :: tl => String c hd :: tl end.
Proof. intros Hc. simpl. destruct (Ascii.eqb_spec c sep); [contradiction|reflexivity]. Qed.

Lemma split_nonempty sep s : JS.split sep s <> [].
Proof.
  induction s as [|c s IH]; simpl; [discriminate|].
  destruct (Ascii.eqb c sep); [discriminate|]. destruct (JS.split sep s); [contradiction|discriminate].
Qed.

(** Splitting at the first colon. *)
Lemma split_first host rest :
  colon_free host -> JS.split ":" (host +:+ ":" +:+ rest) = host :: JS.split ":" rest.
Proof.
  unfold colon_free. induction host as [|c host IH]; intros Hnot.
  - reflexivity.
  - simpl in Hnot. apply not_elem_of_cons in Hnot as [Hc Hs].
    change (String c host +:+ ":" +:+ rest) with (String c (host +:+ ":" +:+ rest)).
    rewrite split_cons by congruence. rewrite (IH Hs). reflexivity.
Qed.

Lemma validAddr_no_colon addr : colon_free addr -> validAddr addr = false.
Proof. intros H. unfold validAddr. rewrite (split_colon_free addr H). reflexivity. Qed.

Lemma validAddr_port_text host port :
  colon_free host -> colon_free port ->
  JS.split ":" (host +:+ ":" +:+ port) !! 1 = Some port
  /\ forall tail, JS.split ":" (host +:+ ":" +:+ port +:+ ":" +:+ tail) !! 1 = Some port.
Proof.
  intros Hh Hp. split.
  - rewrite (split_first host port Hh), (split_colon_free port Hp). reflexivity.
  - intros tail. rewrite (split_first host _ Hh), (split_first port tail Hp). reflexivity.
Qed.

(** X1: [validAddr] reads the text between the first and the second colon and
    nothing else. An address without a colon is rejected; the host part is
    not looked at; whatever follows a second colon is ignored. *)
Theorem validAddr_reads_port_only (host port : string) :
  colon_free host -> colon_free port ->
  validAddr host = false
  /\ validAddr (host +:+ ":" +:+ port) = validAddr (":" +:+ port)
  /\ forall tail, validAddr (host +:+ ":" +:+ port +:+ ":" +:+ tail) = validAddr (":" +:+ port).
Proof.
  intros Hh Hp. split; [apply validAddr_no_colon, Hh|].
  assert (Hnil : colon_free "") by (unfold colon_free; simpl; apply not_elem_of_nil).
  destruct (validAddr_port_text host port Hh Hp) as [H1 H2].
  destruct (validAddr_port_text "" port Hnil Hp) as [H3 _].
  unfold validAddr. split.
  - rewrite H1. change ("" +:+ ":" +:+ port) with (":" +:+ port) in H3. rewrite H3. reflexivity.
  - intros tail. rewrite H2. change ("" +:+ ":" +:+ port) with (":" +:+ port) in H3.
    rewrite H3. reflexivity.
Qed.

Lemma validAddr_reads_port_only_witness :
  validAddr "tracker" = false
  /\ validAddr "10.0.0.7:6881" = validAddr ":6881"
  /\ validAddr "10.0.0.7:6881:abc" = validAddr ":6881".
Proof.
  destruct (validAddr_reads_port_only "10.0.0.7" "6881") as (H1 & H2 & H3).
  - unfold colon_free. apply (bool_decide_unpack _). vm_compute. exact I.
  - unfold colon_free. apply (bool_decide_unpack _). vm_compute. exact I.
  - split; [|split; [exact H2 | exact (H3 "abc")]].
    apply (validAddr_reads_port_only "tracker" ""); unfold colon_free; apply (bool_decide_unpack _); vm_compute; exact I.
Defined.

End AddressText.

(* ===================================================================== *)
(** ** Symbolic execution over named objects *)
(* ===================================================================== *)

(** Projections of the records of the store applied to their setters. *)
Ltac records :=
  cbn [Index.Swarm.infoHash Index.Swarm.peerId Index.Swarm.port Index.Swarm.downloaded
       Index.Swarm.uploaded Index.Swarm.wires Index.Swarm._queue Index.Swarm._peers
       Index.Swarm._paused Index.Swarm._destroyed
       Index.Swarm_set_port Index.Swarm_set_downloaded Index.Swarm_set_uploaded
       Index.Swarm_set_wires Index.Swarm_set_queue Index.Swarm_set_peers
       Index.Swarm_set_paused Index.Swarm_set_destroyed
       Index.Pool.port Index.Pool.swarms Index.Pool.listening Index.Pool.conns
       Index.Pool._retries Index.Pool_set_swarms Index.Pool_set_listening
       Index.Pool_set_conns Index.Pool_set_retries
       Index.Peer.addr Index.Peer.conn Index.Peer.wire Index.Peer.timeout Index.Peer.retries
       Index.Peer_set_conn Index.Peer_set_wire Index.Peer_set_timeout Index.Peer_set_retries
       Index.Socket.remoteAddress Index.Socket.remotePort Index.Socket.destroyed
       Index.Socket.listeners Index.Socket_set_destroyed Index.Socket_set_listeners
       Index.Wire.remoteAddress Index.Wire.destroyed Index.Wire.ended Index.Wire.listeners
       Index.Wire_set_remoteAddress Index.Wire_set_destroyed Index.Wire_set_ended
       Index.Wire_set_listeners
       Index.delay Index.callback Index.pending
       fmap option_fmap option_map length Eff.nonnull mret Eff.M_ret] in *.

(** One step of symbolic execution: reduce, or look an object up. *)
Ltac exec_step :=
  first
    [ progress fields
    | progress records
    | rewrite list_lookup_alter_eq
    | rewrite lookup_snoc_new
    | erewrite lookup_snoc_old by eassumption
    | progress rewrite ?length_alter, ?length_app
    | match goal with
      | H : ?l !! ?i = Some _ |- context [?l !! ?i] => rewrite H
      | H : JS.get ?k ?o = _ |- context [JS.get ?k ?o] => rewrite H
      | H : ?x = ?v |- context [match ?x with _ => _ end] => rewrite H
      | H : ?x = ?v |- context [if ?x then _ else _] => rewrite H
      end ].

Ltac exec_all := run_prims; repeat exec_step.

(** Facts about the objects and arrays of JavaScript used below. *)
Section Objects.
Import Eff Index.
Local Open Scope nat_scope.

Lemma get_set_eq `{EqDecision K} {V} (k : K) (v : V) (o : JS.obj K V) :
  JS.get k (JS.set k v o) = Some v.
Proof.
  induction o as [|[k' v'] o IH]; simpl.
  - rewrite decide_True by reflexivity. reflexivity.
  - destruct (decide (k' = k)) as [->|Hne]; simpl.
    + rewrite decide_True by reflexivity. reflexivity.
    + rewrite decide_False by exact Hne. exact IH.
Qed.


Lemma get_of_elem `{EqDecision K} {V} (k : K) (v : V) (o : JS.obj K V) :
  NoDup (JS.keys o) -> (k, v) ∈ o -> JS.get k o = Some v.
Proof.
  unfold JS.keys. induction o as [|[k' v'] o IH]; simpl; intros Hnd Hin; [inversion Hin|].
  apply NoDup_cons in Hnd as [Hnotin Hnd].
  apply elem_of_cons in Hin as [[= <- <-]|Hin].
  - rewrite decide_True by reflexivity. reflexivity.
  - destruct (decide (k' = k)) as [->|_]; [|apply IH; assumption].
    exfalso. apply Hnotin. apply list_elem_of_fmap. exists (k, v). auto.
Qed.

Lemma indexOf_first `{EqDecision A} (x : A) (l1 l2 : list A) :
  x ∉ l1 -> JS.indexOf x (l1 ++ x :: l2) = Z.of_nat (length l1).
Proof.
  intros Hnot. unfold JS.indexOf.
  induction l1 as [|y l1 IH]; simpl.
  - rewrite decide_True by reflexivity. reflexivity.
  - apply not_elem_of_cons in Hnot as [Hne Hnot].
    rewrite decide_False by congruence. specialize (IH Hnot).
    destruct (list_find (λ y0 : A, y0 = x) (l1 ++ x :: l2)) as [[i z]|]; simpl in *; lia.
Qed.

Lemma indexOf_absent `{EqDecision A} (x : A) (l : list A) :
  x ∉ l -> JS.indexOf x l = (-1)%Z.
Proof.
  intros Hnot. unfold JS.indexOf.
  induction l as [|y l IH]; simpl; [reflexivity|].
  apply not_elem_of_cons in Hnot as [Hne Hnot].
  rewrite decide_False by congruence. specialize (IH Hnot).
  destruct (list_find (λ y0 : A, y0 = x) l) as [[i z]|]; simpl in *; [lia|reflexivity].
Qed.

Lemma splice_from_first {A} (l1 l2 : list A) :
  JS.splice_from (Z.of_nat (length l1)) (l1 ++ l2) = l1.
Proof.
  unfold JS.splice_from, JS.splice_start. rewrite length_app.
  rewrite (proj2 (Z.ltb_ge _ _)) by lia.
  rewrite Z.min_l by lia. rewrite Nat2Z.id. apply take_app_length.
Qed.

Lemma splice_from_minus_one {A} (l : list A) :
  JS.splice_from (-1) l = removelast l.
Proof.
  unfold JS.splice_from, JS.splice_start. change (-1 <? 0)%Z with true. cbv iota.
  destruct (decide (l = [])) as [->|Hne]; [reflexivity|].
  destruct (exists_last Hne) as (l' & x & ->). rewrite removelast_last.
  rewrite length_app. simpl. rewrite Z.max_l by lia.
  replace (Z.to_nat (Z.of_nat (length l' + 1) + -1)) with (length l') by lia.
  apply take_app_length.
Qed.

Lemma splice_one_last {A} (l : list A) (x : A) :
  JS.splice (Z.of_nat (length l)) 1 (l ++ [x]) = l.
Proof.
  unfold JS.splice, JS.splice_start. rewrite length_app. cbn [length].
  rewrite (proj2 (Z.ltb_ge _ _)) by lia. rewrite Z.min_l by lia. rewrite Nat2Z.id.
  rewrite take_app_length. rewrite drop_ge by (rewrite length_app; simpl; lia).
  apply app_nil_r.
Qed.

Lemma splice_one_at {A} (l1 l2 : list A) (x : A) :
  JS.splice (Z.of_nat (length l1)) 1 (l1 ++ x :: l2) = l1 ++ l2.
Proof.
  unfold JS.splice, JS.splice_start. rewrite length_app. cbn [length].
  rewrite (proj2 (Z.ltb_ge _ _)) by lia. rewrite Z.min_l by lia. rewrite Nat2Z.id.
  rewrite take_app_length. f_equal.
  rewrite drop_app_ge by lia. replace (length l1 + 1 - length l1) with 1 by lia. reflexivity.
Qed.

Lemma splice_one_minus_one {A} (l : list A) : JS.splice (-1) 1 l = removelast l.
Proof.
  unfold JS.splice, JS.splice_start. change (-1 <? 0)%Z with true. cbv iota.
  destruct (decide (l = [])) as [->|Hne]; [reflexivity|].
  destruct (exists_last Hne) as (l' & x & ->). rewrite removelast_last.
  rewrite length_app. simpl. rewrite Z.max_l by lia.
  replace (Z.to_nat (Z.of_nat (length l' + 1) + -1)) with (length l') by lia.
  rewrite take_app_length. rewrite drop_ge by (rewrite length_app; simpl; lia).
  apply app_nil_r.
Qed.




Lemma foldl_add_le (l : list nat) : forall acc,
  Forall (fun n => n <= 1) l -> foldl Nat.add acc l <= acc + length l.
Proof.
  induction l as [|n l IH]; intros acc Hall; simpl; [lia|].
  apply Forall_cons in Hall as [Hn Hall]. specialize (IH (acc + n) Hall). lia.
Qed.

Lemma foldl_add_shift (l : list nat) : forall acc, foldl Nat.add acc l = acc + foldl Nat.add 0 l.
Proof.
  induction l as [|n l IH]; intros acc; simpl; [lia|].
  rewrite (IH (acc + n)), (IH n). lia.
Qed.

End Objects.

(* ===================================================================== *)
(** ** Properties of one swarm that every method keeps *)
(* ===================================================================== *)

Create HintDb hasdb discriminated.

Section SwarmLocal.
Import Eff Index.
Local Open Scope nat_scope.

Variable this : ref.
Variable Q : Swarm.t -> Prop.

Hypothesis Q_port : forall v s, Q s -> Q (Swarm_set_port v s).
Hypothesis Q_downloaded : forall v s, Q s -> Q (Swarm_set_downloaded v s).
Hypothesis Q_uploaded : forall v s, Q s -> Q (Swarm_set_uploaded v s).
Hypothesis Q_wires : forall v s, Q s -> Q (Swarm_set_wires v s).
Hypothesis Q_queue : forall v s, Q s -> Q (Swarm_set_queue v s).
Hypothesis Q_peers : forall v s, Q s -> Q (Swarm_set_peers v s).
Hypothesis Q_paused : forall v s, Q s -> Q (Swarm_set_paused v s).
Hypothesis Q_destroyed : forall s, Q s -> Q (Swarm_set_destroyed true s).

Lemma has_frame {A} (m : M A) :
  (forall w, swarms (m w).1 = swarms w) -> preserves (swarm_has this Q) m.
Proof. intros Hm w (s & Hs & HQ). exists s. rewrite Hm. auto. Qed.

Lemma has_upd_swarm r f :
  (forall s, Q s -> Q (f s)) -> preserves (swarm_has this Q) (upd_swarm r f).
Proof.
  intros Hf w (s & Hs & HQ). unfold swarm_has. simpl.
  destruct (decide (r = this)) as [->|Hne].
  - exists (f s). rewrite list_lookup_alter_eq, Hs. auto.
  - exists s. rewrite list_lookup_alter_ne by exact Hne. auto.
Qed.

Lemma has_new_swarm x : preserves (swarm_has this Q) (new_swarm x).
Proof.
  intros w (s & Hs & HQ). exists s. simpl. split; [|exact HQ].
  apply lookup_snoc_old, Hs.
Qed.

Lemma has_once_enter c : preserves (swarm_has this Q) (once_enter c).
Proof.
  apply has_frame. intros w. unfold once_enter.
  destruct (onces w !! c) as [[]|]; reflexivity.
Qed.

Ltac hside :=
  let s := fresh "s" in let H := fresh "H" in
  intros s H; cbv beta;
  first [ exact H | apply Q_port, H | apply Q_downloaded, H | apply Q_uploaded, H
        | apply Q_wires, H | apply Q_queue, H | apply Q_peers, H | apply Q_paused, H
        | apply Q_destroyed, H ].

Ltac hleaf :=
  lazymatch goal with
  | |- preserves _ (mret _) => apply preserves_ret
  | |- preserves _ (throw _) => apply preserves_throw
  | |- preserves _ TypeError => apply preserves_TypeError
  | |- preserves _ (gets _) => apply preserves_gets
  | |- preserves _ (deref _ _) => apply preserves_deref
  | |- preserves _ (nonnull _) => apply preserves_nonnull
  | |- preserves _ (once_enter _) => apply has_once_enter
  | |- preserves _ (upd_swarm _ _) => apply has_upd_swarm; hside
  | |- preserves _ (new_swarm _) => apply has_new_swarm
  | |- preserves _ (effect _) => apply has_frame; reflexivity
  | |- preserves _ once => apply has_frame; reflexivity
  | |- preserves _ (upd_peer _ _) => apply has_frame; reflexivity
  | |- preserves _ (upd_pool _ _) => apply has_frame; reflexivity
  | |- preserves _ (upd_socket _ _) => apply has_frame; reflexivity
  | |- preserves _ (upd_wire _ _) => apply has_frame; reflexivity
  | |- preserves _ (clearTimeout _) => apply has_frame; reflexivity
  | |- preserves _ (fired _) => apply has_frame; reflexivity
  | |- preserves _ (setTimeout _ _) => apply has_frame; reflexivity
  | |- preserves _ (nextTick _) => apply has_frame; reflexivity
  | |- preserves _ (new_socket _) => apply has_frame; reflexivity
  | |- preserves _ (new_wire _) => apply has_frame; reflexivity
  | |- preserves _ (new_peer _) => apply has_frame; reflexivity
  | |- preserves _ (new_pool _) => apply has_frame; reflexivity
  | |- preserves _ (modify (fun w => with_Pool_pools _ w)) => apply has_frame; reflexivity
  | |- preserves _ (modify (with_ticks _)) => apply has_frame; reflexivity
  end.

Ltac hpres :=
  repeat first
    [ progress intros
    | hleaf
    | lazymatch goal with
      | |- preserves _ (_ ≫= _) => apply preserves_bind
      | |- preserves _ (when _ _) => apply preserves_when
      | |- preserves _ (for_each _ _) => apply preserves_for_each
      | |- preserves _ (match ?x with _ => _ end) => destruct x eqn:?
      | |- preserves _ (if ?x then _ else _) => destruct x eqn:?
      end
    | solve [eauto 3 with hasdb] ].

Lemma has_Swarm_numConns r : preserves (swarm_has this Q) (Swarm_numConns r).
Proof. unfold Swarm_numConns. unfold_prims. hpres. Qed.

Lemma has_Swarm__drain r : preserves (swarm_has this Q) (Swarm__drain r).
Proof.
  unfold Swarm__drain. unfold_prims.
  apply preserves_bind; [apply has_Swarm_numConns|]. hpres.
Qed.

Hint Resolve has_Swarm_numConns has_Swarm__drain : hasdb.

Lemma has_Peer_onconnect r conn : preserves (swarm_has this Q) (Peer_onconnect r conn).
Proof. unfold Peer_onconnect. unfold_prims. hpres. Qed.

Lemma has_Pool_destroy r : preserves (swarm_has this Q) (Pool_destroy r).
Proof. unfold Pool_destroy. unfold_prims. hpres. Qed.

Hint Resolve has_Peer_onconnect has_Pool_destroy : hasdb.

Lemma has_Pool_addSwarm r swarm : preserves (swarm_has this Q) (Pool_addSwarm r swarm).
Proof. unfold Pool_addSwarm. unfold_prims. hpres. Qed.

Lemma has_Pool_removeSwarm r swarm : preserves (swarm_has this Q) (Pool_removeSwarm r swarm).
Proof. unfold Pool_removeSwarm. unfold_prims. hpres. Qed.

Hint Resolve has_Pool_addSwarm has_Pool_removeSwarm : hasdb.

Lemma has_Pool_add swarm : preserves (swarm_has this Q) (Pool_add swarm).
Proof. unfold Pool_add, Pool_new. unfold_prims. hpres. Qed.

Lemma has_Pool_remove swarm : preserves (swarm_has this Q) (Pool_remove swarm).
Proof. unfold Pool_remove. unfold_prims. hpres. Qed.

Lemma has_Pool__onlistening r : preserves (swarm_has this Q) (Pool__onlistening r).
Proof. unfold Pool__onlistening. unfold_prims. hpres. Qed.

Lemma has_Pool__onconn r conn : preserves (swarm_has this Q) (Pool__onconn r conn).
Proof. unfold Pool__onconn. unfold_prims. hpres. Qed.

Lemma has_Pool__onerror r code : preserves (swarm_has this Q) (Pool__onerror r code).
Proof. unfold Pool__onerror. unfold_prims. hpres. Qed.

Lemma has_Swarm__onconn r peer : preserves (swarm_has this Q) (Swarm__onconn r peer).
Proof. unfold Swarm__onconn. unfold_prims. hpres. Qed.

Lemma has_Swarm__onwire r peer : preserves (swarm_has this Q) (Swarm__onwire r peer).
Proof. unfold Swarm__onwire. unfold_prims. hpres. Qed.

Hint Resolve has_Pool_add has_Pool_remove has_Pool__onlistening has_Pool__onconn
  has_Pool__onerror has_Swarm__onconn has_Swarm__onwire : hasdb.

Lemma has_Swarm__onincoming r peer : preserves (swarm_has this Q) (Swarm__onincoming r peer).
Proof. unfold Swarm__onincoming. unfold_prims. hpres. Qed.

Lemma has_Swarm__remove r addr : preserves (swarm_has this Q) (Swarm__remove r addr).
Proof. unfold Swarm__remove. unfold_prims. hpres. Qed.

Hint Resolve has_Swarm__onincoming has_Swarm__remove : hasdb.

Lemma has_Swarm_add r addr : preserves (swarm_has this Q) (Swarm_add r addr).
Proof. unfold Swarm_add. unfold_prims. hpres. Qed.

Lemma has_Swarm_listen_onPort r err port :
  preserves (swarm_has this Q) (Swarm_listen_onPort r err port).
Proof. unfold Swarm_listen_onPort. unfold_prims. hpres. Qed.

Hint Resolve has_Swarm_listen_onPort : hasdb.

Lemma has_Swarm_destroy r : preserves (swarm_has this Q) (Swarm_destroy r).
Proof. unfold Swarm_destroy. unfold_prims. hpres. Qed.

Hint Resolve has_Swarm_add has_Swarm_destroy : hasdb.

Lemma has_call f arg : preserves (swarm_has this Q) (call f arg).
Proof. destruct f; unfold call; unfold_prims; hpres. Qed.

Hint Resolve has_call : hasdb.

Lemma has_run_listeners unregister ls arg :
  (forall l, preserves (swarm_has this Q) (unregister l)) ->
  preserves (swarm_has this Q) (run_listeners unregister ls arg).
Proof. intros Hu. induction ls as [|l ls IH]; simpl; hpres. Qed.

Lemma has_handle e : preserves (swarm_has this Q) (handle e).
Proof.
  assert (Hex : forall A (store : World -> list A) r m,
             preserves (swarm_has this Q) m -> preserves (swarm_has this Q) (on_existing store r m)).
  { intros A store r m Hm w H. unfold on_existing. case_bool_decide; [apply Hm, H | exact H]. }
  destruct e; unfold handle; try apply Hex;
    unfold Swarm_new, Swarm_pause, Swarm_resume, Swarm_remove, Swarm_listen,
      Socket_emit, Wire_emit; unfold_prims; hpres.
  all: apply has_run_listeners; hpres.
Qed.

Lemma has_step e w : swarm_has this Q w -> swarm_has this Q (step e w).
Proof.
  intros H. unfold step. destruct (crashed w); [exact H|].
  pose proof (has_handle e w H) as H'.
  destruct (handle e w) as [w' [[]|msg]]; simpl in H'; exact H'.
Qed.

Lemma has_run es w : swarm_has this Q w -> swarm_has this Q (run es w).
Proof.
  revert w. induction es as [|e es IH]; intros w H; simpl; [exact H|].
  apply IH, has_step, H.
Qed.

End SwarmLocal.

(* ===================================================================== *)
(** ** The dictionaries hold each key once *)
(* ===================================================================== *)

Section KeysLeaves.
Import Eff Index.
Local Open Scope nat_scope.

Lemma keys_set `{EqDecision K} {V} (k : K) (v : V) (o : JS.obj K V) :
  k ∈ JS.keys o -> JS.keys (JS.set k v o) = JS.keys o.
Proof.
  unfold JS.keys. induction o as [|[k' v'] o IH]; simpl; intros Hin; [inversion Hin|].
  destruct (decide (k' = k)) as [->|Hne]; [reflexivity|]. simpl. f_equal. apply IH.
  apply elem_of_cons in Hin as [?|?]; [congruence|assumption].
Qed.

Lemma keys_set_new `{EqDecision K} {V} (k : K) (v : V) (o : JS.obj K V) :
  k ∉ JS.keys o -> JS.keys (JS.set k v o) = JS.keys o ++ [k].
Proof.
  unfold JS.keys. induction o as [|[k' v'] o IH]; simpl; intros Hnot; [reflexivity|].
  apply not_elem_of_cons in Hnot as [Hne Hnot].
  rewrite decide_False by congruence. simpl. f_equal. apply IH, Hnot.
Qed.

Lemma NoDup_set `{EqDecision K} {V} (k : K) (v : V) (o : JS.obj K V) :
  NoDup (JS.keys o) -> NoDup (JS.keys (JS.set k v o)).
Proof.
  intros Hnd. destruct (decide (k ∈ JS.keys o)) as [Hin|Hnot].
  - rewrite keys_set by exact Hin. exact Hnd.
  - rewrite keys_set_new by exact Hnot. apply NoDup_app. split; [exact Hnd|]. split.
    + intros x Hx Hk. apply list_elem_of_singleton in Hk as ->. contradiction.
    + apply NoDup_singleton.
Qed.

Lemma NoDup_delete `{EqDecision K} {V} (k : K) (o : JS.obj K V) :
  NoDup (JS.keys o) -> NoDup (JS.keys (JS.delete k o)).
Proof.
  unfold JS.keys, JS.delete. induction o as [|[k' v'] o IH]; simpl; intros Hnd; [constructor|].
  apply NoDup_cons in Hnd as [Hnot Hnd]. rewrite filter_cons. simpl.
  destruct (decide (k' <> k)); [|apply IH, Hnd]. simpl. apply NoDup_cons. split; [|apply IH, Hnd].
  intros Hin. apply Hnot. apply list_elem_of_fmap in Hin as (kv & -> & Hkv).
  apply list_elem_of_filter in Hkv as [_ Hkv]. apply list_elem_of_fmap. eauto.
Qed.

Lemma ku_frame {A} (m : M A) :
  (forall w, swarms (m w).1 = swarms w /\ pools (m w).1 = pools w
             /\ Pool_pools (m w).1 = Pool_pools w) ->
  preserves keys_unique m.
Proof.
  intros Hm w []. destruct (Hm w) as (E1 & E2 & E3). constructor; congruence.
Qed.

Lemma ku_upd_swarm r f :
  (forall s, NoDup (JS.keys (Swarm._peers s)) -> NoDup (JS.keys (Swarm._peers (f s)))) ->
  preserves keys_unique (upd_swarm r f).
Proof.
  intros Hf w []. constructor; try assumption. simpl.
  apply Forall_alter; [assumption|]. intros s _. apply Hf.
Qed.

Lemma ku_upd_pool r f :
  (forall p, NoDup (JS.keys (Pool.swarms p)) -> NoDup (JS.keys (Pool.swarms (f p)))) ->
  preserves keys_unique (upd_pool r f).
Proof.
  intros Hf w []. constructor; try assumption. simpl.
  apply Forall_alter; [assumption|]. intros s _. apply Hf.
Qed.

Lemma ku_new_swarm x : Swarm._peers x = [] -> preserves keys_unique (new_swarm x).
Proof.
  intros Hx w []. constructor; try assumption. simpl.
  apply Forall_app. split; [assumption|]. constructor; [|constructor]. rewrite Hx. constructor.
Qed.

Lemma ku_new_pool x : Pool.swarms x = [] -> preserves keys_unique (new_pool x).
Proof.
  intros Hx w []. constructor; try assumption. simpl.
  apply Forall_app. split; [assumption|]. constructor; [|constructor]. rewrite Hx. constructor.
Qed.

Lemma ku_registry (f : World -> JS.obj N ref) :
  (forall w, NoDup (JS.keys (Pool_pools w)) -> NoDup (JS.keys (f w))) ->
  preserves keys_unique (modify (fun w => with_Pool_pools (f w) w)).
Proof. intros Hf w []. constructor; try assumption. simpl. apply Hf. assumption. Qed.

Lemma ku_once_enter c : preserves keys_unique (once_enter c).
Proof.
  apply ku_frame. intros w. unfold once_enter.
  destruct (onces w !! c) as [[]|]; repeat split.
Qed.

End KeysLeaves.

Ltac kside :=
  intros; cbn [Index.Swarm._peers Index.Swarm_set_port Index.Swarm_set_downloaded
               Index.Swarm_set_uploaded Index.Swarm_set_wires Index.Swarm_set_queue
               Index.Swarm_set_peers Index.Swarm_set_paused Index.Swarm_set_destroyed
               Index.Pool.swarms Index.Pool_set_swarms Index.Pool_set_listening
               Index.Pool_set_conns Index.Pool_set_retries] in *;
  first [ assumption | (apply NoDup_set; assumption) | (apply NoDup_delete; assumption) ].

Ltac kleaf :=
  lazymatch goal with
  | |- Eff.preserves _ (mret _) => apply preserves_ret
  | |- Eff.preserves _ (Eff.throw _) => apply preserves_throw
  | |- Eff.preserves _ Eff.TypeError => apply preserves_TypeError
  | |- Eff.preserves _ (Eff.gets _) => apply preserves_gets
  | |- Eff.preserves _ (Eff.deref _ _) => apply preserves_deref
  | |- Eff.preserves _ (Eff.nonnull _) => apply preserves_nonnull
  | |- Eff.preserves _ (Index.once_enter _) => apply ku_once_enter
  | |- Eff.preserves _ (Index.upd_swarm _ _) => apply ku_upd_swarm; kside
  | |- Eff.preserves _ (Index.upd_pool _ _) => apply ku_upd_pool; kside
  | |- Eff.preserves _ (Index.new_swarm _) => apply ku_new_swarm; reflexivity
  | |- Eff.preserves _ (Index.new_pool _) => apply ku_new_pool; reflexivity
  | |- Eff.preserves _ (Eff.modify (fun w => Index.with_Pool_pools _ w)) =>
      apply ku_registry; kside
  | |- Eff.preserves _ (Index.effect _) => apply ku_frame; repeat split
  | |- Eff.preserves _ Index.once => apply ku_frame; repeat split
  | |- Eff.preserves _ (Index.upd_peer _ _) => apply ku_frame; repeat split
  | |- Eff.preserves _ (Index.upd_socket _ _) => apply ku_frame; repeat split
  | |- Eff.preserves _ (Index.upd_wire _ _) => apply ku_frame; repeat split
  | |- Eff.preserves _ (Index.clearTimeout _) => apply ku_frame; repeat split
  | |- Eff.preserves _ (Index.fired _) => apply ku_frame; repeat split
  | |- Eff.preserves _ (Index.setTimeout _ _) => apply ku_frame; repeat split
  | |- Eff.preserves _ (Index.nextTick _) => apply ku_frame; repeat split
  | |- Eff.preserves _ (Index.new_socket _) => apply ku_frame; repeat split
  | |- Eff.preserves _ (Index.new_wire _) => apply ku_frame; repeat split
  | |- Eff.preserves _ (Index.new_peer _) => apply ku_frame; repeat split
  | |- Eff.preserves _ (Eff.modify (Index.with_ticks _)) => apply ku_frame; repeat split
  end.

Create HintDb kudb discriminated.

Ltac kpres :=
  repeat first
    [ progress intros
    | kleaf
    | lazymatch goal with
      | |- Eff.preserves _ (_ ≫= _) => apply preserves_bind
      | |- Eff.preserves _ (Eff.when _ _) => apply preserves_when
      | |- Eff.preserves _ (Eff.for_each _ _) => apply preserves_for_each
      | |- Eff.preserves _ (match ?x with _ => _ end) => destruct x eqn:?
      | |- Eff.preserves _ (if ?x then _ else _) => destruct x eqn:?
      end
    | solve [eauto 3 with kudb] ].

Section KeysMethods.
Import Eff Index.
Local Open Scope nat_scope.

Lemma ku_Swarm_numConns r : preserves keys_unique (Swarm_numConns r).
Proof. unfold Swarm_numConns. unfold_prims. kpres. Qed.

Lemma ku_Peer_onconnect r conn : preserves keys_unique (Peer_onconnect r conn).
Proof. unfold Peer_onconnect. unfold_prims. kpres. Qed.

Lemma ku_Pool_destroy r : preserves keys_unique (Pool_destroy r).
Proof. unfold Pool_destroy. unfold_prims. kpres. Qed.

Hint Resolve ku_Swarm_numConns ku_Peer_onconnect ku_Pool_destroy : kudb.

Lemma ku_Swarm__drain r : preserves keys_unique (Swarm__drain r).
Proof. unfold Swarm__drain. unfold_prims. kpres. Qed.

Lemma ku_Pool_addSwarm r swarm : preserves keys_unique (Pool_addSwarm r swarm).
Proof. unfold Pool_addSwarm. unfold_prims. kpres. Qed.

Lemma ku_Pool_removeSwarm r swarm : preserves keys_unique (Pool_removeSwarm r swarm).
Proof. unfold Pool_removeSwarm. unfold_prims. kpres. Qed.

Hint Resolve ku_Swarm__drain ku_Pool_addSwarm ku_Pool_removeSwarm : kudb.

Lemma ku_Pool_add swarm : preserves keys_unique (Pool_add swarm).
Proof. unfold Pool_add, Pool_new. unfold_prims. kpres. Qed.

Lemma ku_Pool_remove swarm : preserves keys_unique (Pool_remove swarm).
Proof. unfold Pool_remove. unfold_prims. kpres. Qed.

Lemma ku_Pool__onlistening r : preserves keys_unique (Pool__onlistening r).
Proof. unfold Pool__onlistening. unfold_prims. kpres. Qed.

Lemma ku_Pool__onconn r conn : preserves keys_unique (Pool__onconn r conn).
Proof. unfold Pool__onconn. unfold_prims. kpres. Qed.

Lemma ku_Pool__onerror r code : preserves keys_unique (Pool__onerror r code).
Proof. unfold Pool__onerror. unfold_prims. kpres. Qed.

Lemma ku_Swarm__onconn r peer : preserves keys_unique (Swarm__onconn r peer).
Proof. unfold Swarm__onconn. unfold_prims. kpres. Qed.

Lemma ku_Swarm__onwire r peer : preserves keys_unique (Swarm__onwire r peer).
Proof. unfold Swarm__onwire. unfold_prims. kpres. Qed.

Hint Resolve ku_Pool_add ku_Pool_remove ku_Pool__onlistening ku_Pool__onconn
  ku_Pool__onerror ku_Swarm__onconn ku_Swarm__onwire : kudb.

Lemma ku_Swarm__onincoming r peer : preserves keys_unique (Swarm__onincoming r peer).
Proof. unfold Swarm__onincoming. unfold_prims. kpres. Qed.

Lemma ku_Swarm__remove r addr : preserves keys_unique (Swarm__remove r addr).
Proof. unfold Swarm__remove. unfold_prims. kpres. Qed.

Hint Resolve ku_Swarm__onincoming ku_Swarm__remove : kudb.

Lemma ku_Swarm_add r addr : preserves keys_unique (Swarm_add r addr).
Proof. unfold Swarm_add. unfold_prims. kpres. Qed.

Lemma ku_Swarm_listen_onPort r err port : preserves keys_unique (Swarm_listen_onPort r err port).
Proof. unfold Swarm_listen_onPort. unfold_prims. kpres. Qed.

Lemma ku_Swarm_destroy r : preserves keys_unique (Swarm_destroy r).
Proof. unfold Swarm_destroy. unfold_prims. kpres. Qed.

Hint Resolve ku_Swarm_add ku_Swarm_listen_onPort ku_Swarm_destroy : kudb.

Lemma ku_call f arg : preserves keys_unique (call f arg).
Proof. destruct f; unfold call; unfold_prims; kpres. Qed.

Hint Resolve ku_call : kudb.

Lemma ku_run_listeners unregister ls arg :
  (forall l, preserves keys_unique (unregister l)) ->
  preserves keys_unique (run_listeners unregister ls arg).
Proof. intros Hu. induction ls as [|l ls IH]; simpl; kpres. Qed.

Lemma ku_handle e : preserves keys_unique (handle e).
Proof.
  assert (Hex : forall A (store : World -> list A) r m,
             preserves keys_unique m -> preserves keys_unique (on_existing store r m)).
  { intros A store r m Hm w H. unfold on_existing. case_bool_decide; [apply Hm, H | exact H]. }
  destruct e; unfold handle; try apply Hex;
    unfold Swarm_new, Swarm_pause, Swarm_resume, Swarm_remove, Swarm_listen,
      Socket_emit, Wire_emit; unfold_prims; kpres.
  all: apply ku_run_listeners; kpres.
Qed.

Lemma ku_step e w : keys_unique w -> keys_unique (step e w).
Proof.
  intros H. unfold step. destruct (crashed w); [exact H|].
  pose proof (ku_handle e w H) as H'.
  destruct (handle e w) as [w' [[]|msg]]; simpl in H'; [exact H'|].
  destruct H'. constructor; assumption.
Qed.

(** In every reachable state the dictionaries hold each key once. *)
Lemma ku_reachable w : reachable w -> keys_unique w.
Proof.
  induction 1 as [|w e _ IH].
  - constructor; constructor.
  - apply ku_step, IH.
Qed.

End KeysMethods.

(* ===================================================================== *)
(** ** Adding, dialling and removing peers *)
(* ===================================================================== *)

Section Dialling.
Import Eff Index.
Local Open Scope nat_scope.

(** The getter [numConns] returns [numConns_of] and changes nothing. *)
Lemma numConns_returns this w s :
  swarms w !! this = Some s ->
  Swarm_numConns this w = (w, Normal (numConns_of s (peers w))).
Proof. intros Hs. unfold Swarm_numConns. run_prims. rewrite Hs. reflexivity. Qed.


Lemma numConns_of_filter s ps :
  NoDup (JS.keys (Swarm._peers s)) ->
  numConns_of s ps = length (filter (fun kv => has_conn ps kv.2 = true) (Swarm._peers s)).
Proof.
  intros Hnd. unfold numConns_of.
  assert (Hgen : forall l : JS.obj string ref,
            (forall kv, kv ∈ l -> JS.get kv.1 (Swarm._peers s) = Some kv.2) ->
            foldl Nat.add 0
              (map (fun addr : string =>
                      match JS.get addr (Swarm._peers s) with
                      | Some peer => match ps !! peer with
                                     | Some (Peer.mk _ (Some _) _ _ _) => 1
                                     | _ => 0
                                     end
                      | None => 0
                      end) (JS.keys l))
            = length (filter (fun kv => has_conn ps kv.2 = true) l)).
  { induction l as [|[k v] l IH]; intros Hget; [reflexivity|].
    cbn [JS.keys fmap list_fmap map foldl fst]. rewrite foldl_add_shift.
    change (l.*1) with (JS.keys l). rewrite IH by (intros kv Hkv; apply Hget; right; exact Hkv).
    pose proof (Hget (k, v) ltac:(left)) as Hk. cbn [fst snd] in Hk. rewrite Hk.
    rewrite filter_cons. cbn [snd].
    assert (Hv : has_conn ps v = match ps !! v with
                                 | Some (Peer.mk _ (Some _) _ _ _) => true
                                 | _ => false
                                 end).
    { unfold has_conn. destruct (ps !! v) as [[a [c|] x t r]|]; reflexivity. }
    rewrite Hv. clear Hv.
    destruct (ps !! v) as [[a [c|] x t r]|]; cbn [Peer.conn].
    - rewrite decide_True by reflexivity. simpl. lia.
    - rewrite decide_False by discriminate. simpl. lia.
    - rewrite decide_False by discriminate. simpl. lia. }
  apply Hgen. intros [k v] Hkv. apply get_of_elem; assumption.
Qed.






(** [_remove] of a recorded address: the state after it. *)
Lemma remove_known (w : World) (this peer : ref) (s : Swarm.t) (p : Peer.t) (addr : string) :
  swarms w !! this = Some s -> JS.get addr (Swarm._peers s) = Some peer ->
  peers w !! peer = Some p ->
  Swarm__remove this addr w
  = (mkWorld (peers w) (sockets w)
       (match Peer.wire p with
        | Some wire => alter (Wire_set_destroyed true) wire (wireobjs w)
        | None => wireobjs w
        end)
       (match Peer.timeout p with
        | Some t => alter (fun x => mkTimer (delay x) (callback x) false) t (timers w)
        | None => timers w
        end)
       (onces w)
       (<[this := Swarm_set_peers (JS.delete addr (Swarm._peers s)) s]> (swarms w))
       (pools w) (Pool_pools w) (ticks w) (log w) (crashed w),
     Normal tt).
Proof.
  destruct w as [ps ss ws ts os sw po reg tk lg cr]. fields. intros Hs Hg Hp.
  unfold Swarm__remove, Peer.node. exec_all.
  rewrite bool_decide_eq_false_2 by (apply is_Some_None).
  rewrite (alter_lookup_insert _ _ _ _ Hs).
  destruct (Peer.timeout p), (Peer.wire p); reflexivity.
Qed.

(** X2: [add] is idempotent. After [add(addr)] on a swarm, in any state, a
    second [add(addr)] returns without changing anything: no second peer, no
    second dial. *)
Theorem add_twice_is_add_once (w : World) (this : ref) (s : Swarm.t) (addr : string) :
  swarms w !! this = Some s ->
  Swarm_add this addr (exec (Swarm_add this addr) w)
  = (exec (Swarm_add this addr) w, Normal tt).
Proof.
  intros Hs.
  assert (Hhas : swarm_has this (fun s => Swarm._destroyed s = true
                                    \/ is_Some (JS.get addr (Swarm._peers s))
                                    \/ validAddr addr = false)
                   (exec (Swarm_add this addr) w)).
  { unfold exec, Swarm_add.
    rewrite (bind_normal _ _ _ _ _ (deref_Some swarms _ _ _ Hs)).
    destruct (Swarm._destroyed s) eqn:Hd; [exists s; auto|]. cbn [orb].
    case_bool_decide as Hex; [exists s; auto|].
    destruct (validAddr addr) eqn:Hv; [|exists s; auto]. cbn [negb].
    unfold Peer_new.
    rewrite (bind_normal _ _ w _ (length (peers w))) by reflexivity.
    match goal with |- swarm_has _ _ ((?m1 ≫= fun _ => ?m2 ≫= fun _ => ?m3) ?w1).1 =>
      rewrite (bind_normal m1 _ w1 _ tt) by reflexivity;
      rewrite (bind_normal m2 _ _ _ tt) by reflexivity
    end.
    apply has_Swarm__drain; [intros v s0 H0; exact H0|].
    run_prims. fields. unfold swarm_has. fields.
    rewrite list_lookup_alter_eq, list_lookup_alter_eq, Hs.
    eexists. split; [reflexivity|]. right. left. cbn.
    rewrite get_set_eq. eauto. }
  destruct Hhas as (s' & Hs' & Hcase). unfold Swarm_add at 1.
  rewrite (bind_normal _ _ _ _ _ (deref_Some swarms _ _ _ Hs')).
  destruct (Swarm._destroyed s'); [reflexivity|]. cbn [orb].
  case_bool_decide as Hex; [reflexivity|].
  destruct Hcase as [Hd|[He|Hv]]; [discriminate|contradiction|].
  rewrite Hv. reflexivity.
Qed.

Lemma add_twice_is_add_once_witness :
  Swarm_add 0 "10.0.0.7:6881" (exec (Swarm_add 0 "10.0.0.7:6881") (run one_swarm init))
  = (exec (Swarm_add 0 "10.0.0.7:6881") (run one_swarm init), Normal tt)
  /\ dials (exec (Swarm_add 0 "10.0.0.7:6881") (run one_swarm init)) = 1.
Proof.
  split; [|vm_compute; reflexivity].
  eapply (add_twice_is_add_once (run one_swarm init) 0). vm_compute. reflexivity.
Defined.



(** X4: one call of [_drain] dials at most one peer and takes at most one
    peer off the queue, however long the queue is; on a paused swarm or an
    empty queue it changes nothing. *)
Theorem drain_one_at_a_time (w : World) (this : ref) (s : Swarm.t) :
  swarms w !! this = Some s ->
  dials (exec (Swarm__drain this) w) <= S (dials w)
  /\ (forall s', swarms (exec (Swarm__drain this) w) !! this = Some s' ->
                 length (Swarm._queue s) <= S (length (Swarm._queue s')))
  /\ (Swarm._paused s = true \/ Swarm._queue s = [] -> Swarm__drain this w = (w, Normal tt)).
Proof.
  intros Hs. unfold exec, Swarm__drain.
  rewrite (bind_normal _ _ _ _ _ (numConns_returns this w s Hs)).
  rewrite (bind_normal _ _ _ _ _ (deref_Some swarms _ _ _ Hs)).
  destruct (bool_decide (MAX_SIZE <= numConns_of s (peers w))) eqn:Hcap; cbn [orb].
  { split; [simpl; lia|]. split; [|reflexivity]. simpl. intros s'. rewrite Hs. intros [= <-]. lia. }
  destruct (Swarm._paused s) eqn:Hp.
  { split; [simpl; lia|]. split; [|reflexivity]. simpl. intros s'. rewrite Hs. intros [= <-]. lia. }
  destruct (Swarm._queue s) as [|peer rest] eqn:Hq; cbn [JS.shift].
  { split; [simpl; lia|]. split; [|reflexivity]. simpl. intros s'. rewrite Hs. intros [= <-]. simpl; lia. }
  split; [|split; [|intros [?|?]; discriminate]].
  - run_prims. fields.
    destruct (peers w !! peer) as [p|] eqn:Hpeer; [|unfold dials; fields; lia]. fields.
    destruct (Peer.timeout p) as [t|]; fields; unfold dials; fields;
      rewrite <- !app_assoc, List.filter_app, length_app; cbn; lia.
  - intros s'. run_prims. fields.
    destruct (peers w !! peer) as [p|] eqn:Hpeer; fields.
    + destruct (Peer.timeout p) as [t|]; fields;
        rewrite list_lookup_alter_eq, Hs; intros [= <-]; simpl; lia.
    + rewrite list_lookup_alter_eq, Hs; intros [= <-]; simpl; lia.
Qed.

Lemma drain_one_at_a_time_witness :
  dials (exec (Swarm__drain 0) (run one_queued init)) <= S (dials (run one_queued init))
  /\ Swarm__drain 0 (run queued_peer init) = (run queued_peer init, Normal tt).
Proof.
  split.
  - edestruct (drain_one_at_a_time (run one_queued init) 0) as (H & _).
    + vm_compute. reflexivity.
    + exact H.
  - edestruct (drain_one_at_a_time (run queued_peer init) 0) as (_ & _ & H).
    + vm_compute. reflexivity.
    + apply H. left. reflexivity.
Defined.



(** X6: in every reachable state [numConns] changes nothing and returns the
    number of entries of [_peers] whose peer has a connection; it is at most
    the number of recorded peers. *)
Theorem numConns_counts_recorded_peers (w : World) (this : ref) (s : Swarm.t) :
  reachable w -> swarms w !! this = Some s ->
  exists n, Swarm_numConns this w = (w, Normal n)
    /\ n = length (filter (fun kv => has_conn (peers w) kv.2 = true) (Swarm._peers s))
    /\ n <= length (Swarm._peers s).
Proof.
  intros Hr Hs. exists (numConns_of s (peers w)).
  split; [apply numConns_returns, Hs|].
  assert (Hnd : NoDup (JS.keys (Swarm._peers s))).
  { pose proof (ku_peers _ (ku_reachable w Hr)) as H. rewrite Forall_lookup in H.
    exact (H _ _ Hs). }
  split; [apply numConns_of_filter, Hnd|].
  rewrite (numConns_of_filter s _ Hnd). apply length_filter.
Qed.

Lemma numConns_counts_recorded_peers_witness :
  Swarm_numConns 0 (run queued_behind_conn init) = (run queued_behind_conn init, Normal 1)
  /\ Swarm._peers <$> swarms (run queued_behind_conn init)
     = [[("10.0.0.7:6881", 0); ("10.0.0.8:6881", 1)]].
Proof.
  split; [|vm_compute; reflexivity].
  edestruct (numConns_counts_recorded_peers (run queued_behind_conn init) 0) as (n & Hn & Hc & _).
  - apply reachable_run. constructor.
  - vm_compute. reflexivity.
  - rewrite Hn, Hc. vm_compute. reflexivity.
Defined.

(** X7: [_remove] of a recorded address deletes the entry of [_peers],
    cancels the timer of the peer and destroys its wire. That is all: the
    queue is left as it is (a queued peer stays queued), the socket of the
    peer is not touched, and nothing is emitted. *)
Theorem remove_cancels_timer_and_destroys_wire (w : World) (this peer : ref) (s : Swarm.t)
    (p : Peer.t) (addr : string) :
  swarms w !! this = Some s -> JS.get addr (Swarm._peers s) = Some peer ->
  peers w !! peer = Some p ->
  exists w', Swarm__remove this addr w = (w', Normal tt)
    /\ (exists s', swarms w' !! this = Some s'
          /\ Swarm._peers s' = JS.delete addr (Swarm._peers s)
          /\ JS.get addr (Swarm._peers s') = None
          /\ Swarm._queue s' = Swarm._queue s)
    /\ (forall t, Peer.timeout p = Some t -> t < length (timers w) ->
                  pending <$> timers w' !! t = Some false)
    /\ (forall wire, Peer.wire p = Some wire -> wire < length (wireobjs w) ->
                     Wire.destroyed <$> wireobjs w' !! wire = Some true)
    /\ peers w' = peers w /\ sockets w' = sockets w /\ log w' = log w
    /\ crashed w' = crashed w.
Proof.
  intros Hs Hg Hp. eexists. split; [apply (remove_known w this peer s p addr Hs Hg Hp)|].
  fields. split; [|split; [|split]].
  - eexists. split; [apply list_lookup_insert_eq; eapply lookup_lt_Some, Hs|].
    records. split; [reflexivity|]. split; [apply get_delete | reflexivity].
  - intros t -> Hlt. rewrite list_lookup_alter_eq.
    destruct (lookup_lt_is_Some_2 _ _ Hlt) as [x ->]. reflexivity.
  - intros wire -> Hlt. rewrite list_lookup_alter_eq.
    destruct (lookup_lt_is_Some_2 _ _ Hlt) as [x ->]. reflexivity.
  - repeat split; reflexivity.
Qed.

Lemma remove_cancels_timer_and_destroys_wire_witness :
  (exists w', Swarm__remove 0 "10.0.0.7:6881" (run awaiting_redial init) = (w', Normal tt)
     /\ pending <$> timers (run awaiting_redial init) !! 1 = Some true
     /\ pending <$> timers w' !! 1 = Some false)
  /\ (exists w', Swarm__remove 0 "10.0.0.7:6881" (run queued_behind_conn init) = (w', Normal tt)
        /\ Wire.destroyed <$> wireobjs w' !! 0 = Some true
        /\ Socket.destroyed <$> sockets w' !! 0 = Some false).
Proof.
  split.
  - edestruct (remove_cancels_timer_and_destroys_wire (run awaiting_redial init) 0 0)
      with (addr := "10.0.0.7:6881") as (w' & Hrun & _ & Ht & _).
    + vm_compute. reflexivity.
    + vm_compute. reflexivity.
    + vm_compute. reflexivity.
    + exists w'. split; [exact Hrun|]. split; [vm_compute; reflexivity|].
      apply Ht; [vm_compute; reflexivity | vm_compute; lia].
  - edestruct (remove_cancels_timer_and_destroys_wire (run queued_behind_conn init) 0 0)
      with (addr := "10.0.0.7:6881") as (w' & Hrun & _ & _ & Hw & _ & Hsock & _).
    + vm_compute. reflexivity.
    + vm_compute. reflexivity.
    + vm_compute. reflexivity.
    + exists w'. split; [exact Hrun|]. split.
      * apply Hw; [vm_compute; reflexivity | vm_compute; lia].
      * rewrite Hsock. vm_compute. reflexivity.
Defined.



End Dialling.

(* ===================================================================== *)
(** ** What never changes in the life of a swarm *)
(* ===================================================================== *)

Section Lifetime.
Import Eff Index.
Local Open Scope nat_scope.

Lemma add_on_destroyed this addr w :
  swarm_has this (fun s => Swarm._destroyed s = true) w ->
  Swarm_add this addr w = (w, Normal tt).
Proof.
  intros (s & Hs & Hd). unfold Swarm_add.
  rewrite (bind_normal _ _ _ _ _ (deref_Some swarms _ _ _ Hs)), Hd. reflexivity.
Qed.

(** X9: [_destroyed] is a one-way flag. Once a swarm is destroyed it stays
    destroyed through every later call and event ([resume], [listen], timers,
    sockets, ...), and [add] on it changes nothing. *)
Theorem destroyed_is_forever (w : World) (this : ref) (s : Swarm.t) (es : list Event) :
  swarms w !! this = Some s -> Swarm._destroyed s = true ->
  (exists s', swarms (run es w) !! this = Some s' /\ Swarm._destroyed s' = true)
  /\ forall addr, Swarm_add this addr (run es w) = (run es w, Normal tt).
Proof.
  intros Hs Hd.
  assert (H : swarm_has this (fun s => Swarm._destroyed s = true) (run es w)).
  { apply has_run; try (intros; assumption); [reflexivity|]. exists s. auto. }
  split; [exact H|]. intros addr. apply add_on_destroyed, H.
Qed.

Lemma destroyed_is_forever_witness :
  Swarm._destroyed <$> swarms (run destroyed_then_busy (run destroy_twice init)) = [true]
  /\ peers (exec (Swarm_add 0 "10.0.0.7:6881") (run destroyed_then_busy (run destroy_twice init)))
     = [].
Proof.
  edestruct (destroyed_is_forever (run destroy_twice init) 0) with (es := destroyed_then_busy)
    as [(s' & Hs' & Hd') Hadd].
  - vm_compute. reflexivity.
  - reflexivity.
  - split; [vm_compute; reflexivity|].
    unfold exec. rewrite Hadd. vm_compute. reflexivity.
Defined.

(** X10: the identity of a swarm is fixed. No call and no event changes the
    [infoHash] or the [peerId] given to the constructor, and the swarm object
    stays in place. *)
Theorem swarm_identity_is_fixed (w : World) (this : ref) (s : Swarm.t) (es : list Event) :
  swarms w !! this = Some s ->
  exists s', swarms (run es w) !! this = Some s'
             /\ Swarm.infoHash s' = Swarm.infoHash s /\ Swarm.peerId s' = Swarm.peerId s.
Proof.
  intros Hs.
  apply (has_run this (fun s' => Swarm.infoHash s' = Swarm.infoHash s
                                 /\ Swarm.peerId s' = Swarm.peerId s));
    try (intros; assumption).
  exists s. auto.
Qed.

Lemma swarm_identity_is_fixed_witness :
  Swarm._destroyed <$> swarms (run busy (run one_swarm init)) !! 0 = Some true
  /\ Swarm.infoHash <$> swarms (run busy (run one_swarm init)) !! 0 = Some torrent
  /\ Swarm.peerId <$> swarms (run busy (run one_swarm init)) !! 0 = Some us.
Proof.
  split; [vm_compute; reflexivity|].
  edestruct (swarm_identity_is_fixed (run one_swarm init) 0) with (es := busy)
    as (s' & Hs' & Hi & Hp).
  - vm_compute. reflexivity.
  - rewrite Hs'. cbn [fmap option_fmap option_map]. rewrite Hi, Hp. split; reflexivity.
Defined.

End Lifetime.

(* ===================================================================== *)
(** ** The pool of a port and its member swarms *)
(* ===================================================================== *)

Section PoolMembers.
Import Eff Index.
Local Open Scope nat_scope.



(** [conns.forEach(function (conn) { conn.destroy() })] *)
Lemma destroy_all cs : forall w,
  exists S', for_each cs (fun c w0 =>
               (with_sockets (alter (Socket_set_destroyed true) c (sockets w0)) w0, Normal tt)) w
             = (with_sockets S' w, Normal tt)
    /\ length S' = length (sockets w)
    /\ (forall c x, sockets w !! c = Some x -> Socket.destroyed x = true ->
                    Socket.destroyed <$> S' !! c = Some true)
    /\ (forall c, c ∈ cs -> c < length (sockets w) -> Socket.destroyed <$> S' !! c = Some true).
Proof.
  induction cs as [|c cs IH]; intros w.
  - exists (sockets w). split; [destruct w; reflexivity|]. split; [reflexivity|]. split.
    + intros c x Hx Hd. rewrite Hx. simpl. congruence.
    + intros c Hc. inversion Hc.
  - destruct (IH (with_sockets (alter (Socket_set_destroyed true) c (sockets w)) w))
      as (S' & Hrun & Hlen & Hkeep & Hall).
    exists S'. fields. rewrite length_alter in *. split; [|split; [exact Hlen|split]].
    + simpl. unfold mbind, M_bind. rewrite Hrun. reflexivity.
    + intros c0 x Hx Hd. destruct (decide (c0 = c)) as [->|Hne].
      * apply (Hkeep c (Socket_set_destroyed true x)); [|reflexivity].
        rewrite list_lookup_alter_eq, Hx. reflexivity.
      * apply (Hkeep c0 x); [|exact Hd]. rewrite list_lookup_alter_ne by congruence. exact Hx.
    + intros c0 Hc0 Hlt. apply elem_of_cons in Hc0 as [->|Hin].
      * destruct (lookup_lt_is_Some_2 _ _ Hlt) as [x Hx].
        apply (Hkeep c (Socket_set_destroyed true x)); [|reflexivity].
        rewrite list_lookup_alter_eq, Hx. reflexivity.
      * apply Hall; [exact Hin|]. exact Hlt.
Qed.

(** X12: [Pool.remove(swarm)] finds the pool by [swarm.port] and deletes the
    member recorded under the info-hash of the swarm, whichever swarm that
    is. While members remain, nothing else changes. When the last member
    goes, the pool leaves the registry, stops listening, closes its server
    and destroys every connection it holds. *)
Theorem Pool_remove_by_info_hash (w : World) (this pool : ref) (s : Swarm.t) (p : Pool.t) :
  swarms w !! this = Some s ->
  JS.get (Swarm.port s) (Pool_pools w) = Some pool -> pools w !! pool = Some p ->
  exists w', Pool_remove this w = (w', Normal tt)
    /\ (exists p', pools w' !! pool = Some p'
          /\ Pool.swarms p' = JS.delete (Swarm.infoHash s) (Pool.swarms p))
    /\ (JS.delete (Swarm.infoHash s) (Pool.swarms p) <> [] ->
        Pool_pools w' = Pool_pools w /\ log w' = log w /\ sockets w' = sockets w
        /\ Pool.listening <$> pools w' !! pool = Some (Pool.listening p))
    /\ (JS.delete (Swarm.infoHash s) (Pool.swarms p) = [] ->
        JS.get (Swarm.port s) (Pool_pools w') = None
        /\ log w' = log w ++ [ServerClose pool]
        /\ Pool.listening <$> pools w' !! pool = Some false
        /\ forall c, c ∈ Pool.conns p -> c < length (sockets w) ->
                     Socket.destroyed <$> sockets w' !! c = Some true).
Proof.
  intros Hs Hreg Hp. unfold Pool_remove, Pool_removeSwarm.
  exec_all.
  destruct (JS.delete (Swarm.infoHash s) (Pool.swarms p)) as [|kv o] eqn:Hdel.
  - rewrite bool_decide_eq_true_2 by reflexivity.
    unfold Pool_destroy. exec_all. rewrite ?Hdel. records.
    match goal with |- context [for_each ?cs _ ?wa] =>
      destruct (destroy_all cs wa) as (S' & HS & Hlen & Hkeep & Hall); rewrite HS end.
    repeat exec_step. rewrite ?Hdel. cbn [JS.keys fmap list_fmap length].
    rewrite bool_decide_eq_true_2 by reflexivity.
    eexists. split; [reflexivity|]. repeat exec_step.
    split; [eexists; split; [reflexivity|records; rewrite ?Hdel; reflexivity]|].
    split; [intros Hne; contradiction|]. intros _.
    split; [apply get_delete|]. split; [reflexivity|]. split; [reflexivity|].
    intros c Hc Hlt. apply Hall; assumption.
  - rewrite bool_decide_eq_false_2 by (cbn; lia).
    repeat exec_step. rewrite ?Hdel. cbn [JS.keys fmap list_fmap length].
    rewrite bool_decide_eq_false_2 by lia.
    eexists. split; [reflexivity|]. repeat exec_step.
    split; [eexists; split; [reflexivity|records; rewrite ?Hdel; reflexivity]|].
    split; [|intros Hnil; discriminate]. intros _. repeat split; reflexivity.
Qed.

Lemma Pool_remove_by_info_hash_witness :
  Pool.swarms <$> pools (run duplicate_rejected init) = [[(torrent, 0)]]
  /\ exists w', Pool_remove 1 (run duplicate_rejected init) = (w', Normal tt)
       /\ Pool.swarms <$> pools w' !! 0 = Some []
       /\ log w' = log (run duplicate_rejected init) ++ [ServerClose 0].
Proof.
  split; [vm_compute; reflexivity|].
  edestruct (Pool_remove_by_info_hash (run duplicate_rejected init) 1 0)
    as (w' & Hrun & (p' & Hp' & Hsw) & _ & Hlast).
  - vm_compute. reflexivity.
  - vm_compute. reflexivity.
  - vm_compute. reflexivity.
  - exists w'. split; [exact Hrun|]. split.
    + rewrite Hp'. cbn [fmap option_fmap option_map]. rewrite Hsw. vm_compute. reflexivity.
    + apply Hlast. vm_compute. reflexivity.
Defined.




(** X14: one round of the retry of a bind. When the server of a pool fails
    with EADDRINUSE and fewer than five retries were made, the pool logs the
    fact and arms a timer of 1000 ms, changing nothing else; when that timer
    fires, the pool closes the server, counts the retry and listens on its
    port again. No swarm is told. *)
Theorem eaddrinuse_retry_cycle (w : World) (this : ref) (p : Pool.t) :
  crashed w = None -> pools w !! this = Some p -> Pool._retries p < 5 ->
  let w1 := step (Server_error this "EADDRINUSE") w in
  let w2 := step (Timer_fires (length (timers w))) w1 in
  timers w1 = timers w ++ [mkTimer 1000 (Pool_retry this) true]
  /\ pools w1 = pools w
  /\ log w1 = log w ++ [Console "Address in use, retrying..."]
  /\ pools w2 = <[this := Pool_set_retries (S (Pool._retries p)) p]> (pools w)
  /\ log w2 = log w1 ++ [ServerClose this; ServerListen this (Pool.port p)]
  /\ timers w2 = timers w ++ [mkTimer 1000 (Pool_retry this) false]
  /\ swarms w2 = swarms w /\ crashed w2 = None.
Proof.
  destruct w as [ps ss ws ts os sw po reg tk lg cr]. fields. intros -> Hp Hlt. cbv zeta.
  assert (Hw1 : step (Server_error this "EADDRINUSE") (mkWorld ps ss ws ts os sw po reg tk lg None)
                = mkWorld ps ss ws (ts ++ [mkTimer 1000 (Pool_retry this) true]) os sw po reg tk
                    (lg ++ [Console "Address in use, retrying..."]) None).
  { unfold step. fields. unfold handle, on_existing. fields.
    rewrite bool_decide_eq_true_2 by (eapply lookup_lt_Some, Hp).
    unfold Pool__onerror. run_prims. fields. rewrite Hp.
    rewrite bool_decide_eq_true_2 by reflexivity.
    rewrite bool_decide_eq_true_2 by exact Hlt. reflexivity. }
  rewrite Hw1. fields.
  split; [reflexivity|]. split; [reflexivity|]. split; [reflexivity|].
  unfold step. fields. unfold handle. run_prims. fields.
  rewrite lookup_snoc_new. unfold fired, call. run_prims. run_prims. repeat exec_step.
  rewrite alter_app_r_alt by lia. rewrite Nat.sub_diag. cbn [alter list_alter]. records.
  rewrite (alter_lookup_insert _ _ _ _ Hp). rewrite <- app_assoc.
  replace (Pool._retries p + 1) with (S (Pool._retries p)) by lia.
  repeat split; reflexivity.
Qed.

Lemma eaddrinuse_retry_cycle_witness :
  log (run (bind_retry 0) (run bound_pool init))
  = [ServerListen 0 6881%N; Console "Address in use, retrying...";
     ServerClose 0; ServerListen 0 6881%N]
  /\ Pool._retries <$> pools (run (bind_retry 0) (run bound_pool init)) = [1].
Proof.
  edestruct (eaddrinuse_retry_cycle (run bound_pool init) 0)
    as (_ & _ & Hlog1 & Hpools & Hlog2 & _).
  - reflexivity.
  - vm_compute. reflexivity.
  - vm_compute. lia.
  - change (run (bind_retry 0) (run bound_pool init))
      with (step (Timer_fires (length (timers (run bound_pool init))))
              (step (Server_error 0 "EADDRINUSE") (run bound_pool init))).
    rewrite Hlog2, Hlog1, Hpools. split; vm_compute; reflexivity.
Defined.

(** X15: the 'close' listener that the pool puts on an accepted connection
    takes the connection off [pool.conns] with [splice(indexOf(conn))], which
    has no delete count: every connection accepted after it is dropped from
    the list as well. When the connection is not on the list any more, the
    last one of the list is dropped instead. *)
Theorem conn_close_truncates_conns (w : World) (pool conn : ref) (p : Pool.t) (arg : Value) :
  pools w !! pool = Some p ->
  (forall l1 l2, Pool.conns p = l1 ++ conn :: l2 -> conn ∉ l1 ->
     call (Pool_conn_close pool conn) arg w
     = (with_pools (<[pool := Pool_set_conns l1 p]> (pools w)) w, Normal tt))
  /\ (conn ∉ Pool.conns p ->
      call (Pool_conn_close pool conn) arg w
      = (with_pools (<[pool := Pool_set_conns (removelast (Pool.conns p)) p]> (pools w)) w,
         Normal tt)).
Proof.
  intros Hp. split.
  - intros l1 l2 Hc Hnot. unfold call. run_prims.
    rewrite (alter_lookup_insert _ _ _ _ Hp), Hc, (indexOf_first conn l1 l2 Hnot).
    rewrite splice_from_first. reflexivity.
  - intros Hnot. unfold call. run_prims.
    rewrite (alter_lookup_insert _ _ _ _ Hp), (indexOf_absent conn _ Hnot).
    rewrite splice_from_minus_one. reflexivity.
Qed.

Lemma conn_close_truncates_conns_witness :
  Pool.conns <$> pools (run three_conns init) = [[0; 1; 2]]
  /\ Pool.conns <$> pools (exec (call (Pool_conn_close 0 0) VUndefined) (run three_conns init))
     = [[]]
  /\ Pool.conns <$> pools (exec (call (Pool_conn_close 0 7) VUndefined) (run three_conns init))
     = [[0; 1]].
Proof.
  split; [vm_compute; reflexivity|].
  edestruct (conn_close_truncates_conns (run three_conns init) 0 0) with (arg := VUndefined)
    as [Hin _]; [vm_compute; reflexivity|].
  edestruct (conn_close_truncates_conns (run three_conns init) 0 7) with (arg := VUndefined)
    as [_ Hout]; [vm_compute; reflexivity|].
  unfold exec. split.
  - rewrite (Hin [] [1; 2]); [vm_compute; reflexivity | vm_compute; reflexivity |].
    apply not_elem_of_nil.
  - rewrite Hout; [vm_compute; reflexivity|].
    apply (bool_decide_unpack _). vm_compute. exact I.
Defined.

End PoolMembers.

(* ===================================================================== *)
(** ** Handshakes and wires *)
(* ===================================================================== *)

Section Handshakes.
Import Eff Index.
Local Open Scope nat_scope.

(** The pool accepts a connection: the state after [_onconn]. *)
Lemma accept_connection w pool p ip port :
  crashed w = None -> pools w !! pool = Some p ->
  let conn := length (sockets w) in
  let peer := length (peers w) in
  let wire := length (wireobjs w) in
  let addr := ip +:+ ":" +:+ port in
  step (Server_connection pool ip port) w
  = mkWorld
      (peers w ++ [Peer.mk addr (Some conn) (Some wire) None 0])
      (sockets w ++
         [Socket.mk (Some ip) (Some port) false
            [mkListener "close" false (Pool_conn_close pool conn);
             mkListener "end" true (Peer_conn_end (length (onces w)) peer);
             mkListener "error" true (Peer_conn_end (length (onces w)) peer);
             mkListener "close" true (Peer_conn_close wire)]])
      (wireobjs w ++
         [Wire.mk (Some addr) false false
            [mkListener "end" true (Peer_wire_end peer);
             mkListener "handshake" false (Pool_onhandshake pool peer conn (length (timers w)))]])
      (timers w ++ [mkTimer HANDSHAKE_TIMEOUT (Pool_timeout conn) true])
      (onces w ++ [false])
      (swarms w)
      (<[pool := Pool_set_conns (Pool.conns p ++ [conn]) p]> (pools w))
      (Pool_pools w) (ticks w) (log w) None.
Proof.
  destruct w as [ps ss ws ts os sw po reg tk lg cr]. fields.
  intros Hc Hp. subst cr. unfold step. fields.
  unfold handle, on_existing. fields. rewrite bool_decide_eq_true_2 by (eapply lookup_lt_Some, Hp).
  unfold Pool__onconn, Peer_onconnect, Peer_new. run_prims. repeat exec_step.
  cbn [to_str default].
  rewrite !alter_app_r_alt by lia. rewrite !Nat.sub_diag. cbn [alter list_alter].
  records. rewrite (alter_lookup_insert _ _ _ _ Hp).
  reflexivity.
Qed.

(** X16: an incoming connection is routed by the info-hash of its handshake.
    The pool makes a peer for the connection under the address
    [remoteAddress:remotePort] and arms the handshake timer; the handshake
    cancels the timer. When the pool has no swarm of the info-hash, the
    connection is destroyed and no swarm changes; when it has one, that swarm
    records the peer under its address, answers with its own handshake,
    takes the wire and emits 'wire'. *)
Theorem incoming_handshake_routes_by_info_hash (w : World) (pool : ref) (p : Pool.t)
    (ip port infoHash : string) :
  crashed w = None -> pools w !! pool = Some p ->
  let conn := length (sockets w) in
  let peer := length (peers w) in
  let wire := length (wireobjs w) in
  let w' := run [Server_connection pool ip port;
                 Wire_event wire "handshake" (VString infoHash)] w in
  pending <$> timers w' !! length (timers w) = Some false
  /\ peers w' !! peer = Some (Peer.mk (ip +:+ ":" +:+ port) (Some conn) (Some wire) None 0)
  /\ (JS.get infoHash (Pool.swarms p) = None ->
      crashed w' = None
      /\ Socket.destroyed <$> sockets w' !! conn = Some true
      /\ swarms w' = swarms w /\ log w' = log w)
  /\ (forall this s, JS.get infoHash (Pool.swarms p) = Some this -> swarms w !! this = Some s ->
      crashed w' = None
      /\ Socket.destroyed <$> sockets w' !! conn = Some false
      /\ swarms w' = <[this := Swarm_set_wires (Swarm.wires s ++ [wire])
                                 (Swarm_set_peers
                                    (JS.set (ip +:+ ":" +:+ port) peer (Swarm._peers s)) s)]>
                       (swarms w)
      /\ log w' = log w ++ [WireHandshake wire (Swarm.infoHash s) (Swarm.peerId s);
                            Emit this "wire" (VRef wire)]).
Proof.
  intros Hc Hp conn peer wire w'. subst w'. cbn [run foldl].
  rewrite (accept_connection w pool p ip port Hc Hp).
  destruct w as [ps ss ws ts os sw po reg tk lg cr]. fields. subst cr conn peer wire.
  unfold step, handle, on_existing. fields.
  rewrite bool_decide_eq_true_2 by (rewrite length_app; simpl; lia).
  unfold Wire_emit. run_prims. fields. rewrite lookup_snoc_new. records.
  unfold listening_to. rewrite !filter_cons. records. cbn [l_event].
  rewrite decide_False by discriminate. rewrite decide_True by reflexivity.
  rewrite filter_nil. cbn [run_listeners l_once l_fn when call].
  run_prims. fields.
  rewrite list_lookup_insert_eq by (eapply lookup_lt_Some, Hp). records.
  destruct (JS.get infoHash (Pool.swarms p)) as [this|] eqn:Hg.
  - unfold Swarm__onincoming, Swarm__onconn, Swarm__onwire. run_prims. run_prims.
    destruct (sw !! this) as [s|] eqn:Hs.
    + repeat exec_step. cbn [to_str default id].
      split; [reflexivity|]. split; [reflexivity|].
      split; [discriminate|]. intros this' s' [= <-]. rewrite Hs. intros [= <-].
      split; [reflexivity|]. split; [reflexivity|]. split; [|rewrite <- app_assoc; reflexivity].
      rewrite list_alter_alter_eq. rewrite (alter_lookup_insert _ _ _ _ Hs). reflexivity.
    + repeat exec_step. rewrite Hs. repeat exec_step.
      split; [reflexivity|]. split; [reflexivity|].
      split; [discriminate|]. intros this' s' [= <-]. rewrite Hs. discriminate.
  - repeat exec_step.
    split; [reflexivity|]. split; [reflexivity|].
    split; [|intros this s; discriminate]. intros _. repeat split; reflexivity.
Qed.

Lemma incoming_handshake_routes_by_info_hash_witness :
  log (run [Server_connection 0 "10.0.0.1" "2000"; Wire_event 0 "handshake" (VString torrent)]
         (run listening_pool init))
  = log (run listening_pool init) ++ [WireHandshake 0 torrent us; Emit 0 "wire" (VRef 0)]
  /\ Socket.destroyed
       <$> sockets (run [Server_connection 0 "10.0.0.1" "2000";
                         Wire_event 0 "handshake" (VString other_torrent)]
                      (run listening_pool init)) !! 0
     = Some true.
Proof.
  assert (Hc : crashed (run listening_pool init) = None) by reflexivity.
  assert (Hp : pools (run listening_pool init) !! 0
               = Some (Pool.mk 6881%N [(torrent, 0)] true [] 0)) by (vm_compute; reflexivity).
  split.
  - pose proof (incoming_handshake_routes_by_info_hash _ _ _ "10.0.0.1" "2000" torrent Hc Hp)
      as H.
    cbv zeta in H. destruct H as (_ & _ & _ & Hknown).
    edestruct (Hknown 0) as (_ & _ & _ & Hlog).
    + vm_compute. reflexivity.
    + vm_compute. reflexivity.
    + change (length (wireobjs (run listening_pool init))) with 0 in Hlog. exact Hlog.
  - pose proof (incoming_handshake_routes_by_info_hash _ _ _ "10.0.0.1" "2000" other_torrent
                  Hc Hp) as H.
    cbv zeta in H. destruct H as (_ & _ & Hunknown & _).
    destruct Hunknown as (_ & Hd & _); [vm_compute; reflexivity|].
    change (length (wireobjs (run listening_pool init))) with 0 in Hd.
    change (length (sockets (run listening_pool init))) with 0 in Hd. exact Hd.
Defined.

(** X17: an outbound dial checks the info-hash of the remote handshake. When
    the socket of a dial connects, the swarm sends its handshake at once. The
    remote handshake cancels the handshake timer; with another info-hash the
    connection is destroyed and the swarm does not change, with the info-hash
    of the swarm the wire joins [wires], 'wire' is emitted and [retries] is
    reset to 0. *)
Theorem outgoing_handshake_checks_info_hash (w : World) (this peer conn timeout : ref)
    (s : Swarm.t) (p : Peer.t) (c : Socket.t) (tm : Timer) (infoHash : string) :
  crashed w = None -> swarms w !! this = Some s -> peers w !! peer = Some p ->
  sockets w !! conn = Some c ->
  Socket.listeners c = [mkListener "connect" false (Drain_onconnect this peer conn timeout);
                        mkListener "error" false (Drain_conn_error peer)] ->
  Socket.destroyed c = false ->
  timers w !! timeout = Some tm ->
  let wire := length (wireobjs w) in
  let w1 := step (Socket_event conn "connect") w in
  let w2 := step (Wire_event wire "handshake" (VString infoHash)) w1 in
  log w1 = log w ++ [WireHandshake wire (Swarm.infoHash s) (Swarm.peerId s)]
  /\ peers w1 = <[peer := Peer_set_wire (Some wire) (Peer_set_conn (Some conn) p)]> (peers w)
  /\ crashed w2 = None
  /\ pending <$> timers w2 !! timeout = Some false
  /\ (infoHash <> Swarm.infoHash s ->
      Socket.destroyed <$> sockets w2 !! conn = Some true
      /\ swarms w2 = swarms w /\ log w2 = log w1)
  /\ (infoHash = Swarm.infoHash s ->
      Socket.destroyed <$> sockets w2 !! conn = Some false
      /\ swarms w2 = <[this := Swarm_set_wires (Swarm.wires s ++ [wire]) s]> (swarms w)
      /\ log w2 = log w1 ++ [Emit this "wire" (VRef wire)]
      /\ Peer.retries <$> peers w2 !! peer = Some 0).
Proof.
  destruct w as [ps ss ws ts os sw po reg tk lg cr]. fields.
  intros -> Hs Hp Hc Hls Hd Ht. cbv zeta.
  assert (Hconn_lt : conn < length ss) by (eapply lookup_lt_Some, Hc).
  (* the socket connects *)
  set (w1 := step (Socket_event conn "connect") _).
  assert (Hw1 :
    peers w1 = <[peer := Peer_set_wire (Some (length ws)) (Peer_set_conn (Some conn) p)]> ps
    /\ length (sockets w1) = length ss
    /\ Socket.destroyed <$> sockets w1 !! conn = Some false
    /\ (exists ws1, wireobjs w1 = ws ++ [ws1]
          /\ Wire.listeners ws1
             = [mkListener "end" true (Peer_wire_end peer);
                mkListener "handshake" false (Drain_onhandshake this peer timeout);
                mkListener "end" false (Drain_wire_end this peer (length ws))])
    /\ timers w1 = ts /\ swarms w1 = sw
    /\ log w1 = lg ++ [WireHandshake (length ws) (Swarm.infoHash s) (Swarm.peerId s)]
    /\ crashed w1 = None).
  { subst w1. unfold step, handle, on_existing. fields.
    rewrite bool_decide_eq_true_2 by exact Hconn_lt.
    unfold Socket_emit. run_prims. fields. rewrite Hc, Hls.
    unfold listening_to. rewrite !filter_cons, filter_nil. cbn [l_event].
    rewrite decide_True by reflexivity. rewrite decide_False by discriminate.
    cbn [run_listeners l_once l_fn when call].
    unfold Peer_onconnect, Swarm__onconn. run_prims. run_prims.
    repeat exec_step.
    rewrite !alter_app_r_alt by lia. rewrite !Nat.sub_diag. cbn [alter list_alter]. records.
    rewrite !list_alter_alter_eq.
    split; [rewrite (alter_lookup_insert _ _ _ _ Hp); reflexivity|].
    split; [reflexivity|].
    split; [rewrite Hd; reflexivity|].
    split; [eexists; split; reflexivity|].
    repeat split; reflexivity. }
  destruct Hw1 as (Hps1 & Hlen1 & Hd1 & (ws1 & Hws1 & Hls1) & Hts1 & Hsw1 & Hlg1 & Hcr1).
  clearbody w1. destruct w1 as [ps1 ss1 wss1 ts1 os1 sw1 po1 reg1 tk1 lg1 cr1]. fields. subst.
  split; [reflexivity|]. split; [reflexivity|].
  assert (Hpeer_lt : peer < length ps) by (eapply lookup_lt_Some, Hp).
  destruct (ss1 !! conn) as [c1|] eqn:Hc1; [|discriminate]. injection Hd1 as Hd1.
  unfold step, handle, on_existing. fields.
  rewrite bool_decide_eq_true_2 by (rewrite length_app; simpl; lia).
  unfold Wire_emit. run_prims. fields. rewrite lookup_snoc_new, Hls1.
  unfold listening_to. rewrite !filter_cons, filter_nil. cbn [l_event].
  rewrite decide_False by discriminate. rewrite decide_True by reflexivity.
  rewrite decide_False by discriminate.
  cbn [run_listeners l_once l_fn when call].
  unfold Swarm__onwire. run_prims. run_prims. fields. rewrite Hs. fields.
  destruct (decide (infoHash = Swarm.infoHash s)) as [->|Hne].
  - rewrite bool_decide_eq_false_2 by (intros H; apply H; reflexivity).
    repeat exec_step.
    rewrite list_lookup_insert_eq by exact Hpeer_lt. repeat exec_step.
    rewrite list_lookup_insert_eq by exact Hpeer_lt. repeat exec_step.
    destruct (lookup_lt_is_Some_2 ts timeout (lookup_lt_Some _ _ _ Ht)) as [tm' Htm'].
    split; [reflexivity|]. split; [reflexivity|].
    split; [intros Hne; contradiction|]. intros _.
    rewrite Hd1.
    split; [reflexivity|].
    split; [rewrite (alter_lookup_insert _ _ _ _ Hs); reflexivity|].
    split; reflexivity.
  - rewrite bool_decide_eq_true_2 by exact Hne.
    repeat exec_step.
    rewrite list_lookup_insert_eq by exact Hpeer_lt. repeat exec_step.
    destruct (lookup_lt_is_Some_2 ts timeout (lookup_lt_Some _ _ _ Ht)) as [tm' Htm'].
    split; [reflexivity|]. split; [reflexivity|].
    split; [|intros Heq; contradiction]. intros _. repeat split; reflexivity.
Qed.

Lemma outgoing_handshake_checks_info_hash_witness :
  log (run [Socket_event 0 "connect"; Wire_event 0 "handshake" (VString torrent)]
         (run first_dial init))
  = log (run first_dial init) ++ [WireHandshake 0 torrent us; Emit 0 "wire" (VRef 0)]
  /\ Socket.destroyed
       <$> sockets (run [Socket_event 0 "connect";
                         Wire_event 0 "handshake" (VString other_torrent)]
                      (run first_dial init)) !! 0
     = Some true.
Proof.
  split.
  - edestruct (outgoing_handshake_checks_info_hash (run first_dial init) 0 0 0 0)
      with (infoHash := torrent) as (Hlog1 & _ & _ & _ & _ & Hgood).
    + reflexivity.
    + vm_compute. reflexivity.
    + vm_compute. reflexivity.
    + vm_compute. reflexivity.
    + reflexivity.
    + reflexivity.
    + vm_compute. reflexivity.
    + destruct (Hgood eq_refl) as (_ & _ & Hlog2 & _).
      change (length (wireobjs (run first_dial init))) with 0 in Hlog1, Hlog2.
      change (run [Socket_event 0 "connect"; Wire_event 0 "handshake" (VString torrent)]
                (run first_dial init))
        with (step (Wire_event 0 "handshake" (VString torrent))
                (step (Socket_event 0 "connect") (run first_dial init))).
      rewrite Hlog2, Hlog1, <- app_assoc. reflexivity.
  - edestruct (outgoing_handshake_checks_info_hash (run first_dial init) 0 0 0 0)
      with (infoHash := other_torrent) as (_ & _ & _ & _ & Hbad & _).
    + reflexivity.
    + vm_compute. reflexivity.
    + vm_compute. reflexivity.
    + vm_compute. reflexivity.
    + reflexivity.
    + reflexivity.
    + vm_compute. reflexivity.
    + destruct Hbad as (Hd & _); [discriminate|].
      change (length (wireobjs (run first_dial init))) with 0 in Hd. exact Hd.
Defined.

(** X18: [_onwire] and its cleanup. For a connected peer whose wire is not
    yet in [wires], [_onwire] appends the wire to [swarm.wires], resets
    [retries], emits 'wire' and puts the 'download', 'upload' and four
    cleanup listeners on the wire. The cleanup, when it runs, takes the wire
    off [wires] again and destroys the connection; it emits nothing. *)
Theorem onwire_registers_and_cleanup_undoes (w : World) (this peer wire conn : ref)
    (s : Swarm.t) (p : Peer.t) (x : Wire.t) (c : Socket.t) :
  swarms w !! this = Some s -> peers w !! peer = Some p ->
  Peer.wire p = Some wire -> Peer.conn p = Some conn ->
  wireobjs w !! wire = Some x -> sockets w !! conn = Some c ->
  wire ∉ Swarm.wires s ->
  let cleanup := Onwire_cleanup (length (onces w)) this wire (Some conn) in
  exists w1, Swarm__onwire this peer w = (w1, Normal tt)
    /\ swarms w1 = <[this := Swarm_set_wires (Swarm.wires s ++ [wire]) s]> (swarms w)
    /\ peers w1 = <[peer := Peer_set_retries 0 p]> (peers w)
    /\ log w1 = log w ++ [Emit this "wire" (VRef wire)]
    /\ Wire.listeners <$> wireobjs w1 !! wire
       = Some (Wire.listeners x ++
               [mkListener "download" false (Onwire_download this);
                mkListener "upload" false (Onwire_upload this);
                mkListener "end" false cleanup; mkListener "close" false cleanup;
                mkListener "error" false cleanup; mkListener "finish" false cleanup])
    /\ exists w2, call cleanup VUndefined w1 = (w2, Normal tt)
         /\ swarms w2 = <[this := s]> (swarms w)
         /\ Socket.destroyed <$> sockets w2 !! conn = Some true
         /\ log w2 = log w1.
Proof.
  destruct w as [ps ss ws ts os sw po reg tk lg cr]. fields.
  intros Hs Hp Hwire Hconn Hx Hc Hnot.
  unfold Swarm__onwire. exec_all.
  eexists. split; [reflexivity|]. repeat exec_step.
  rewrite !list_alter_alter_eq.
  split; [rewrite (alter_lookup_insert _ _ _ _ Hs); reflexivity|].
  split; [rewrite (alter_lookup_insert _ _ _ _ Hp); reflexivity|].
  split; [reflexivity|].
  split; [rewrite <- !app_assoc, Hconn; reflexivity|].
  unfold call. exec_all.
  eexists. split; [reflexivity|]. repeat exec_step.
  rewrite !list_alter_alter_eq. split; [|split; reflexivity].
  rewrite (alter_lookup_insert _ _ _ _ Hs). f_equal. cbn [compose]. records.
  rewrite (indexOf_first wire (Swarm.wires s) [] Hnot), splice_one_last.
  destruct s; reflexivity.
Qed.

Lemma onwire_registers_and_cleanup_undoes_witness :
  exists w1 w2,
    Swarm__onwire 0 0 (run connected init) = (w1, Normal tt)
    /\ Swarm.wires <$> swarms w1 = [[0]]
    /\ call (Onwire_cleanup 1 0 0 (Some 0)) VUndefined w1 = (w2, Normal tt)
    /\ Swarm.wires <$> swarms w2 = [[]]
    /\ Socket.destroyed <$> sockets w2 !! 0 = Some true.
Proof.
  edestruct (onwire_registers_and_cleanup_undoes (run connected init) 0 0 0 0)
    as (w1 & Hrun1 & Hsw1 & _ & _ & _ & w2 & Hrun2 & Hsw2 & Hd & _).
  - vm_compute. reflexivity.
  - vm_compute. reflexivity.
  - reflexivity.
  - reflexivity.
  - vm_compute. reflexivity.
  - vm_compute. reflexivity.
  - apply (bool_decide_unpack _). vm_compute. exact I.
  - exists w1, w2. split; [exact Hrun1|].
    split; [rewrite Hsw1; vm_compute; reflexivity|].
    split; [exact Hrun2|].
    split; [rewrite Hsw2; vm_compute; reflexivity | exact Hd].
Defined.

Lemma once_enter_spent cell w :
  onces w !! cell <> Some false -> once_enter cell w = (w, Normal false).
Proof. unfold once_enter. destruct (onces w !! cell) as [[]|]; congruence. Qed.

Lemma once_enter_first cell w :
  onces w !! cell = Some false ->
  once_enter cell w = (with_onces (<[cell := true]> (onces w)) w, Normal true).
Proof. unfold once_enter. intros ->. reflexivity. Qed.

Lemma once_body_runs_once cell (body : M unit) w :
  keeps_onces body ->
  let m := (first ← once_enter cell; when first body) in
  m (exec m w) = (exec m w, Normal tt).
Proof.
  intros Hbody m. unfold exec.
  destruct (decide (onces w !! cell = Some false)) as [Hfirst|Hspent].
  - assert (Hm : m w = body (with_onces (<[cell := true]> (onces w)) w)).
    { subst m. rewrite (bind_normal _ _ _ _ _ (once_enter_first cell w Hfirst)). reflexivity. }
    rewrite Hm. subst m.
    set (w2 := (body (with_onces (<[cell := true]> (onces w)) w)).1).
    rewrite (bind_normal _ _ w2 w2 false); [reflexivity|].
    apply once_enter_spent. subst w2. rewrite Hbody. fields.
    rewrite list_lookup_insert_eq by (eapply lookup_lt_Some, Hfirst). discriminate.
  - assert (Hm : m w = (w, Normal tt)).
    { subst m. rewrite (bind_normal _ _ _ _ _ (once_enter_spent cell w Hspent)). reflexivity. }
    rewrite Hm. exact Hm.
Qed.

(** X19: the closures wrapped in [once] act once. After the end-of-connection
    handler of a peer, or the cleanup of a wire, has run, in any state and
    with any argument, a second run of the same closure changes nothing. *)
Theorem once_wrapped_closures_run_once (w : World) (cell peer swarm wire : ref)
    (conn : option ref) (arg arg' : Value) :
  (let w1 := exec (call (Peer_conn_end cell peer) arg) w in
   call (Peer_conn_end cell peer) arg' w1 = (w1, Normal tt))
  /\ (let w1 := exec (call (Onwire_cleanup cell swarm wire conn) arg) w in
      call (Onwire_cleanup cell swarm wire conn) arg' w1 = (w1, Normal tt)).
Proof.
  split; cbv zeta; unfold call; apply once_body_runs_once; intros w0; run_prims.
  - destruct (peers w0 !! peer) as [p|]; [|reflexivity].
    destruct (Peer.conn p); reflexivity.
  - destruct conn; reflexivity.
Qed.

End Handshakes.

(* ===================================================================== *)
(** ** The peer module: factories, handshake and teardown *)
(* ===================================================================== *)

(** Symbolic execution over the store of the peer module. *)
Ltac peer_run :=
  unfold Eff.exec, PeerJs.get_peer, PeerJs.get_conn, PeerJs.get_swarm, PeerJs.upd_peer,
    PeerJs.upd_conn, PeerJs.upd_wire, PeerJs.upd_swarm, PeerJs.effect, PeerJs.Conn_once,
    PeerJs.Conn_destroy, PeerJs.Wire_on, PeerJs.Wire_once, PeerJs.Wire_destroy,
    PeerJs.new_wire, PeerJs.Peer_new,
    PeerJs.global_clearTimeout, PeerJs.global_setTimeout, PeerJs.unref,
    Eff.when, Eff.nonnull, Eff.TypeError, Eff.throw, Eff.gets, Eff.modify, Eff.deref,
    mbind, Eff.M_bind, mret, Eff.M_ret in *.

Ltac peer_fields :=
  cbn [PeerJs.peers PeerJs.conns PeerJs.wireobjs PeerJs.timers PeerJs.swarms PeerJs.log
       PeerJs.with_peers PeerJs.with_conns PeerJs.with_wireobjs PeerJs.with_timers
       PeerJs.with_swarms PeerJs.with_log fst snd] in *.

Ltac peer_records :=
  cbn [PeerJs.Peer.id PeerJs.Peer.addr PeerJs.Peer.conn PeerJs.Peer.swarm PeerJs.Peer.wire
       PeerJs.Peer.destroyed PeerJs.Peer.timeout PeerJs.Peer.retries PeerJs.Peer.sentHandshake
       PeerJs.Peer_set_addr PeerJs.Peer_set_conn PeerJs.Peer_set_swarm PeerJs.Peer_set_wire
       PeerJs.Peer_set_destroyed PeerJs.Peer_set_timeout PeerJs.Peer_set_retries
       PeerJs.Peer_set_sentHandshake
       PeerJs.Conn.id PeerJs.Conn.connected PeerJs.Conn.remoteAddress PeerJs.Conn.remotePort
       PeerJs.Conn.destroyed PeerJs.Conn.listeners
       PeerJs.Wire.destroyed PeerJs.Wire.listeners
       PeerJs.destroyed PeerJs.infoHash PeerJs.infoHashHex PeerJs.peerId PeerJs.downloaded
       PeerJs.uploaded PeerJs.wires PeerJs.rest
       PeerJs.Swarm_set_downloaded PeerJs.Swarm_set_uploaded PeerJs.Swarm_set_wires
       PeerJs.delay PeerJs.callback PeerJs.pending PeerJs.unrefd
       fmap option_fmap option_map length Eff.nonnull mret Eff.M_ret] in *.

Ltac peer_step :=
  first
    [ progress peer_fields
    | progress peer_records
    | rewrite list_lookup_alter_eq
    | rewrite lookup_snoc_new
    | erewrite lookup_snoc_old by eassumption
    | progress rewrite ?length_alter, ?length_app
    | match goal with
      | H : ?l !! ?i = Some _ |- context [?l !! ?i] => rewrite H
      | H : ?x = ?v |- context [match ?x with _ => _ end] => rewrite H
      | H : ?x = ?v |- context [if ?x then _ else _] => rewrite H
      end ].

Section PeerLife.
Import Eff PeerJs.
Local Open Scope nat_scope.
Context {R : Type} (removePeer : string -> Swarm R -> Swarm R) (_drain : Swarm R -> Swarm R).

#[local] Abbreviation destroy := (PeerJs.destroy R removePeer _drain).
#[local] Abbreviation onHandshake := (PeerJs.onHandshake R removePeer _drain).

(** X20: the three factories. [createOutgoingTCPPeer] only makes the record
    of a peer of the swarm: no connection, no wire, no timer.
    [createIncomingTCPPeer] names the peer after the remote address and port
    of the connection, gives it a wire and arms the handshake timer, but has
    no swarm and sends no handshake. [createWebRTCPeer] on a connected
    transport does the same for a peer of the swarm and sends the handshake
    at once; on a transport that is not yet connected it only arms the timer
    and waits for 'connect' or 'error'. *)
Theorem peer_factories (w : World R) (conn sw : ref) (c : Conn.t) (s : Swarm R) (addr : string) :
  conns R w !! conn = Some c -> swarms R w !! sw = Some s ->
  let peer := length (peers R w) in
  let wire := length (wireobjs R w) in
  let timer := length (timers R w) in
  let remote := to_str (Conn.remoteAddress c) +:+ ":" +:+ to_str (Conn.remotePort c) in
  (* createOutgoingTCPPeer: a record and nothing else *)
  createOutgoingTCPPeer R addr sw w
  = (with_peers R (peers R w ++ [Peer.mk addr (Some addr) None (Some sw) None false None 0 false]) w,
     Normal peer)
  (* createIncomingTCPPeer: wired up, deadline armed, no handshake sent *)
  /\ (exists w', createIncomingTCPPeer R conn w = (w', Normal peer)
        /\ peers R w' = peers R w ++ [Peer.mk remote (Some remote) (Some conn) None (Some wire)
                                        false (Some timer) 0 false]
        /\ timers R w' = timers R w ++ [mkTimer HANDSHAKE_TIMEOUT (Timeout_destroy peer) true true]
        /\ length (wireobjs R w') = S (length (wireobjs R w))
        /\ log R w' = log R w /\ swarms R w' = swarms R w)
  (* createWebRTCPeer on a connected transport: the handshake goes out at once *)
  /\ (Conn.connected c = true ->
      exists w', createWebRTCPeer R conn sw w = (w', Normal peer)
        /\ peers R w' = peers R w ++ [Peer.mk (Conn.id c) None (Some conn) (Some sw) (Some wire)
                                        false (Some timer) 0 true]
        /\ timers R w' = timers R w ++ [mkTimer HANDSHAKE_TIMEOUT (Timeout_destroy peer) true true]
        /\ log R w' = log R w ++ [WireHandshake wire (infoHash R s) (peerId R s)])
  (* createWebRTCPeer on a transport that is not connected yet: it waits *)
  /\ (Conn.connected c = false ->
      exists w', createWebRTCPeer R conn sw w = (w', Normal peer)
        /\ peers R w' = peers R w ++ [Peer.mk (Conn.id c) None (Some conn) (Some sw) None
                                        false (Some timer) 0 false]
        /\ timers R w' = timers R w ++ [mkTimer HANDSHAKE_TIMEOUT (Timeout_destroy peer) true true]
        /\ wireobjs R w' = wireobjs R w /\ log R w' = log R w
        /\ Conn.listeners <$> conns R w' !! conn
           = Some (Conn.listeners c ++ [mkListener "connect" true (WebRTC_connect peer);
                                        mkListener "error" true (WebRTC_error peer)])).
Proof.
  destruct w as [ps cs ws ts ss lg]. peer_fields. intros Hc Hs. cbv zeta.
  split; [|split; [|split]].
  - unfold createOutgoingTCPPeer. peer_run. repeat peer_step.
    rewrite !alter_app_r_alt by lia. rewrite !Nat.sub_diag. reflexivity.
  - unfold createIncomingTCPPeer, onConnect, PeerJs.setTimeout, PeerJs.handshake.
    peer_run. peer_run. repeat peer_step.
    rewrite bool_decide_eq_false_2 by (apply is_Some_None). repeat peer_step.
    eexists. split; [reflexivity|]. repeat peer_step.
    rewrite !alter_app_r_alt by lia. rewrite !Nat.sub_diag. cbn [alter list_alter]. peer_records.
    repeat split; try reflexivity. lia.
  - intros Hconn.
    unfold createWebRTCPeer, onConnect, PeerJs.setTimeout, PeerJs.handshake.
    peer_run. peer_run. repeat peer_step.
    rewrite bool_decide_eq_true_2 by eauto. repeat peer_step.
    eexists. split; [reflexivity|]. repeat peer_step.
    rewrite !alter_app_r_alt by lia. rewrite !Nat.sub_diag. cbn [alter list_alter]. peer_records.
    repeat split; reflexivity.
  - intros Hconn.
    unfold createWebRTCPeer, onConnect, PeerJs.setTimeout, PeerJs.handshake.
    peer_run. peer_run. repeat peer_step.
    eexists. split; [reflexivity|]. repeat peer_step.
    rewrite !alter_app_r_alt by lia. rewrite !Nat.sub_diag. cbn [alter list_alter]. peer_records.
    rewrite <- app_assoc.
    repeat split; reflexivity.
Qed.

(** [onConnect] for a peer with a connection: the state after it. *)
Lemma onConnect_spec (w : World R) (self conn : ref) (p : Peer.t) (c : Conn.t) :
  peers R w !! self = Some p -> Peer.conn p = Some conn -> conns R w !! conn = Some c ->
  (forall sw, Peer.swarm p = Some sw -> is_Some (swarms R w !! sw)) ->
  let wire := length (wireobjs R w) in
  let timer := length (timers R w) in
  exists w', onConnect R self w = (w', Normal tt)
    /\ conns R w'
       = <[conn := Conn.mk (Conn.id c) (Conn.connected c) (Conn.remoteAddress c)
                     (Conn.remotePort c) (Conn.destroyed c)
                     (Conn.listeners c ++
                      [mkListener "end" true (OnConnect_destroy self);
                       mkListener "close" true (OnConnect_destroy self);
                       mkListener "finish" true (OnConnect_destroy self);
                       mkListener "error" true (OnConnect_destroy self)])]> (conns R w)
    /\ wireobjs R w'
       = wireobjs R w ++
         [Wire.mk false [mkListener "end" true (OnConnect_destroy self);
                         mkListener "finish" true (OnConnect_destroy self);
                         mkListener "error" true (OnConnect_destroy self);
                         mkListener "handshake" true (OnConnect_handshake self)]]
    /\ timers R w'
       = timers_without (Peer.timeout p) (timers R w)
         ++ [mkTimer HANDSHAKE_TIMEOUT (Timeout_destroy self) true true]
    /\ peers R w'
       = <[self := Peer.mk (Peer.id p) (Peer.addr p) (Some conn) (Peer.swarm p) (Some wire)
                     (Peer.destroyed p) (Some timer) (Peer.retries p)
                     (match Peer.swarm p with Some _ => true | None => Peer.sentHandshake p end)]> (peers R w)
    /\ swarms R w' = swarms R w
    /\ log R w'
       = log R w ++ match Peer.swarm p with
                    | Some sw => match swarms R w !! sw with
                                 | Some s => [WireHandshake wire (infoHash R s) (peerId R s)]
                                 | None => []
                                 end
                    | None => []
                    end.
Proof.
  destruct w as [ps cs ws ts ss lg]. peer_fields. intros Hp Hconn Hc Hsw.
  assert (Hpeers : forall (f : Peer.t -> Peer.t), alter f self ps = <[self := f p]> ps)
    by (intros f; apply (alter_lookup_insert _ _ _ _ Hp)).
  assert (Hconns : forall (f : Conn.t -> Conn.t), alter f conn cs = <[conn := f c]> cs)
    by (intros f; apply (alter_lookup_insert _ _ _ _ Hc)).
  unfold onConnect, PeerJs.setTimeout, PeerJs.handshake. peer_run. peer_run. repeat peer_step.
  destruct (Peer.swarm p) as [sw|] eqn:Hswarm.
  - destruct (Hsw sw eq_refl) as [s Hs].
    destruct (Peer.timeout p) as [t|] eqn:Ht; cbn [timers_without];
      rewrite bool_decide_eq_true_2 by eauto; repeat peer_step;
      eexists; (split; [reflexivity|]); repeat peer_step;
      rewrite ?list_alter_alter_eq, ?Hpeers, ?Hconns; cbn [compose]; repeat peer_step;
      rewrite <- ?app_assoc; cbn [app];
      rewrite ?alter_app_r_alt by (rewrite ?length_alter; lia);
      rewrite ?length_alter, ?Nat.sub_diag; cbn [alter list_alter];
      repeat split; try reflexivity; f_equal; destruct p; cbn in *; subst; reflexivity.
  - destruct (Peer.timeout p) as [t|] eqn:Ht; cbn [timers_without];
      rewrite bool_decide_eq_false_2 by (apply is_Some_None); repeat peer_step;
      eexists; (split; [reflexivity|]); repeat peer_step;
      rewrite ?list_alter_alter_eq, ?Hpeers, ?Hconns; cbn [compose]; repeat peer_step;
      rewrite <- ?app_assoc; cbn [app];
      rewrite ?alter_app_r_alt by (rewrite ?length_alter; lia);
      rewrite ?length_alter, ?Nat.sub_diag; cbn [alter list_alter];
      rewrite ?app_nil_r;
      repeat split; try reflexivity; f_equal; destruct p; cbn in *; subst; reflexivity.
Qed.

(** [onHandshake] with the info-hash of the swarm: the state after it. *)
Lemma onHandshake_accepts (w : World R) (self sw wire : ref) (p : Peer.t) (s : Swarm R) :
  peers R w !! self = Some p -> Peer.swarm p = Some sw -> swarms R w !! sw = Some s ->
  PeerJs.destroyed R s = false -> Peer.wire p = Some wire ->
  truthy (Peer.addr p) = true \/ is_Some (conn_of p w) ->
  exists w', onHandshake self (infoHashHex R s) w = (w', Normal tt)
    /\ peers R w' = <[self := Peer_set_sentHandshake true
                                (Peer_set_retries 0 (Peer_set_timeout None p))]>
                      (peers R w)
    /\ swarms R w' = <[sw := Swarm_set_wires R (wires R s ++ [wire]) s]> (swarms R w)
    /\ timers R w' = timers_without (Peer.timeout p) (timers R w)
    /\ log R w' = log R w
         ++ (if Peer.sentHandshake p then []
             else [WireHandshake wire (infoHash R s) (peerId R s)])
         ++ [Emit_wire sw wire (wire_addr p (conn_of p w))].
Proof.
  intros Hp Hsw Hs Hlive Hwire Haddr.
  destruct w as [ps cs ws ts ss lg]. unfold conn_of, wire_addr in *. peer_fields.
  unfold PeerJs.onHandshake, PeerJs.clearTimeout, PeerJs.handshake.
  peer_run. peer_run. repeat peer_step.
  rewrite bool_decide_eq_false_2 by (intros H; apply H; reflexivity).
  assert (Hpeers : forall (f : Peer.t -> Peer.t), alter f self ps = <[self := f p]> ps)
    by (intros f; apply (alter_lookup_insert _ _ _ _ Hp)).
  assert (Hswarms : forall (f : Swarm R -> Swarm R), alter f sw ss = <[sw := f s]> ss)
    by (intros f; apply (alter_lookup_insert _ _ _ _ Hs)).
  destruct (Peer.timeout p) as [t|] eqn:Ht, (Peer.sentHandshake p) eqn:Hsent,
    (truthy (Peer.addr p)) eqn:Htr;
    try (destruct Haddr as [?|[c Hc]]; [discriminate|];
         destruct (Peer.conn p) as [conn|] eqn:Hconn; [|discriminate];
         destruct (truthy (Conn.remoteAddress c)) eqn:Hra);
    cbn [negb timers_without]; repeat peer_step;
    eexists; (split; [reflexivity|]); repeat peer_step;
    rewrite ?list_alter_alter_eq, ?Hpeers, ?Hswarms, <- ?app_assoc; cbn [compose];
    repeat split; try reflexivity;
    f_equal; destruct p; cbn in *; subst; reflexivity.
Qed.

(** X21: a peer of a swarm sends its handshake once. [onConnect] sends it,
    as the peer has a swarm; when the remote handshake with the info-hash of
    the swarm then arrives, [onHandshake] sends nothing more: it reports the
    wire and its address to the swarm and appends the wire to [swarm.wires]. *)
Theorem handshake_is_sent_once (w : World R) (self conn sw : ref) (p : Peer.t) (c : Conn.t)
    (s : Swarm R) :
  peers R w !! self = Some p -> Peer.conn p = Some conn -> conns R w !! conn = Some c ->
  Peer.swarm p = Some sw -> swarms R w !! sw = Some s -> PeerJs.destroyed R s = false ->
  let wire := length (wireobjs R w) in
  exists w1 w2,
    onConnect R self w = (w1, Normal tt)
    /\ log R w1 = log R w ++ [WireHandshake wire (infoHash R s) (peerId R s)]
    /\ onHandshake self (infoHashHex R s) w1 = (w2, Normal tt)
    /\ log R w2 = log R w1 ++ [Emit_wire sw wire (wire_addr p (Some c))]
    /\ Peer.sentHandshake <$> peers R w2 !! self = Some true
    /\ wires R <$> swarms R w2 !! sw = Some (wires R s ++ [wire]).
Proof.
  intros Hp Hconn Hc Hsw Hs Hlive wire.
  destruct (onConnect_spec w self conn p c Hp Hconn Hc)
    as (w1 & Hrun1 & Hconns1 & Hwires1 & Htimers1 & Hpeers1 & Hswarms1 & Hlog1).
  { intros sw' Hsw'. rewrite Hsw in Hsw'. injection Hsw' as <-. eauto. }
  rewrite Hsw, Hs in Hlog1. rewrite Hsw in Hpeers1.
  set (p1 := Peer.mk (Peer.id p) (Peer.addr p) (Some conn) (Some sw) (Some wire)
               (Peer.destroyed p) (Some (length (timers R w))) (Peer.retries p) true) in *.
  assert (Hp1 : peers R w1 !! self = Some p1).
  { rewrite Hpeers1. apply list_lookup_insert_eq. eapply lookup_lt_Some, Hp. }
  assert (Hs1 : swarms R w1 !! sw = Some s) by (rewrite Hswarms1; exact Hs).
  destruct (onHandshake_accepts w1 self sw wire p1 s Hp1 eq_refl Hs1 Hlive eq_refl)
    as (w2 & Hrun2 & Hpeers2 & Hswarms2 & _ & Hlog2).
  { right. unfold conn_of. cbn. rewrite Hconns1.
    rewrite list_lookup_insert_eq by (eapply lookup_lt_Some, Hc). eauto. }
  exists w1, w2.
  split; [exact Hrun1|]. split; [exact Hlog1|]. split; [exact Hrun2|].
  split.
  { rewrite Hlog2. cbn [Peer.sentHandshake p1 app]. do 2 f_equal.
    unfold conn_of. cbn [Peer.conn p1]. rewrite Hconns1.
    rewrite list_lookup_insert_eq by (eapply lookup_lt_Some, Hc). reflexivity. }
  split.
  - rewrite Hpeers2. rewrite list_lookup_insert_eq by (eapply lookup_lt_Some, Hp1). reflexivity.
  - rewrite Hswarms2. rewrite list_lookup_insert_eq by (eapply lookup_lt_Some, Hs1). reflexivity.
Qed.

(** X22: [onHandshake] checks the info-hash. A peer without a swarm ignores
    the handshake. A peer whose swarm is destroyed, or whose swarm has
    another info-hash, is destroyed. Otherwise the handshake timer is
    cancelled, [retries] is reset, the wire is appended to [swarm.wires] and
    reported with the address of the peer, and the handshake of the swarm is
    sent unless it was sent before. *)
Theorem onHandshake_checks_info_hash (w : World R) (self : ref) (p : Peer.t) (hex : string) :
  peers R w !! self = Some p ->
  (Peer.swarm p = None -> onHandshake self hex w = (w, Normal tt))
  /\ (forall sw s, Peer.swarm p = Some sw -> swarms R w !! sw = Some s ->
        (PeerJs.destroyed R s = true \/ hex <> infoHashHex R s ->
         onHandshake self hex w = destroy self w)
        /\ (forall wire,
              PeerJs.destroyed R s = false -> hex = infoHashHex R s ->
              Peer.wire p = Some wire ->
              truthy (Peer.addr p) = true \/ is_Some (conn_of p w) ->
              exists w', onHandshake self hex w = (w', Normal tt)
                /\ peers R w' = <[self := Peer_set_sentHandshake true
                                            (Peer_set_retries 0 (Peer_set_timeout None p))]>
                                  (peers R w)
                /\ swarms R w' = <[sw := Swarm_set_wires R (wires R s ++ [wire]) s]> (swarms R w)
                /\ timers R w' = timers_without (Peer.timeout p) (timers R w)
                /\ log R w' = log R w
                     ++ (if Peer.sentHandshake p then []
                         else [WireHandshake wire (infoHash R s) (peerId R s)])
                     ++ [Emit_wire sw wire (wire_addr p (conn_of p w))])).
Proof.
  intros Hp. split.
  - intros Hnone. unfold PeerJs.onHandshake. peer_run. repeat peer_step. reflexivity.
  - intros sw s Hsw Hs. split.
    + intros Hbad. unfold PeerJs.onHandshake.
      rewrite (bind_normal _ _ _ _ _ (deref_Some (peers R) _ _ _ Hp)). rewrite Hsw.
      rewrite (bind_normal _ _ _ _ _ (deref_Some (swarms R) _ _ _ Hs)).
      destruct (PeerJs.destroyed R s); [reflexivity|].
      destruct Hbad as [?|Hne]; [discriminate|].
      rewrite bool_decide_eq_true_2 by exact Hne. reflexivity.
    + intros wire Hlive -> Hwire Haddr.
      apply (onHandshake_accepts w self sw wire p s); assumption.
Qed.

(** X23: a peer holds at most one live handshake timer. [setTimeout] cancels
    the timer the peer holds, arms a new one of [HANDSHAKE_TIMEOUT] ms that
    destroys the peer, unrefs it and stores it; [clearTimeout] cancels the
    timer the peer holds and stores null. Neither touches any other timer. *)
Theorem handshake_timer_is_replaced (w : World R) (self : ref) (p : Peer.t) :
  peers R w !! self = Some p ->
  (exists w', PeerJs.setTimeout R self w = (w', Normal tt)
     /\ timers R w' !! length (timers R w)
        = Some (mkTimer HANDSHAKE_TIMEOUT (Timeout_destroy self) true true)
     /\ peers R w' = <[self := Peer_set_timeout (Some (length (timers R w))) p]> (peers R w)
     /\ (forall t, Peer.timeout p = Some t -> t < length (timers R w) -> cancelled t w')
     /\ (forall t, Peer.timeout p <> Some t -> t < length (timers R w) ->
                   timers R w' !! t = timers R w !! t))
  /\ (exists w', PeerJs.clearTimeout R self w = (w', Normal tt)
     /\ peers R w' = <[self := Peer_set_timeout None p]> (peers R w)
     /\ length (timers R w') = length (timers R w)
     /\ (forall t, Peer.timeout p = Some t -> t < length (timers R w) -> cancelled t w')
     /\ (forall t, Peer.timeout p <> Some t -> timers R w' !! t = timers R w !! t)).
Proof.
  destruct w as [ps cs ws ts ss lg]. peer_fields. intros Hp. unfold cancelled. split.
  - unfold PeerJs.setTimeout. peer_run. repeat peer_step.
    destruct (Peer.timeout p) as [t0|] eqn:Ht; repeat peer_step;
      eexists; (split; [reflexivity|]); peer_fields; rewrite ?length_alter.
    + rewrite alter_app_r_alt by (rewrite length_alter; lia).
      rewrite length_alter, Nat.sub_diag. cbn [alter list_alter].
      rewrite lookup_app_r by (rewrite length_alter; lia).
      rewrite length_alter, Nat.sub_diag.
      split; [reflexivity|]. split; [rewrite (alter_lookup_insert _ _ _ _ Hp); reflexivity|].
      split.
      * intros t [= <-] Hlt. rewrite lookup_app_l by (rewrite length_alter; lia).
        rewrite list_lookup_alter_eq.
        destruct (lookup_lt_is_Some_2 ts t0 Hlt) as [x ->]. reflexivity.
      * intros t Hne Hlt. rewrite lookup_app_l by (rewrite length_alter; lia).
        apply list_lookup_alter_ne. congruence.
    + rewrite alter_app_r_alt by lia. rewrite Nat.sub_diag. cbn [alter list_alter].
      rewrite lookup_snoc_new.
      split; [reflexivity|]. split; [rewrite (alter_lookup_insert _ _ _ _ Hp); reflexivity|].
      split; [intros t; discriminate|].
      intros t _ Hlt. rewrite lookup_app_l by lia. reflexivity.
  - unfold PeerJs.clearTimeout. peer_run. repeat peer_step.
    destruct (Peer.timeout p) as [t0|] eqn:Ht; repeat peer_step;
      eexists; (split; [reflexivity|]); repeat peer_step.
    + split; [rewrite (alter_lookup_insert _ _ _ _ Hp); reflexivity|].
      split; [reflexivity|]. split.
      * intros t [= <-] Hlt. rewrite list_lookup_alter_eq.
        destruct (lookup_lt_is_Some_2 ts t0 Hlt) as [x ->]. reflexivity.
      * intros t Hne. apply list_lookup_alter_ne. congruence.
    + split; [rewrite (alter_lookup_insert _ _ _ _ Hp); reflexivity|].
      split; [reflexivity|]. split; [intros t; discriminate|reflexivity].
Qed.

(** The swarm of a peer after the first [destroy] of the peer. *)
Lemma destroy_owned_swarm (w : World R) (self sw : ref) (p : Peer.t) (s : Swarm R) :
  peers R w !! self = Some p -> Peer.destroyed p = false ->
  Peer.swarm p = Some sw -> swarms R w !! sw = Some s ->
  swarms R (exec (destroy self) w) !! sw
  = Some (_drain (removePeer (Peer.id p)
            (Swarm_set_wires R
               (JS.splice (wire_index (Peer.wire p) (wires R s)) 1 (wires R s)) s))).
Proof.
  destruct w as [ps cs ws ts ss lg]. peer_fields.
  intros Hp Hd Hsw Hs. unfold PeerJs.destroy. peer_run. repeat peer_step.
  destruct (Peer.conn p) as [conn|], (Peer.wire p) as [wire|], (Peer.timeout p) as [t|];
    repeat peer_step; peer_run; repeat peer_step;
    rewrite ?list_alter_alter_eq, ?list_lookup_alter_eq, ?Hs; reflexivity.
Qed.

(** X24: the first [destroy] of a peer that has a swarm returns normally and
    tears everything down: the connection and the wire are destroyed, the
    timer is cancelled, the swarm drops one wire, forgets the peer and
    drains, and the peer ends with [destroyed] set and [conn], [swarm],
    [wire] and [timeout] null; its [retries] and [sentHandshake] are kept and
    nothing is emitted. *)
Theorem destroy_tears_down_owned_peer (w : World R) (self sw : ref) (p : Peer.t) (s : Swarm R) :
  peers R w !! self = Some p -> Peer.destroyed p = false ->
  Peer.swarm p = Some sw -> swarms R w !! sw = Some s ->
  exists w', destroy self w = (w', Normal tt)
    /\ peers R w' = <[self := Peer.mk (Peer.id p) (Peer.addr p) None None None true None
                                 (Peer.retries p) (Peer.sentHandshake p)]> (peers R w)
    /\ swarms R w'
       = <[sw := _drain (removePeer (Peer.id p)
                   (Swarm_set_wires R
                      (JS.splice (wire_index (Peer.wire p) (wires R s)) 1 (wires R s)) s))]>
           (swarms R w)
    /\ conns R w' = match Peer.conn p with
                    | Some conn => alter (fun x => Conn.mk (Conn.id x) (Conn.connected x)
                                       (Conn.remoteAddress x) (Conn.remotePort x) true
                                       (Conn.listeners x)) conn (conns R w)
                    | None => conns R w
                    end
    /\ wireobjs R w' = match Peer.wire p with
                       | Some wire => alter (fun x => Wire.mk true (Wire.listeners x)) wire
                                        (wireobjs R w)
                       | None => wireobjs R w
                       end
    /\ timers R w' = match Peer.timeout p with
                     | Some t => alter (fun x => mkTimer (delay x) (callback x) false (unrefd x))
                                   t (timers R w)
                     | None => timers R w
                     end
    /\ log R w' = log R w.
Proof.
  destruct w as [ps cs ws ts ss lg]. peer_fields.
  intros Hp Hd Hsw Hs. unfold PeerJs.destroy. peer_run. repeat peer_step.
  destruct (Peer.conn p) as [conn|], (Peer.wire p) as [wire|], (Peer.timeout p) as [t|];
    repeat peer_step; eexists; (split; [reflexivity|]); repeat peer_step;
    rewrite ?list_alter_alter_eq;
    (split; [rewrite (alter_lookup_insert _ _ _ _ Hp); cbn; rewrite ?Hsw; reflexivity|]);
    (split; [rewrite (alter_lookup_insert _ _ _ _ Hs); reflexivity|]);
    repeat split; reflexivity.
Qed.

(** X25: what [destroy] takes off [swarm.wires]. When the wire of the peer
    is on the list, its first occurrence is removed. When it is not (the
    peer has no wire, or its handshake never completed), [indexOf] gives -1
    and [splice(-1, 1)] removes the last wire of the list, the wire of some
    other peer. *)
Theorem destroy_splices_swarm_wires (w : World R) (self sw : ref) (p : Peer.t) (s : Swarm R) :
  peers R w !! self = Some p -> Peer.destroyed p = false ->
  Peer.swarm p = Some sw -> swarms R w !! sw = Some s ->
  (forall wire l1 l2, Peer.wire p = Some wire -> wires R s = l1 ++ wire :: l2 -> wire ∉ l1 ->
     swarms R (exec (destroy self) w) !! sw
     = Some (_drain (removePeer (Peer.id p) (Swarm_set_wires R (l1 ++ l2) s))))
  /\ ((forall wire, Peer.wire p = Some wire -> wire ∉ wires R s) ->
      swarms R (exec (destroy self) w) !! sw
      = Some (_drain (removePeer (Peer.id p) (Swarm_set_wires R (removelast (wires R s)) s)))).
Proof.
  intros Hp Hd Hsw Hs.
  rewrite (destroy_owned_swarm w self sw p s Hp Hd Hsw Hs). split.
  - intros wire l1 l2 Hw Hl Hnot. rewrite Hw. cbn [wire_index].
    rewrite Hl, (indexOf_first wire l1 l2 Hnot), splice_one_at. reflexivity.
  - intros Hnot. destruct (Peer.wire p) as [wire|]; cbn [wire_index].
    + rewrite (indexOf_absent wire _ (Hnot wire eq_refl)), splice_one_minus_one. reflexivity.
    + rewrite splice_one_minus_one. reflexivity.
Qed.

End PeerLife.

Section PeerLifeRuns.
Import Eff PeerJs.
Local Open Scope nat_scope.

Lemma peer_factories_witness :
  createOutgoingTCPPeer unit "10.0.0.8:6881" 0 connecting_peer
  = (with_peers unit
       (peers unit connecting_peer
        ++ [Peer.mk "10.0.0.8:6881" (Some "10.0.0.8:6881") None (Some 0) None false None 0 false])
       connecting_peer, Normal 1)
  /\ exists w', createWebRTCPeer unit 0 0 connecting_peer = (w', Normal 1)
       /\ log unit w' = [WireHandshake 0 torrent us].
Proof.
  assert (Hc : conns unit connecting_peer !! 0
               = Some (Conn.mk "" true (Some "10.0.0.9") (Some "51413") false []))
    by reflexivity.
  assert (Hs : swarms unit connecting_peer !! 0
               = Some (mkSwarm unit false torrent torrent us 0 0 [] tt)) by reflexivity.
  pose proof (peer_factories connecting_peer 0 0 _ _ "10.0.0.8:6881" Hc Hs) as H.
  cbv zeta in H. destruct H as (Hout & _ & Hweb & _).
  split; [exact Hout|].
  destruct Hweb as (w' & Hrun & _ & _ & Hlog); [reflexivity|].
  exists w'. split; [exact Hrun | exact Hlog].
Defined.

Lemma handshake_is_sent_once_witness :
  exists w1 w2,
    onConnect unit 0 connecting_peer = (w1, Normal tt)
    /\ PeerJs.onHandshake unit no_removePeer no_drain 0 torrent w1 = (w2, Normal tt)
    /\ log unit w2 = [WireHandshake 0 torrent us; Emit_wire 0 0 (Some "10.0.0.9:51413")].
Proof.
  edestruct (handshake_is_sent_once no_removePeer no_drain connecting_peer 0 0 0)
    as (w1 & w2 & Hrun1 & Hlog1 & Hrun2 & Hlog2 & _).
  - reflexivity.
  - reflexivity.
  - reflexivity.
  - reflexivity.
  - reflexivity.
  - reflexivity.
  - exists w1, w2. split; [exact Hrun1|]. split; [exact Hrun2|].
    rewrite Hlog2, Hlog1. reflexivity.
Defined.

Lemma onHandshake_checks_info_hash_witness :
  PeerJs.onHandshake unit no_removePeer no_drain 0 other_torrent lone_peer
  = PeerJs.destroy unit no_removePeer no_drain 0 lone_peer
  /\ Peer.destroyed
       <$> peers unit (exec (PeerJs.onHandshake unit no_removePeer no_drain 0 other_torrent)
                         lone_peer)
     = [true].
Proof.
  split; [|vm_compute; reflexivity].
  edestruct (onHandshake_checks_info_hash no_removePeer no_drain lone_peer 0)
    with (hex := other_torrent) as [_ H]; [reflexivity|].
  edestruct (H 0) as [Hbad _]; [reflexivity | reflexivity |].
  apply Hbad. right. apply (bool_decide_unpack _). vm_compute. exact I.
Defined.

Lemma handshake_timer_is_replaced_witness :
  exists w', PeerJs.setTimeout unit 0 (exec (PeerJs.setTimeout unit 0) lone_peer)
             = (w', Normal tt)
    /\ pending <$> timers unit w' !! 0 = Some false
    /\ pending <$> timers unit w' !! 1 = Some true.
Proof.
  edestruct (handshake_timer_is_replaced (exec (PeerJs.setTimeout unit 0) lone_peer) 0)
    as [(w' & Hrun & Hnew & _ & Hcancel & _) _]; [vm_compute; reflexivity|].
  exists w'. split; [exact Hrun|]. split.
  - apply Hcancel; [reflexivity | vm_compute; lia].
  - change (length (timers unit (exec (PeerJs.setTimeout unit 0) lone_peer))) with 1 in Hnew.
    rewrite Hnew. reflexivity.
Defined.

Lemma destroy_tears_down_owned_peer_witness :
  exists w', PeerJs.destroy unit no_removePeer no_drain 0 lone_peer = (w', Normal tt)
    /\ peers unit w'
       = [Peer.mk "10.0.0.9:51413" (Some "10.0.0.9:51413") None None None true None 0 false].
Proof.
  edestruct (destroy_tears_down_owned_peer no_removePeer no_drain lone_peer 0 0)
    as (w' & Hrun & Hpeers & _).
  - reflexivity.
  - reflexivity.
  - reflexivity.
  - reflexivity.
  - exists w'. split; [exact Hrun|]. rewrite Hpeers. reflexivity.
Defined.

Lemma destroy_splices_swarm_wires_witness :
  Peer.wire <$> peers unit unshaken_peer = [None]
  /\ wires unit <$> swarms unit unshaken_peer !! 0 = Some [0]
  /\ wires unit
       <$> swarms unit (exec (PeerJs.destroy unit no_removePeer no_drain 0) unshaken_peer) !! 0
     = Some [].
Proof.
  split; [reflexivity|]. split; [reflexivity|].
  edestruct (destroy_splices_swarm_wires no_removePeer no_drain unshaken_peer 0 0)
    as [_ Hnone].
  - reflexivity.
  - reflexivity.
  - reflexivity.
  - reflexivity.
  - rewrite Hnone; [reflexivity|]. intros wire Hw. discriminate Hw.
Defined.

End PeerLifeRuns.
